(** * sapphirus: a shallow embedding of [src/main.py]

    The program copies the structure of one Discord guild (roles, categories,
    channels, emojis) onto another.  It reads the source guild through the
    REST API ([APIScraper]) and writes to the target through discord.py
    ([Clone], driven by the menu of [CloneBot]).

    The embedding keeps the program's own shape:
    - JSON documents are Python values ([pyval]); a field is read with
      [.get], and every helper that can raise in Python returns a [result];
    - the methods of [Clone] and [CloneBot] are computations in a state and
      exception monad over the fields of the two objects;
    - the two remote services are oracles: the answer to a call is a function
      of the history of events so far and of the call. *)

From Stdlib Require Import ZArith List String Ascii Bool Lia Permutation.
From Stdlib Require Import SpecFloat DecimalString DecimalZ Sorted.
Import ListNotations.

Open Scope string_scope.
Open Scope list_scope.
Open Scope Z_scope.

(** ** Python values and exceptions *)

Module Py.

(** The exception classes the program meets.  [Forbidden] is a subclass of
    [HTTPException]; a clause [except discord.HTTPException] catches both. *)
Inductive exn : Type :=
| Forbidden
| HTTPException
| TypeError
| ValueError
| OverflowError
| AttributeError
| EOFError
| ClientError (msg : string).

Inductive result (A : Type) : Type :=
| Ok (a : A)
| Raise (e : exn).
Arguments Ok {A} a.
Arguments Raise {A} e.

Definition rbind {A B} (r : result A) (k : A -> result B) : result B :=
  match r with
  | Ok a => k a
  | Raise e => Raise e
  end.

(** A decoded JSON document.  Strings are sequences of code points below 256;
    floats are the binary64 values of [SpecFloat]. *)
#[warnings="-register-all"]
Inductive pyval : Type :=
| PNone
| PBool (b : bool)
| PInt (z : Z)
| PFloat (f : spec_float)
| PStr (s : string)
| PList (l : list pyval)
| PDict (d : list (string * pyval)).

Fixpoint assoc {A} (k : string) (d : list (string * A)) : option A :=
  match d with
  | [] => None
  | (k', v) :: d' => if String.eqb k k' then Some v else assoc k d'
  end.

(** [v.get(k, default)]: only a dict has the method. *)
Definition py_get (v : pyval) (k : string) (default : pyval) : result pyval :=
  match v with
  | PDict d => Ok (match assoc k d with Some x => x | None => default end)
  | _ => Raise AttributeError
  end.

(** [k in v] for a dict [v]. *)
Definition has_key (k : string) (d : list (string * pyval)) : bool :=
  match assoc k d with Some _ => true | None => false end.

(** Truth value of [if v] / [not v]. *)
Definition truthy (v : pyval) : bool :=
  match v with
  | PNone => false
  | PBool b => b
  | PInt z => negb (z =? 0)
  | PFloat (S754_zero _) => false
  | PFloat _ => true
  | PStr s => negb (String.eqb s "")
  | PList l => match l with [] => false | _ => true end
  | PDict d => match d with [] => false | _ => true end
  end.

(** The integer a float is equal to, when it is integral. *)
Definition float_integral (f : spec_float) : option Z :=
  match f with
  | S754_zero _ => Some 0
  | S754_finite s m e =>
      let sign := fun z : Z => if s then - z else z in
      if 0 <=? e then Some (sign (Z.pos m * 2 ^ e))
      else if Z.pos m mod 2 ^ (- e) =? 0 then Some (sign (Z.pos m / 2 ^ (- e)))
      else None
  | _ => None
  end.

(** [v == z] for an integer literal [z]: bools and integral floats compare
    equal to the integer they denote. *)
Definition eq_int (v : pyval) (z : Z) : bool :=
  match v with
  | PBool b => Z.b2z b =? z
  | PInt n => n =? z
  | PFloat f => match float_integral f with Some n => n =? z | None => false end
  | _ => false
  end.

(** [v == s] for a string literal [s]. *)
Definition eq_str (v : pyval) (s : string) : bool :=
  match v with
  | PStr t => String.eqb t s
  | _ => false
  end.

(** *** [int(...)] *)

Definition is_space (c : ascii) : bool :=
  let n := nat_of_ascii c in
  (((9 <=? n) && (n <=? 13)) || ((28 <=? n) && (n <=? 32))
   || (n =? 133) || (n =? 160))%nat.

Fixpoint lstrip (s : string) : string :=
  match s with
  | String c r => if is_space c then lstrip r else s
  | EmptyString => EmptyString
  end.

Fixpoint rstrip (s : string) : string :=
  match s with
  | EmptyString => EmptyString
  | String c r =>
      match rstrip r with
      | EmptyString => if is_space c then EmptyString else String c EmptyString
      | r' => String c r'
      end
  end.

(** [s.strip()] *)
Definition strip (s : string) : string := rstrip (lstrip s).

Definition digit_of (c : ascii) : option Z :=
  let n := nat_of_ascii c in
  if ((48 <=? n) && (n <=? 57))%nat then Some (Z.of_nat n - 48) else None.

Inductive scan : Type := AtStart | AfterDigit | AfterUnderscore.

(** Decimal digits, single underscores allowed between two digits. *)
Fixpoint digits (st : scan) (acc : Z) (s : string) : option Z :=
  match s with
  | EmptyString => match st with AfterDigit => Some acc | _ => None end
  | String c r =>
      match digit_of c with
      | Some d => digits AfterDigit (10 * acc + d) r
      | None =>
          if Ascii.eqb c "_"%char
          then match st with AfterDigit => digits AfterUnderscore acc r | _ => None end
          else None
      end
  end.

(** [int(s)] for a string: [None] stands for the [ValueError] of a string
    that is not a decimal integer literal. *)
Definition int_of_str (s : string) : option Z :=
  match strip s with
  | String "-" r => option_map Z.opp (digits AtStart 0 r)
  | String "+" r => digits AtStart 0 r
  | r => digits AtStart 0 r
  end.

(** [int(f)] for a float: truncation toward zero; infinities and NaN raise. *)
Definition int_of_float (f : spec_float) : result Z :=
  match f with
  | S754_zero _ => Ok 0
  | S754_infinity _ => Raise OverflowError
  | S754_nan => Raise ValueError
  | S754_finite s m e =>
      let mag := if 0 <=? e then Z.pos m * 2 ^ e else Z.pos m / 2 ^ (- e) in
      Ok (if s then - mag else mag)
  end.

(** [str(z)] for an integer. *)
Definition str_of_Z (z : Z) : string := NilZero.string_of_int (Z.to_int z).

Definition lower_char (c : ascii) : ascii :=
  let n := nat_of_ascii c in
  if (((65 <=? n) && (n <=? 90))
      || ((192 <=? n) && (n <=? 222) && negb (n =? 215)))%nat
  then ascii_of_nat (n + 32) else c.

(** [s.lower()] *)
Fixpoint lower (s : string) : string :=
  match s with
  | EmptyString => EmptyString
  | String c r => String (lower_char c) (lower r)
  end.

End Py.
Export Py.

(** ** [Clone.safe_int] *)

(** The result is the integer value; for a bool, which is an [int] in
    Python, the value of [True] is 1 and of [False] is 0. *)
Definition safe_int (value : pyval) (default : Z) : result Z :=
  match value with
  | PNone => Ok default
  | PBool b => Ok (Z.b2z b)
  | PInt z => Ok z
  | PStr s =>
      match int_of_str s with
      | Some z => Ok z
      | None => Ok default
      end
  | PFloat f => int_of_float f
  | _ => Ok default
  end.

(** ** [APIScraper]: the read path *)

Module Scraper.

(** The [Retry-After] header of an answer, as [float(...)] sees it:
    absent, not a number ([float] raises [ValueError]), or a number of
    seconds. *)
Inductive retry_header : Type :=
| NoHeader
| BadHeader
| Seconds (f : spec_float).

(** What one request meets: an answer with its status, [Retry-After] header
    and the outcome of decoding its body with [resp.json()], or an exception
    raised by the session before any answer. *)
Inductive response : Type :=
| Reply (status : Z) (retry_after : retry_header) (body : result pyval)
| Refused (e : exn).

(** The source service: the answer to the [n]-th request of the session,
    sent to the given endpoint. *)
Definition server : Type := nat -> string -> response.

(** [str(e)] *)
Definition str_of_exn (e : exn) : string :=
  match e with
  | Forbidden => "403 Forbidden"
  | HTTPException => "HTTP error"
  | TypeError => "type error"
  | ValueError => "value error"
  | OverflowError => "overflow error"
  | AttributeError => "attribute error"
  | EOFError => "EOF when reading a line"
  | ClientError msg => msg
  end.

Definition error_doc (msg : string) : pyval :=
  PDict [("error", PStr msg)].

Definition status_doc (msg : string) (status : Z) : pyval :=
  PDict [("error", PStr msg); ("status", PInt status)].

(** The float [5.0], the default of [resp.headers.get("Retry-After", 5)]. *)
Definition five : spec_float := S754_finite false 5 0.

(** The result of a call of [get]: the value returned, the index of the next
    request of the session, and the arguments of the calls of
    [asyncio.sleep], in order. *)
Record fetched : Type := mkFetched {
  value : pyval;
  next : nat;
  slept : list spec_float
}.

(** [APIScraper.get].  The method calls itself on a 429; [fuel] bounds the
    depth of these calls, and [None] says that the depth was not enough.
    Everything inside the method is under [except Exception], so the result
    is always a value. *)
Fixpoint get (fuel : nat) (srv : server) (endpoint : string) (n : nat)
  : option fetched :=
  match fuel with
  | O => None
  | S fuel' =>
      match srv n endpoint with
      | Refused e => Some (mkFetched (error_doc (str_of_exn e)) (S n) [])
      | Reply status hdr body =>
          if status =? 200 then
            match body with
            | Ok doc => Some (mkFetched doc (S n) [])
            | Raise e => Some (mkFetched (error_doc (str_of_exn e)) (S n) [])
            end
          else if status =? 429 then
            match hdr with
            | BadHeader =>
                Some (mkFetched (error_doc (str_of_exn ValueError)) (S n) [])
            | _ =>
                let retry := match hdr with Seconds f => f | _ => five end in
                match get fuel' srv endpoint (S n) with
                | Some r => Some (mkFetched (value r) (next r) (retry :: slept r))
                | None => None
                end
            end
          else if status =? 403 then
            Some (mkFetched (status_doc "forbidden" 403) (S n) [])
          else if status =? 401 then
            Some (mkFetched (status_doc "unauthorized" 401) (S n) [])
          else
            Some (mkFetched (status_doc ("http " ++ str_of_Z status) status) (S n) [])
      end
  end.

(** The document [scrape_server] returns. *)
Record snapshot : Type := mkSnapshot {
  snap_id : Z;
  snap_timestamp : string;
  snap_guild : pyval;
  snap_channels : list pyval;
  snap_roles : list pyval;
  snap_emojis : list pyval
}.

(** [x if isinstance(x, list) else []], after [if x is None: x = []]. *)
Definition list_or_empty (x : pyval) : list pyval :=
  let x := match x with PNone => PList [] | _ => x end in
  match x with
  | PList l => l
  | _ => []
  end.

Definition guild_or_error (x : pyval) : pyval :=
  match x with
  | PNone => error_doc "no response"
  | _ => x
  end.

Definition guild_endpoint (guild_id : Z) : string :=
  "/guilds/" ++ str_of_Z guild_id ++ "?with_counts=true".
Definition channels_endpoint (guild_id : Z) : string :=
  "/guilds/" ++ str_of_Z guild_id ++ "/channels".
Definition roles_endpoint (guild_id : Z) : string :=
  "/guilds/" ++ str_of_Z guild_id ++ "/roles".
Definition emojis_endpoint (guild_id : Z) : string :=
  "/guilds/" ++ str_of_Z guild_id ++ "/emojis".

(** [APIScraper.scrape_server]; [now] is [datetime.now().isoformat()].
    The result also gives the index of the next request and the sleeps. *)
Definition scrape_server (fuel : nat) (srv : server) (now : string)
    (guild_id : Z) (n : nat) : option (snapshot * nat * list spec_float) :=
  match get fuel srv (guild_endpoint guild_id) n with
  | None => None
  | Some g =>
  match get fuel srv (channels_endpoint guild_id) (next g) with
  | None => None
  | Some c =>
  match get fuel srv (roles_endpoint guild_id) (next c) with
  | None => None
  | Some r =>
  match get fuel srv (emojis_endpoint guild_id) (next r) with
  | None => None
  | Some e =>
      Some (mkSnapshot guild_id now
              (guild_or_error (value g))
              (list_or_empty (value c))
              (list_or_empty (value r))
              (list_or_empty (value e)),
            next e,
            (slept g ++ slept c ++ slept r ++ slept e)%list)
  end end end end.

End Scraper.
Export Scraper.

(** ** The target guild, as discord.py presents it *)

Module Discord.

(** A role, channel, category or emoji of the target: discord.py compares
    and hashes these objects by their id. *)
Record obj : Type := mkObj {
  obj_id : Z;
  obj_name : string
}.

Definition obj_eqb (a b : obj) : bool := obj_id a =? obj_id b.

(** The dict [overwrites_to]: target role to the pair of bitmasks
    [PermissionOverwrite.from_pair(allow, deny)]. *)
Definition overwrites : Type := list (obj * (Z * Z)).

Fixpoint ow_get (m : overwrites) (r : obj) : option (Z * Z) :=
  match m with
  | [] => None
  | (r', v) :: m' => if obj_eqb r r' then Some v else ow_get m' r
  end.

(** [m[r] = v]: an existing key keeps its place, a new key goes last. *)
Fixpoint ow_set (m : overwrites) (r : obj) (v : Z * Z) : overwrites :=
  match m with
  | [] => [(r, v)]
  | (r', v') :: m' =>
      if obj_eqb r r' then (r', v) :: m' else (r', v') :: ow_set m' r v
  end.

Record guild : Type := mkGuild {
  guild_id : Z;
  guild_name : string;
  guild_roles : list obj;
  guild_channels : list obj;
  guild_emojis : list obj;
  default_role : obj;
  (* [guild.me.guild_permissions] *)
  manage_channels : bool;
  manage_roles : bool
}.

(** The mutating calls the program issues on the target. *)
Inductive call : Type :=
| GuildEditName (name : pyval)
| GuildEditIcon (icon : list Byte.byte)
| EmojiDelete (e : obj)
| ChannelDelete (c : obj)
| RoleDelete (r : obj)
| RoleEditPermissions (r : obj) (permissions : Z)
| RoleEditPosition (r : obj) (position : Z)
| CreateRole (name : pyval) (permissions colour : Z) (hoist mentionable : pyval)
| CreateCategory (name : pyval) (ows : overwrites)
| ChannelEditPosition (c : obj) (position : Z)
| ChannelEditTypeNews (c : obj)
| CreateTextChannel (name : pyval) (category : option obj) (ows : overwrites)
    (position : Z) (topic : option pyval) (slowmode_delay : option Z)
    (nsfw : option pyval)
| CreateVoiceChannel (name : pyval) (category : option obj) (ows : overwrites)
    (position bitrate user_limit : Z)
| CreateStageChannel (name : pyval) (category : option obj) (ows : overwrites)
    (position : Z)
| CreateForum (name : pyval) (category : option obj) (ows : overwrites)
    (position : Z) (topic : pyval)
| CreateCustomEmoji (name : pyval) (image : list Byte.byte).

(** The files the program downloads from the content server. *)
Inductive url : Type :=
| EmojiUrl (emoji_id : pyval) (ext : string)
| IconUrl (gid icon_hash : pyval).

(** What the run does that can be observed, most recent first in a trace. *)
Inductive event : Type :=
| Wait                                         (* [rate.wait()] *)
| Api (c : call) (r : result obj)              (* a mutating call, its outcome *)
| Fetch (u : url) (r : result (Z * list Byte.byte))
| LogAdd (msg : string) (name : pyval)
| LogDelete (msg : string) (name : string)
| LogError (msg : string) (name : pyval) (e : option exn)
| Status (operation : string) (completed total errors : nat)
| Notice (lvl : string) (msg : string)         (* [CloneBot.log], icon warning *)
| Prompt (question answer : string).           (* [get_input] *)

(** The two services: each answer may depend on everything that happened
    before.  A successful edit or delete answers with the object itself. *)
Record services : Type := mkServices {
  api : list event -> call -> result obj;
  cdn : list event -> url -> result (Z * list Byte.byte)
}.

Definition is_api (e : event) : bool :=
  match e with Api _ _ => true | _ => false end.

(** The mutating calls of a trace. *)
Definition mutations (tr : list event) : list event := filter is_api tr.

End Discord.
Export Discord.

(** ** The identifier tables [role_map], [cat_map], [chan_map] *)

Module Remap.

(** A Python dict keyed by whatever the source document has under ["id"]. *)
Definition remap : Type := list (pyval * obj).

Definition hashable (k : pyval) : bool :=
  match k with
  | PList _ | PDict _ => false
  | _ => true
  end.

(** A number as a dict key: bools and integral floats are the integer. *)
Definition num_key (k : pyval) : option (Z + spec_float) :=
  match k with
  | PBool b => Some (inl (Z.b2z b))
  | PInt z => Some (inl z)
  | PFloat f =>
      match float_integral f with
      | Some z => Some (inl z)
      | None => Some (inr f)
      end
  | _ => None
  end.

Definition float_same (f g : spec_float) : bool :=
  match f, g with
  | S754_infinity s, S754_infinity t => Bool.eqb s t
  | S754_finite s m e, S754_finite t n d =>
      Bool.eqb s t && Pos.eqb m n && (e =? d)
  | _, _ => false
  end.

(** Equality of two hashable keys: a string is never equal to a number. *)
Definition key_eqb (a b : pyval) : bool :=
  match a, b with
  | PNone, PNone => true
  | PStr s, PStr t => String.eqb s t
  | _, _ =>
      match num_key a, num_key b with
      | Some (inl x), Some (inl y) => x =? y
      | Some (inr f), Some (inr g) => float_same f g
      | _, _ => false
      end
  end.

Fixpoint lookup (m : remap) (k : pyval) : option obj :=
  match m with
  | [] => None
  | (k', v) :: m' => if key_eqb k k' then Some v else lookup m' k
  end.

Fixpoint update (m : remap) (k : pyval) (v : obj) : remap :=
  match m with
  | [] => [(k, v)]
  | (k', v') :: m' =>
      if key_eqb k k' then (k', v) :: m' else (k', v') :: update m' k v
  end.

(** [m.get(k)] *)
Definition remap_get (m : remap) (k : pyval) : result (option obj) :=
  if hashable k then Ok (lookup m k) else Raise TypeError.

(** [m[k] = v] *)
Definition remap_set (m : remap) (k : pyval) (v : obj) : result remap :=
  if hashable k then Ok (update m k v) else Raise TypeError.

End Remap.
Export Remap.

(** ** State of [CloneBot] and [Clone], and the monad of their methods *)

Module Run.

Record state : Type := mkState {
  (* CloneBot *)
  client : option (list guild);     (* the guilds the connected bot sees *)
  target_id : option Z;
  source_id : option Z;
  scraped_data : option snapshot;
  cloner : bool;                    (* [self.cloner] is a [Clone] object *)
  role_map : remap;
  chan_map : remap;
  cat_map : remap;
  (* Clone *)
  current_operation : string;
  completed : nat;
  total : nat;
  errors : nat;
  (* console and history *)
  stdin : list string;              (* the lines still to be typed *)
  trace : list event                (* most recent first *)
}.

Definition set_role_map (m : remap) (s : state) : state :=
  mkState (client s) (target_id s) (source_id s) (scraped_data s) (cloner s)
    m (chan_map s) (cat_map s)
    (current_operation s) (completed s) (total s) (errors s) (stdin s) (trace s).
Definition set_chan_map (m : remap) (s : state) : state :=
  mkState (client s) (target_id s) (source_id s) (scraped_data s) (cloner s)
    (role_map s) m (cat_map s)
    (current_operation s) (completed s) (total s) (errors s) (stdin s) (trace s).
Definition set_cat_map (m : remap) (s : state) : state :=
  mkState (client s) (target_id s) (source_id s) (scraped_data s) (cloner s)
    (role_map s) (chan_map s) m
    (current_operation s) (completed s) (total s) (errors s) (stdin s) (trace s).
Definition set_stats (op : string) (c t e : nat) (s : state) : state :=
  mkState (client s) (target_id s) (source_id s) (scraped_data s) (cloner s)
    (role_map s) (chan_map s) (cat_map s) op c t e (stdin s) (trace s).
Definition set_stdin (l : list string) (s : state) : state :=
  mkState (client s) (target_id s) (source_id s) (scraped_data s) (cloner s)
    (role_map s) (chan_map s) (cat_map s)
    (current_operation s) (completed s) (total s) (errors s) l (trace s).
Definition set_trace (tr : list event) (s : state) : state :=
  mkState (client s) (target_id s) (source_id s) (scraped_data s) (cloner s)
    (role_map s) (chan_map s) (cat_map s)
    (current_operation s) (completed s) (total s) (errors s) (stdin s) tr.

(** A method: from a state to a value or an exception, and the state left. *)
Definition M (A : Type) : Type := state -> result A * state.

Definition ret {A} (a : A) : M A := fun s => (Ok a, s).

Definition bind {A B} (m : M A) (k : A -> M B) : M B :=
  fun s =>
    match m s with
    | (Ok a, s') => k a s'
    | (Raise e, s') => (Raise e, s')
    end.

Definition lift {A} (r : result A) : M A := fun s => (r, s).

Definition read {A} (f : state -> A) : M A := fun s => (Ok (f s), s).

Definition modify (f : state -> state) : M unit := fun s => (Ok tt, f s).

Definition emit (e : event) : M unit :=
  modify (fun s => set_trace (e :: trace s) s).

(** [try: m  except <classes>: ...]: [handler e] is the body of the first
    clause that catches [e], or [None] when no clause does. *)
Definition try_except {A} (m : M A) (handler : exn -> option (M A)) : M A :=
  fun s =>
    match m s with
    | (Ok a, s') => (Ok a, s')
    | (Raise e, s') =>
        match handler e with
        | Some h => h s'
        | None => (Raise e, s')
        end
    end.

Declare Scope run_scope.
Delimit Scope run_scope with run.
Notation "x <- m ;; k" := (bind m (fun x => k))
  (at level 100, m at next level, right associativity) : run_scope.
Notation "m ;; k" := (bind m (fun _ => k))
  (at level 100, right associativity) : run_scope.
Open Scope run_scope.

(** [for x in xs: body] *)
Fixpoint for_each {X} (xs : list X) (body : X -> M unit) : M unit :=
  match xs with
  | [] => ret tt
  | x :: rest => body x ;; for_each rest body
  end.

(** *** [sorted(xs, key=...)] and list comprehensions with a condition *)

Fixpoint map_result {X Y} (f : X -> result Y) (xs : list X) : result (list Y) :=
  match xs with
  | [] => Ok []
  | x :: rest =>
      rbind (f x) (fun y => rbind (map_result f rest) (fun ys => Ok (y :: ys)))
  end.

Fixpoint filter_result {X} (f : X -> result bool) (xs : list X)
  : result (list X) :=
  match xs with
  | [] => Ok []
  | x :: rest =>
      rbind (f x) (fun b =>
      rbind (filter_result f rest) (fun ys => Ok (if b then x :: ys else ys)))
  end.

(** Insertion before the first entry whose key is not smaller. *)
Fixpoint insert_by {X} (k : Z) (x : X) (l : list (Z * X)) : list (Z * X) :=
  match l with
  | [] => [(k, x)]
  | (k', y) :: rest =>
      if k <=? k' then (k, x) :: l else (k', y) :: insert_by k x rest
  end.

(** A stable sort: entries with equal keys keep their order. *)
Definition sort_keyed {X} (l : list (Z * X)) : list (Z * X) :=
  fold_right (fun p acc => insert_by (fst p) (snd p) acc) [] l.

(** [sorted(xs, key=key)]: the keys are computed first, in order. *)
Definition sorted_by {X} (key : X -> result Z) (xs : list X) : result (list X) :=
  rbind (map_result key xs) (fun ks =>
  Ok (map snd (sort_keyed (combine ks xs)))).

(** [for ow in v]: a list gives its items, a dict its keys, a string its
    characters; nothing else is iterable. *)
Fixpoint chars (s : string) : list pyval :=
  match s with
  | EmptyString => []
  | String c r => PStr (String c EmptyString) :: chars r
  end.

Definition py_iter (v : pyval) : result (list pyval) :=
  match v with
  | PList l => Ok l
  | PDict d => Ok (map (fun kv => PStr (fst kv)) d)
  | PStr s => Ok (chars s)
  | _ => Raise TypeError
  end.

End Run.
Export Run.

(** ** [Clone]: the phases *)

Module Clone.
Section WithServices.

Variable env : services.

Definition except_Exception {A} (h : exn -> M A) : exn -> option (M A) :=
  fun e => Some (h e).

(** *** Logging and counters *)

Definition log_add (msg : string) (name : pyval) : M unit :=
  emit (LogAdd msg name).

Definition log_delete (msg : string) (name : string) : M unit :=
  emit (LogDelete msg name).

Definition log_error (msg : string) (name : pyval) (e : option exn) : M unit :=
  emit (LogError msg name e) ;;
  modify (fun s =>
    set_stats (current_operation s) (completed s) (total s) (S (errors s)) s).

Definition print_status : M unit :=
  fun s =>
    emit (Status (current_operation s) (completed s) (total s) (errors s)) s.

Definition reset_stats : M unit :=
  modify (set_stats "idle" 0 0 0).

Definition set_operation (op : string) : M unit :=
  modify (fun s => set_stats op (completed s) (total s) (errors s) s).

Definition set_total (n : nat) : M unit :=
  modify (fun s => set_stats (current_operation s) (completed s) n (errors s) s).

Definition set_completed (n : nat) : M unit :=
  modify (fun s => set_stats (current_operation s) n (total s) (errors s) s).

Definition incr_completed : M unit :=
  modify (fun s =>
    set_stats (current_operation s) (S (completed s)) (total s) (errors s) s).

(** [await self.rate.wait()]: the call is recorded; how long it pauses is a
    matter of the wall clock, which the embedding does not have. *)
Definition rate_wait : M unit := emit Wait.

(** A mutating call on the target: the service answers from the history. *)
Definition request (c : call) : M obj :=
  fun s =>
    let r := api env (trace s) c in
    (r, set_trace (Api c r :: trace s) s).

(** A download from the content server: status and body, or an exception. *)
Definition download (u : url) : M (Z * list Byte.byte) :=
  fun s =>
    let r := cdn env (trace s) u in
    (r, set_trace (Fetch u r :: trace s) s).

Definition register_role (k : pyval) (v : obj) : M unit :=
  m <- read role_map ;;
  m' <- lift (remap_set m k v) ;;
  modify (set_role_map m').

Definition register_cat (k : pyval) (v : obj) : M unit :=
  m <- read cat_map ;;
  m' <- lift (remap_set m k v) ;;
  modify (set_cat_map m').

Definition register_chan (k : pyval) (v : obj) : M unit :=
  m <- read chan_map ;;
  m' <- lift (remap_set m k v) ;;
  modify (set_chan_map m').

(** *** [parse_permission_overwrites] *)

(** [source_id == self.bot.source_id], the latter [None] or an int. *)
Definition is_source (bot_source_id : option Z) (source : Z) : bool :=
  match bot_source_id with
  | Some g => source =? g
  | None => false
  end.

(** One turn of the loop over [overwrites_data]. *)
Definition parse_overwrite (roles : remap) (bot_source_id : option Z)
    (guild_to : guild) (overwrites_to : overwrites) (ow : pyval)
  : result overwrites :=
  rbind (py_get ow "type" (PInt 0)) (fun ow_type =>
  rbind (py_get ow "id" PNone) (fun id =>
  rbind (safe_int id 0) (fun source =>
  rbind (py_get ow "allow" PNone) (fun allow =>
  rbind (safe_int allow 0) (fun allow_val =>
  rbind (py_get ow "deny" PNone) (fun deny =>
  rbind (safe_int deny 0) (fun deny_val =>
  if eq_int ow_type 0 then
    rbind (remap_get roles (PInt source)) (fun found =>
    let target_role :=
      match found with
      | Some r => Some r
      | None =>
          if is_source bot_source_id source
          then Some (default_role guild_to) else None
      end in
    match target_role with
    | Some r => Ok (ow_set overwrites_to r (allow_val, deny_val))
    | None => Ok overwrites_to
    end)
  else Ok overwrites_to))))))).

Fixpoint parse_loop (roles : remap) (bot_source_id : option Z)
    (guild_to : guild) (overwrites_to : overwrites) (items : list pyval)
  : result overwrites :=
  match items with
  | [] => Ok overwrites_to
  | ow :: rest =>
      rbind (parse_overwrite roles bot_source_id guild_to overwrites_to ow)
        (fun acc => parse_loop roles bot_source_id guild_to acc rest)
  end.

(** The method as a function of the two fields of the bot it reads. *)
Definition translate (roles : remap) (bot_source_id : option Z)
    (overwrites_data : pyval) (guild_to : guild) : result overwrites :=
  rbind (py_iter overwrites_data) (fun items =>
  parse_loop roles bot_source_id guild_to [] items).

Definition parse_permission_overwrites (overwrites_data : pyval)
    (guild_to : guild) : M overwrites :=
  roles <- read role_map ;;
  sid <- read source_id ;;
  lift (translate roles sid overwrites_data guild_to).

(** *** Deletion phases *)

Definition roles_delete (guild_to : guild) : M unit :=
  set_operation "Deleting Roles" ;;
  let roles :=
    filter (fun r => negb (String.eqb (obj_name r) "@everyone"))
           (guild_roles guild_to) in
  set_total (List.length roles) ;;
  set_completed 0 ;;
  for_each roles (fun role =>
    rate_wait ;;
    try_except
      (request (RoleDelete role) ;;
       log_delete "deleted role: " (obj_name role))
      (fun e =>
         match e with
         | Forbidden =>
             Some (log_error "forbidden: " (PStr (obj_name role)) None)
         | HTTPException =>
             Some (log_error "http error: " (PStr (obj_name role)) None)
         | _ => None
         end) ;;
    incr_completed) ;;
  print_status.

Definition channels_delete (guild_to : guild) : M unit :=
  set_operation "Deleting Channels" ;;
  let channels := guild_channels guild_to in
  set_total (List.length channels) ;;
  set_completed 0 ;;
  for_each channels (fun channel =>
    rate_wait ;;
    try_except
      (request (ChannelDelete channel) ;;
       log_delete "deleted channel: " (obj_name channel))
      (fun e =>
         match e with
         | Forbidden =>
             Some (log_error "forbidden: " (PStr (obj_name channel)) None)
         | HTTPException =>
             Some (log_error "http error: " (PStr (obj_name channel)) None)
         | _ => None
         end) ;;
    incr_completed) ;;
  print_status.

Definition emojis_delete (guild_to : guild) : M unit :=
  set_operation "Deleting Emojis" ;;
  let emojis := guild_emojis guild_to in
  set_total (List.length emojis) ;;
  set_completed 0 ;;
  match emojis with
  | [] => ret tt
  | _ =>
      for_each emojis (fun emoji =>
        rate_wait ;;
        try_except
          (request (EmojiDelete emoji) ;;
           log_delete "deleted emoji: " (obj_name emoji))
          (fun e =>
             match e with
             | Forbidden =>
                 Some (log_error "forbidden: " (PStr (obj_name emoji)) None)
             | HTTPException =>
                 Some (log_error "http error: " (PStr (obj_name emoji)) None)
             | _ => None
             end) ;;
        incr_completed) ;;
      print_status
  end.

(** *** Roles *)

(** [x.lower() == "true"] when [x] is a string, [x] itself otherwise. *)
Definition flag (x : pyval) : pyval :=
  match x with
  | PStr s => PBool (String.eqb (lower s) "true")
  | _ => x
  end.

(** The position key of [sorted] in [roles_create]. *)
Definition role_position (r : pyval) : result Z :=
  rbind (py_get r "position" (PInt 0)) (fun p => safe_int p 0).

(** The position key of [sorted] for channels and categories. *)
Definition channel_position (c : pyval) : result Z :=
  rbind (py_get c "position" PNone) (fun p => safe_int p 0).

Definition reorder_roles (guild_to : guild) (roles_data : list pyval) : M unit :=
  set_operation "Reordering Roles" ;;
  for_each roles_data (fun role_data =>
    source <- lift (py_get role_data "id" PNone) ;;
    m <- read role_map ;;
    target_role <- lift (remap_get m source) ;;
    match target_role with
    | None => ret tt
    | Some r =>
        if String.eqb (obj_name r) "@everyone" then ret tt
        else
          try_except
            (p <- lift (py_get role_data "position" PNone) ;;
             position <- lift (safe_int p 0) ;;
             request (RoleEditPosition r position) ;;
             ret tt)
            (except_Exception (fun _ => ret tt))
    end).

Definition roles_create (guild_to : guild) (roles_data : list pyval) : M unit :=
  set_operation "Creating Roles" ;;
  set_total (List.length roles_data) ;;
  set_completed 0 ;;
  roles_data <- lift (sorted_by role_position roles_data) ;;
  for_each roles_data (fun role_data =>
    rate_wait ;;
    name <- lift (py_get role_data "name" (PStr "unnamed")) ;;
    if eq_str name "@everyone" then
      try_except
        (p <- lift (py_get role_data "permissions" PNone) ;;
         perms_val <- lift (safe_int p 0) ;;
         let everyone_role := default_role guild_to in
         request (RoleEditPermissions everyone_role perms_val) ;;
         id <- lift (py_get role_data "id" PNone) ;;
         register_role id everyone_role ;;
         log_add "updated @everyone permissions" PNone)
        (except_Exception (fun e => log_error "everyone error: " PNone (Some e))) ;;
      incr_completed
    else
      try_except
        (p <- lift (py_get role_data "permissions" PNone) ;;
         perms_val <- lift (safe_int p 0) ;;
         c <- lift (py_get role_data "color" PNone) ;;
         color_val <- lift (safe_int c 0) ;;
         let color := if color_val =? 0 then 0 else color_val in
         h <- lift (py_get role_data "hoist" (PBool false)) ;;
         let hoist := flag h in
         mt <- lift (py_get role_data "mentionable" (PBool false)) ;;
         let mentionable := flag mt in
         new_role <- request (CreateRole name perms_val color hoist mentionable) ;;
         id <- lift (py_get role_data "id" PNone) ;;
         register_role id new_role ;;
         log_add "created role: " name)
        (fun e =>
           match e with
           | Forbidden => Some (log_error "forbidden: " name None)
           | HTTPException => Some (log_error "http error: " name None)
           | _ => Some (log_error "error: " PNone (Some e))
           end) ;;
      incr_completed) ;;
  print_status ;;
  reorder_roles guild_to roles_data.

(** *** Categories *)

Definition is_category (c : pyval) : result bool :=
  rbind (py_get c "type" PNone) (fun t => Ok (eq_int t 4)).

Definition is_not_category (c : pyval) : result bool :=
  rbind (py_get c "type" PNone) (fun t => Ok (negb (eq_int t 4))).

Definition categories_create (guild_to : guild) (channels_data : list pyval)
  : M unit :=
  set_operation "Creating Categories" ;;
  cats_data <- lift (filter_result is_category channels_data) ;;
  cats_data <- lift (sorted_by channel_position cats_data) ;;
  set_total (List.length cats_data) ;;
  set_completed 0 ;;
  match cats_data with
  | [] => ret tt
  | _ =>
      for_each cats_data (fun cat_data =>
        rate_wait ;;
        name <- lift (py_get cat_data "name" (PStr "unnamed")) ;;
        try_except
          (ows <- lift (py_get cat_data "permission_overwrites" (PList [])) ;;
           overwrites_to <- parse_permission_overwrites ows guild_to ;;
           new_cat <- request (CreateCategory name overwrites_to) ;;
           p <- lift (py_get cat_data "position" PNone) ;;
           pos <- lift (safe_int p 0) ;;
           request (ChannelEditPosition new_cat pos) ;;
           id <- lift (py_get cat_data "id" PNone) ;;
           register_cat id new_cat ;;
           log_add "created category: " name)
          (fun e =>
             match e with
             | Forbidden => Some (log_error "forbidden: " name None)
             | HTTPException => Some (log_error "http error: " name (Some e))
             | _ => None
             end) ;;
        incr_completed) ;;
      print_status
  end.

(** *** Channels *)

(** [category = self.bot.cat_map.get(parent_id) if parent_id else None] *)
Definition resolve_category (cats : remap) (parent_id : pyval)
  : result (option obj) :=
  if truthy parent_id then remap_get cats parent_id else Ok None.

(** [x if isinstance(x, bool) else False] *)
Definition bool_or_false (x : pyval) : pyval :=
  match x with
  | PBool _ => x
  | _ => PBool false
  end.

(** The creation call of one channel, by its type code, between
    [try:] and the registration in [chan_map]. *)
Definition create_channel (ch_data name : pyval) (chan_type : Z)
    (category : option obj) (overwrites_to : overwrites) (pos : Z)
  : M (obj * string) :=
  if chan_type =? 0 then
    topic <- lift (py_get ch_data "topic" PNone) ;;
    r <- lift (py_get ch_data "rate_limit_per_user" PNone) ;;
    slow <- lift (safe_int r 0) ;;
    n <- lift (py_get ch_data "nsfw" PNone) ;;
    new_chan <- request (CreateTextChannel name category overwrites_to pos
                           (Some topic) (Some slow) (Some (bool_or_false n))) ;;
    ret (new_chan, "created text: ")
  else if chan_type =? 2 then
    b <- lift (py_get ch_data "bitrate" PNone) ;;
    bitrate <- lift (safe_int b 64000) ;;
    u <- lift (py_get ch_data "user_limit" PNone) ;;
    user_limit <- lift (safe_int u 0) ;;
    new_chan <- request (CreateVoiceChannel name category overwrites_to pos
                           bitrate user_limit) ;;
    ret (new_chan, "created voice: ")
  else if chan_type =? 5 then
    topic <- lift (py_get ch_data "topic" PNone) ;;
    new_chan <- request (CreateTextChannel name category overwrites_to pos
                           (Some topic) None None) ;;
    try_except
      (request (ChannelEditTypeNews new_chan) ;; ret tt)
      (except_Exception (fun _ => ret tt)) ;;
    ret (new_chan, "created news: ")
  else if chan_type =? 13 then
    new_chan <- request (CreateStageChannel name category overwrites_to pos) ;;
    ret (new_chan, "created stage: ")
  else if chan_type =? 15 then
    topic <- lift (py_get ch_data "topic" PNone) ;;
    new_chan <- request (CreateForum name category overwrites_to pos topic) ;;
    ret (new_chan, "created forum: ")
  else
    new_chan <- request (CreateTextChannel name category overwrites_to pos
                           None None None) ;;
    ret (new_chan, "created channel: ").

(** The body of the loop of [channels_create] for one channel. *)
Definition channel_item (guild_to : guild) (ch_data : pyval) : M unit :=
  rate_wait ;;
  name <- lift (py_get ch_data "name" (PStr "unnamed")) ;;
  t <- lift (py_get ch_data "type" PNone) ;;
  chan_type <- lift (safe_int t 0) ;;
  parent_id <- lift (py_get ch_data "parent_id" PNone) ;;
  cats <- read cat_map ;;
  category <- lift (resolve_category cats parent_id) ;;
  ows <- lift (py_get ch_data "permission_overwrites" (PList [])) ;;
  overwrites_to <- parse_permission_overwrites ows guild_to ;;
  try_except
    (p <- lift (py_get ch_data "position" PNone) ;;
     pos <- lift (safe_int p 0) ;;
     made <- create_channel ch_data name chan_type category overwrites_to pos ;;
     id <- lift (py_get ch_data "id" PNone) ;;
     register_chan id (fst made) ;;
     log_add (snd made) name)
    (fun e =>
       match e with
       | Forbidden => Some (log_error "forbidden: " name None)
       | HTTPException => Some (log_error "http error: " name (Some e))
       | _ => Some (log_error "error: " PNone (Some e))
       end) ;;
  incr_completed.

Definition channels_create (guild_to : guild) (channels_data : list pyval)
  : M unit :=
  set_operation "Creating Channels" ;;
  chans_data <- lift (filter_result is_not_category channels_data) ;;
  chans_data <- lift (sorted_by channel_position chans_data) ;;
  set_total (List.length chans_data) ;;
  set_completed 0 ;;
  match chans_data with
  | [] => ret tt
  | _ =>
      for_each chans_data (channel_item guild_to) ;;
      print_status
  end.

(** *** Emojis and guild settings *)

Definition emojis_create (guild_to : guild) (emojis_data : list pyval) : M unit :=
  set_operation "Creating Emojis" ;;
  set_total (List.length emojis_data) ;;
  set_completed 0 ;;
  match emojis_data with
  | [] => ret tt
  | _ =>
      for_each emojis_data (fun emoji_data =>
        rate_wait ;;
        name <- lift (py_get emoji_data "name" (PStr "unnamed")) ;;
        a <- lift (py_get emoji_data "animated" (PBool false)) ;;
        let animated := flag a in
        emoji_id <- lift (py_get emoji_data "id" PNone) ;;
        if negb (truthy emoji_id) then
          log_error "no emoji id for: " name None ;;
          incr_completed
        else
          try_except
            (let ext := if truthy animated then "gif" else "png" in
             resp <- download (EmojiUrl emoji_id ext) ;;
             if fst resp =? 200 then
               request (CreateCustomEmoji name (snd resp)) ;;
               log_add "created emoji: " name
             else
               log_error "download failed: " name None)
            (fun e =>
               match e with
               | Forbidden => Some (log_error "forbidden: " name None)
               | HTTPException => Some (log_error "http error: " name (Some e))
               | _ => Some (log_error "error: " PNone (Some e))
               end) ;;
          incr_completed) ;;
      print_status
  end.

Definition guild_edit (guild_to : guild) (guild_data : pyval) : M unit :=
  set_operation "Updating Guild" ;;
  try_except
    (name <- lift (py_get guild_data "name" (PStr "unnamed")) ;;
     request (GuildEditName name) ;;
     log_add "renamed guild to: " name ;;
     icon_hash <- lift (py_get guild_data "icon" PNone) ;;
     if truthy icon_hash then
       try_except
         (gid <- lift (py_get guild_data "id" (PStr "0")) ;;
          resp <- download (IconUrl gid icon_hash) ;;
          if fst resp =? 200 then
            request (GuildEditIcon (snd resp)) ;;
            log_add "changed guild icon" PNone
          else ret tt)
         (except_Exception (fun _ => emit (Notice "warn" "icon failed")))
     else ret tt)
    (fun e =>
       match e with
       | Forbidden => Some (log_error "forbidden to edit guild" PNone None)
       | _ => None
       end).

End WithServices.
End Clone.
Export Clone.

(** ** [CloneBot]: the entry points of the menu *)

Module CloneBot.
Section WithServices.

Variable env : services.

(** [CloneBot.log] *)
Definition log (msg lvl : string) : M unit := emit (Notice lvl msg).

(** [input()]: the next line typed, [EOFError] when there is none. *)
Definition input : M string :=
  fun s =>
    match stdin s with
    | [] => (Raise EOFError, s)
    | line :: rest => (Ok line, set_stdin rest s)
    end.

(** [get_input]: the line typed, without the white space around it. *)
Definition get_input (prompt : string) : M string :=
  line <- input ;;
  emit (Prompt prompt line) ;;
  ret (strip line).

(** [self.client.get_guild(id)] *)
Definition get_guild (guilds : list guild) (id : Z) : option guild :=
  find (fun g => guild_id g =? id) guilds.

Definition check_target : M (option guild) :=
  c <- read client ;;
  match c with
  | None => log "no bot" "err" ;; ret None
  | Some guilds =>
      t <- read target_id ;;
      match t with
      | None => log "no target set" "err" ;; ret None
      | Some id =>
          if id =? 0 then log "no target set" "err" ;; ret None
          else
            match get_guild guilds id with
            | None => log "bot not in target server" "err" ;; ret None
            | Some target =>
                if negb (manage_channels target) || negb (manage_roles target)
                then log "bot needs manage_channels and manage_roles" "err" ;;
                     ret None
                else ret (Some target)
            end
      end
  end.

(** [self.cloner.reset_stats()]: [self.cloner] may still be [None]. *)
Definition cloner_reset_stats : M unit :=
  c <- read cloner ;;
  if c then reset_stats else lift (Raise AttributeError).

(** [isinstance(guild, dict) and "name" in guild] *)
Definition has_name (guild : pyval) : bool :=
  match guild with
  | PDict d => has_key "name" d
  | _ => false
  end.

Definition do_full_clone : M unit :=
  sd <- read scraped_data ;;
  match sd with
  | None => log "no scraped data" "err"
  | Some data =>
      target <- check_target ;;
      match target with
      | None => ret tt
      | Some target =>
          let guild := snap_guild data in
          if negb (has_name guild) then log "invalid source data" "err"
          else
            answer <- get_input "type 'clone' to proceed: " ;;
            if negb (String.eqb answer "clone") then ret tt
            else
              modify (set_role_map []) ;;
              modify (set_cat_map []) ;;
              modify (set_chan_map []) ;;
              (* Phase 1: Guild Settings *)
              cloner_reset_stats ;;
              guild_edit env target guild ;;
              (* Phase 2: Cleanup *)
              cloner_reset_stats ;;
              emojis_delete env target ;;
              cloner_reset_stats ;;
              channels_delete env target ;;
              cloner_reset_stats ;;
              roles_delete env target ;;
              (* Phase 3: Creating Roles *)
              cloner_reset_stats ;;
              roles_create env target (snap_roles data) ;;
              (* Phase 4: Creating Structure *)
              cloner_reset_stats ;;
              categories_create env target (snap_channels data) ;;
              cloner_reset_stats ;;
              channels_create env target (snap_channels data) ;;
              (* Phase 5: Creating Emojis *)
              cloner_reset_stats ;;
              emojis_create env target (snap_emojis data) ;;
              input ;;
              ret tt
      end
  end.

Definition do_delete_roles : M unit :=
  target <- check_target ;;
  match target with
  | None => ret tt
  | Some target =>
      answer <- get_input "type 'delete' to confirm: " ;;
      if negb (String.eqb answer "delete") then ret tt
      else
        cloner_reset_stats ;;
        roles_delete env target ;;
        input ;;
        ret tt
  end.

Definition do_delete_channels : M unit :=
  target <- check_target ;;
  match target with
  | None => ret tt
  | Some target =>
      answer <- get_input "type 'delete' to confirm: " ;;
      if negb (String.eqb answer "delete") then ret tt
      else
        cloner_reset_stats ;;
        channels_delete env target ;;
        input ;;
        ret tt
  end.

End WithServices.
End CloneBot.
Export CloneBot.

(** ** Vocabulary of the statements *)

Module Terms.

(** The sleep before the retry that an answer causes, when it causes one:
    a 429 whose [Retry-After] is absent or a number. *)
Definition retry_delay (a : response) : option spec_float :=
  match a with
  | Reply status hdr _ =>
      if status =? 429 then
        match hdr with
        | NoHeader => Some five
        | Seconds f => Some f
        | BadHeader => None
        end
      else None
  | Refused _ => None
  end.

Definition delay_or_five (a : response) : spec_float :=
  match retry_delay a with Some d => d | None => five end.

(** From request [n] on, the endpoint answers [k] times with a 429 that is
    retried and then with something else. *)
Definition settles (srv : server) (endpoint : string) (n k : nat) : Prop :=
  (forall i, (i < k)%nat -> retry_delay (srv (n + i)%nat endpoint) <> None)
  /\ retry_delay (srv (n + k)%nat endpoint) = None.

(** The sleeps of the [k] retries, in order. *)
Definition delays (srv : server) (endpoint : string) (n k : nat)
  : list spec_float :=
  map (fun i => delay_or_five (srv (n + i)%nat endpoint)) (seq 0 k).

(** A call of [get] returns, at some depth of recursion. *)
Definition completes (srv : server) (endpoint : string) (n : nat) : Prop :=
  exists fuel r, get fuel srv endpoint n = Some r.

(** The fetch did not produce a decoded 200 document. *)
Definition failed (a : response) : bool :=
  match a with
  | Reply status _ (Ok _) => negb (status =? 200)
  | _ => true
  end.

(** What the snapshot keeps of a sub-resource, given the last answer. *)
Definition kept_list (a : response) (field : list pyval) : Prop :=
  (failed a = true -> field = [])
  /\ (forall hdr l, a = Reply 200 hdr (Ok (PList l)) -> field = l).

(** What the snapshot keeps of the guild document, given the last answer. *)
Definition kept_guild (a : response) (field : pyval) : Prop :=
  (failed a = true ->
   exists msg rest, field = PDict (("error", PStr msg) :: rest))
  /\ (forall hdr, a = Reply 200 hdr (Ok PNone) -> field = error_doc "no response")
  /\ (forall hdr doc, a = Reply 200 hdr (Ok doc) -> doc <> PNone -> field = doc).

(** *** Overwrites *)

(** The overwrite is of group kind: its type, 0 when absent, equals 0. *)
Definition group_kind (ow : pyval) : Prop :=
  exists t, py_get ow "type" (PInt 0) = Ok t /\ eq_int t 0 = true.

(** [safe_int(ow.get(field), 0)] *)
Definition int_field (ow : pyval) (field : string) : result Z :=
  rbind (py_get ow field PNone) (fun x => safe_int x 0).

(** The source id of the overwrite resolves to the target role [r]: it is
    found in the role table or, when it is not, it is the recorded id of the
    source guild and [r] is the default role of the target. *)
Definition resolves (roles : remap) (bot_source_id : option Z)
    (guild_to : guild) (ow : pyval) (r : obj) : Prop :=
  exists source,
    int_field ow "id" = Ok source
    /\ (lookup roles (PInt source) = Some r
        \/ (lookup roles (PInt source) = None
            /\ bot_source_id = Some source
            /\ r = default_role guild_to)).

(** The overwrite accounts for the entry [r : v] of the result. *)
Definition emits (roles : remap) (bot_source_id : option Z)
    (guild_to : guild) (ow : pyval) (r : obj) (v : Z * Z) : Prop :=
  group_kind ow
  /\ resolves roles bot_source_id guild_to ow r
  /\ int_field ow "allow" = Ok (fst v)
  /\ int_field ow "deny" = Ok (snd v).

(** *** Channels *)

(** The [category] argument of a call that creates a channel. *)
Definition category_of (c : call) : option (option obj) :=
  match c with
  | CreateTextChannel _ category _ _ _ _ _ => Some category
  | CreateVoiceChannel _ category _ _ _ _ => Some category
  | CreateStageChannel _ category _ _ => Some category
  | CreateForum _ category _ _ _ => Some category
  | _ => None
  end.

(** The container a parent id stands for in the table: none when the id is
    falsy (null, empty, zero) or has no entry. *)
Definition parent_of (cats : remap) (parent_id : pyval) : option obj :=
  if truthy parent_id then lookup cats parent_id else None.

(** The numeric fields of a channel are read by [safe_int] without error,
    and its overwrites are translated without error. *)
Definition readable (ch_data : pyval) (s : state) (guild_to : guild) : Prop :=
  (forall field, exists z, int_field ch_data field = Ok z)
  /\ exists ows o,
       py_get ch_data "permission_overwrites" (PList []) = Ok ows
       /\ translate (role_map s) (source_id s) ows guild_to = Ok o.

(** Of the mutating calls, the event is one that creates a channel under
    [category], or the change of a created channel into a news channel. *)
Definition under_category (category : option obj) (e : event) : Prop :=
  forall c res, e = Api c res ->
    category_of c = Some category \/ exists ch, c = ChannelEditTypeNews ch.

(** *** Relating the state before and after a method *)

(** Whatever the outcome, [m] takes a state to one related to it by [R]. *)
Definition preserves (R : state -> state -> Prop) {A} (m : M A) : Prop :=
  forall s, R s (snd (m s)).

(** The later state has only appended events that satisfy [P]. *)
Definition appended (P : event -> Prop) (s s' : state) : Prop :=
  exists new, trace s' = new ++ trace s /\ Forall P new.

(** Nothing that matters to the target happened between the two states: no
    mutating call, and the three tables are as they were. *)
Definition untouched (s s' : state) : Prop :=
  mutations (trace s') = mutations (trace s)
  /\ role_map s' = role_map s
  /\ cat_map s' = cat_map s
  /\ chan_map s' = chan_map s.

(** *** Entry points *)

(** The precondition of a run: the bot is connected, a target is set, the
    bot sees that guild and holds both permissions in it. *)
Definition target_ready (s : state) (g : guild) : Prop :=
  exists guilds id,
    client s = Some guilds
    /\ target_id s = Some id
    /\ id <> 0
    /\ get_guild guilds id = Some g
    /\ manage_channels g = true
    /\ manage_roles g = true.

(** The next line typed, without the white space around it, is [word]. *)
Definition confirms (s : state) (word : string) : Prop :=
  exists line rest, stdin s = line :: rest /\ strip line = word.

(** The state with one more line in the log of the bot. *)
Definition noticed (lvl msg : string) (s : state) : state :=
  set_trace (Notice lvl msg :: trace s) s.

(** *** Failures inside a phase *)

(** The target service fails only with the two exceptions of the API
    client. *)
Definition http_only (env : services) : Prop :=
  forall history c e,
    api env history c = Raise e -> e = Forbidden \/ e = HTTPException.

Definition is_log_error (e : event) : bool :=
  match e with LogError _ _ _ => true | _ => false end.

(** The number of error lines among the events. *)
Definition count_errors (events : list event) : nat :=
  List.length (filter is_log_error events).

(** The edits made on a best effort, whose failure is passed over. *)
Definition best_effort (c : call) : bool :=
  match c with
  | RoleEditPosition _ _ | ChannelEditTypeNews _ => true
  | _ => false
  end.

(** In a trace, most recent event first: every failed call that is not a
    best-effort edit has an error line right after it.  [followed] tells
    whether the event after the head of the trace is an error line. *)
Fixpoint logged_from (followed : bool) (tr : list event) : bool :=
  match tr with
  | [] => true
  | e :: older =>
      match e with
      | Api c (Raise _) => best_effort c || followed
      | _ => true
      end
      && logged_from (is_log_error e) older
  end.

Definition logged (tr : list event) : bool := logged_from false tr.

(** What one turn of a loop achieves: it returns normally, the item is
    counted, every error line written is counted as an error, and every
    failed call has its error line. *)
Definition accounted (s : state) (r : result unit * state) : Prop :=
  exists s' new,
    r = (Ok tt, s')
    /\ trace s' = new ++ trace s
    /\ completed s' = S (completed s)
    /\ total s' = total s
    /\ errors s' = (errors s + count_errors new)%nat
    /\ logged new = true.

(** The phase [m] over [n] items runs to its end from any state: it
    returns normally, it has gone through all the items, the error counter
    has grown by the number of error lines written, and every failed call
    has its error line. *)
Definition completes_phase (m : M unit) (n : nat) : Prop :=
  forall s, exists s' new,
    m s = (Ok tt, s')
    /\ trace s' = new ++ trace s
    /\ completed s' = n
    /\ total s' = n
    /\ errors s' = (errors s + count_errors new)%nat
    /\ logged new = true.

(** The value of a field of a document, [dflt] when it is absent. *)
Definition field (v : pyval) (k : string) (dflt : pyval) : pyval :=
  match py_get v k dflt with
  | Ok x => x
  | Raise _ => dflt
  end.

Definition is_dict (v : pyval) : Prop := exists d, v = PDict d.

(** A list of overwrites that [parse_permission_overwrites] reads without
    error: a list of documents whose numeric fields [safe_int] accepts. *)
Definition overwrites_ok (v : pyval) : Prop :=
  exists items,
    v = PList items
    /\ Forall (fun ow => forall k, exists z, int_field ow k = Ok z) items.

(** A role of the source as the roles phase needs it: a document with a
    position [safe_int] accepts and an id that can be a key. *)
Definition role_ok (r : pyval) : Prop :=
  is_dict r
  /\ (exists z, role_position r = Ok z)
  /\ hashable (field r "id" PNone) = true.

(** A channel or category of the source as the structure phases need it. *)
Definition channel_ok (c : pyval) : Prop :=
  (forall k, exists z, int_field c k = Ok z)
  /\ hashable (field c "id" PNone) = true
  /\ (truthy (field c "parent_id" PNone) = false
      \/ hashable (field c "parent_id" PNone) = true)
  /\ overwrites_ok (field c "permission_overwrites" (PList [])).

(** The categories among the channels of the source. *)
Definition categories_of (channels_data : list pyval) : list pyval :=
  filter (fun c => eq_int (field c "type" PNone) 4) channels_data.

Definition leaves_of (channels_data : list pyval) : list pyval :=
  filter (fun c => negb (eq_int (field c "type" PNone) 4)) channels_data.

(** The roles of the target that the wipe deletes. *)
Definition deletable_roles (g : guild) : list obj :=
  filter (fun r => negb (String.eqb (obj_name r) "@everyone")) (guild_roles g).

(** *** What the tables hold *)

(** A table after the registrations of a ledger, oldest first. *)
Definition replay (m : remap) (ledger : list (pyval * obj)) : remap :=
  fold_left (fun acc kv => update acc (fst kv) (snd kv)) ledger m.

(** The object that a successful call of the roles phase gives to register:
    the role created, or the default role of the target once its permissions
    were edited. *)
Definition role_handle (g : guild) (e : event) : option obj :=
  match e with
  | Api (CreateRole _ _ _ _ _) (Ok h) => Some h
  | Api (RoleEditPermissions _ _) (Ok _) => Some (default_role g)
  | _ => None
  end.

(** The channel that a successful creation call of the channels phase
    returned. *)
Definition channel_handle (e : event) : option obj :=
  match e with
  | Api c (Ok h) => match category_of c with Some _ => Some h | None => None end
  | _ => None
  end.

(** The category that a successful creation call returned. *)
Definition category_handle (e : event) : option obj :=
  match e with
  | Api (CreateCategory _ _) (Ok h) => Some h
  | _ => None
  end.

(** The objects to register that the events of a trace gave, oldest
    first. *)
Definition handles (handle_of : event -> option obj) (tr : list event)
  : list obj :=
  flat_map (fun e => match handle_of e with Some h => [h] | None => [] end)
           (rev tr).

(** Between the two states the table [tbl] has received exactly one
    registration for each object that the events in between gave, in their
    order, each under one of the [ids]. *)
Definition registered (tbl : state -> remap) (handle_of : event -> option obj)
    (ids : list pyval) (s s' : state) : Prop :=
  exists new ledger,
    trace s' = new ++ trace s
    /\ tbl s' = replay (tbl s) ledger
    /\ map snd ledger = handles handle_of new
    /\ incl (map fst ledger) ids.

(** The same with "at most" for "exactly": every registration is that of an
    object the events gave. *)
Definition registered_among (tbl : state -> remap)
    (handle_of : event -> option obj) (ids : list pyval) (s s' : state) : Prop :=
  exists new ledger,
    trace s' = new ++ trace s
    /\ tbl s' = replay (tbl s) ledger
    /\ incl (map snd ledger) (handles handle_of new)
    /\ incl (map fst ledger) ids.

(** A document with an id that can be a key. *)
Definition keyed (x : pyval) : Prop :=
  is_dict x /\ hashable (field x "id" PNone) = true.

Definition ids_of (xs : list pyval) : list pyval :=
  map (fun x => field x "id" PNone) xs.

End Terms.
Export Terms.

(** ** Sample data *)

Module Samples.

Definition everyone : obj := mkObj 2 "@everyone".
Definition mods : obj := mkObj 20 "mods".
Definition lobby : obj := mkObj 30 "lobby".

Definition target_guild : guild :=
  mkGuild 2 "target" [everyone; mods] [lobby] [] everyone true true.

(** A bot connected to [target_guild], with nothing scraped or typed. *)
Definition idle : state :=
  mkState (Some [target_guild]) (Some 2) (Some 1) None true
    [] [] [] "idle" 0 0 0 [] [].

(** A service that accepts every call and names what it creates by the
    number of events so far. *)
Definition accepting : services :=
  mkServices
    (fun history c =>
       match c with
       | RoleDelete r | RoleEditPermissions r _ | RoleEditPosition r _ => Ok r
       | EmojiDelete r | ChannelDelete r | ChannelEditPosition r _
       | ChannelEditTypeNews r => Ok r
       | _ => Ok (mkObj (100 + Z.of_nat (List.length history)) "new")
       end)
    (fun _ _ => Ok (200, [])).

(** Overwrites of the source guild 1: one for its default role, one for a
    member, one for a role registered under the string ["100"]. *)
Definition sample_overwrites : pyval :=
  PList
    [ PDict [("id", PStr "1"); ("type", PInt 0);
             ("allow", PStr "1024"); ("deny", PStr "2048")];
      PDict [("id", PStr "5"); ("type", PInt 1);
             ("allow", PStr "8"); ("deny", PStr "0")];
      PDict [("id", PStr "100"); ("type", PInt 0);
             ("allow", PStr "16"); ("deny", PStr "0")] ].

Definition with_roles (m : remap) : state := set_role_map m idle.

Definition with_cats (m : remap) : state := set_cat_map m idle.

(** A category and a text channel below it, as the source lists them. *)
Definition category_and_channel (cat_id : pyval) : list pyval :=
  [ PDict [("id", PStr "7"); ("type", PInt 0); ("name", PStr "general");
           ("parent_id", cat_id); ("position", PInt 0);
           ("permission_overwrites", PList [])];
    PDict [("id", cat_id); ("type", PInt 4); ("name", PStr "Lounge");
           ("position", PInt 0); ("permission_overwrites", PList [])] ].

Definition general_channel (cat_id : pyval) : pyval :=
  hd PNone (category_and_channel cat_id).

(** The snapshot of a small source guild 1. *)
Definition sample_snapshot : snapshot :=
  mkSnapshot 1 "t"
    (PDict [("id", PStr "1"); ("name", PStr "src")])
    (category_and_channel (PStr "10"))
    [ PDict [("id", PStr "1"); ("name", PStr "@everyone"); ("position", PInt 0);
             ("permissions", PStr "1024")];
      PDict [("id", PStr "100"); ("name", PStr "mods"); ("position", PInt 1);
             ("permissions", PStr "8")] ]
    [].

(** The bot of [idle] with the snapshot loaded, some tables left from an
    earlier run, and the given lines about to be typed. *)
Definition loaded (lines : list string) : state :=
  mkState (Some [target_guild]) (Some 2) (Some 1) (Some sample_snapshot) true
    [(PStr "100", mods)] [] [(PStr "10", lobby)] "idle" 0 0 0 lines [].

(** The same bot in a guild where it may not manage roles. *)
Definition restricted_guild : guild :=
  mkGuild 2 "target" [everyone; mods] [lobby] [] everyone true false.

Definition restricted (lines : list string) : state :=
  mkState (Some [restricted_guild]) (Some 2) (Some 1) (Some sample_snapshot) true
    [(PStr "100", mods)] [] [(PStr "10", lobby)] "idle" 0 0 0 lines [].

Definition guests : obj := mkObj 21 "guests".

(** A target with two roles to delete. *)
Definition crowded_guild : guild :=
  mkGuild 2 "target" [everyone; mods; guests] [lobby] [] everyone true true.

(** A service that refuses every call with [Forbidden]. *)
Definition refusing : services :=
  mkServices (fun _ _ => Raise Forbidden) (fun _ _ => Ok (200, [])).

(** A service whose connection drops on every call. *)
Definition dropping : services :=
  mkServices (fun _ _ => Raise (ClientError "connection reset"))
             (fun _ _ => Ok (200, [])).

(** A service that accepts every call except the change of the position
    of a channel or category, which it answers with an HTTP error. *)
Definition position_rejecting : services :=
  mkServices
    (fun history c =>
       match c with
       | ChannelEditPosition _ _ => Raise HTTPException
       | _ => api accepting history c
       end)
    (cdn accepting).

(** A service that answers the change of the guild with an HTTP error. *)
Definition rename_rejecting : services :=
  mkServices
    (fun history c =>
       match c with
       | GuildEditName _ => Raise HTTPException
       | _ => api accepting history c
       end)
    (cdn accepting).

(** *** The scenarios of the specification *)

Definition role_doc (id name : string) (position : Z) : pyval :=
  PDict [("id", PStr id); ("name", PStr name); ("position", PInt position);
         ("permissions", PStr "0")].

Definition text_doc (id name parent : string) (position : Z) : pyval :=
  PDict [("id", PStr id); ("type", PInt 0); ("name", PStr name);
         ("parent_id", PStr parent); ("position", PInt position);
         ("permission_overwrites", PList [])].

(** Three groups at positions 0, 1, 2 (listed out of order), one container
    and two leaves below it, no emoji. *)
Definition scenario_snapshot : snapshot :=
  mkSnapshot 1 "t"
    (PDict [("id", PStr "1"); ("name", PStr "src")])
    [ text_doc "71" "chat" "10" 1;
      PDict [("id", PStr "10"); ("type", PInt 4); ("name", PStr "Lounge");
             ("position", PInt 0); ("permission_overwrites", PList [])];
      text_doc "70" "rules" "10" 0 ]
    [ role_doc "102" "c" 2; role_doc "100" "a" 0; role_doc "101" "b" 1 ]
    [].

(** An empty target, and a bot about to confirm a run on it. *)
Definition empty_guild : guild :=
  mkGuild 2 "target" [everyone] [] [] everyone true true.

Definition scenario : state :=
  mkState (Some [empty_guild]) (Some 2) (Some 1) (Some scenario_snapshot) true
    [] [] [] "idle" 0 0 0 ["clone"; ""] [].

(** A service that accepts every call except the creation of the role with
    the given name, which it forbids. *)
Definition forbidding_role (name : string) : services :=
  mkServices
    (fun history c =>
       match c with
       | CreateRole (PStr n) _ _ _ _ =>
           if String.eqb n name then Raise Forbidden else api accepting history c
       | _ => api accepting history c
       end)
    (cdn accepting).

(** The role names of the calls that created a role, oldest first. *)
Definition created_roles (tr : list event) : list pyval :=
  flat_map (fun e =>
              match e with
              | Api (CreateRole name _ _ _ _) (Ok _) => [name]
              | _ => []
              end) (rev tr).

(** The categories under which channels were created, oldest first. *)
Definition categories_used (tr : list event) : list (option obj) :=
  flat_map (fun e =>
              match e with
              | Api c (Ok _) =>
                  match category_of c with Some cat => [cat] | None => [] end
              | _ => []
              end) (rev tr).

(** *** Source services *)

(** A service that answers every request with 429 and no [Retry-After]. *)
Definition sustained_429 : server := fun _ _ => Reply 429 NoHeader (Ok PNone).

(** Scenario C of the specification: one 429 with a retry interval of two
    seconds, then the list of emojis. *)
Definition limited_once : server :=
  fun n _ =>
    match n with
    | O => Reply 429 (Seconds (S754_finite false 2 0)) (Ok PNone)
    | _ => Reply 200 NoHeader (Ok (PList [PDict [("id", PStr "1")]]))
    end.

(** Two services that differ only in why the channel list is refused. *)
Definition channels_refused (status : Z) : server :=
  fun _ endpoint =>
    if String.eqb endpoint (channels_endpoint 1)
    then Reply status NoHeader (Ok PNone)
    else if String.eqb endpoint (guild_endpoint 1)
    then Reply 200 NoHeader (Ok (PDict [("id", PStr "1"); ("name", PStr "src")]))
    else Reply 200 NoHeader (Ok (PList [PDict [("id", PStr "5")]])).

End Samples.
Export Samples.

(** ** [CloneBot]: the log of the session *)

Module Logs.

(** An entry of [self.logs]: the time, the level and the message. *)
Definition entry : Type := string * string * string.

(** [deque(maxlen=30)] *)
Definition maxlen : nat := 30.

(** [l[-n:]] for a positive [n]: the last [n] items, all of them when there
    are fewer. *)
Definition last_items {A} (n : nat) (l : list A) : list A :=
  skipn (List.length l - n) l.

(** [self.logs.append(x)]: a full deque drops its oldest item. *)
Definition append (logs : list entry) (x : entry) : list entry :=
  last_items maxlen (logs ++ [x]).

(** [colors.get(lvl, "white")] *)
Definition colour (lvl : string) : string :=
  match assoc lvl [("info", "blue"); ("ok", "green");
                   ("warn", "yellow"); ("err", "red")] with
  | Some c => c
  | None => "white"
  end.

Definition newline : string := String (ascii_of_nat 10) EmptyString.

(** One line of the panel of [show_logs]. *)
Definition log_line (e : entry) : string :=
  let '(t, lvl, msg) := e in
  "[dim]" ++ t ++ "[/dim] [" ++ colour lvl ++ "]" ++ msg
  ++ "[/" ++ colour lvl ++ "]".

(** The text of the panel that [show_logs] prints. *)
Definition show_logs (logs : list entry) : string :=
  match map log_line (last_items 5 logs) with
  | [] => "[dim]waiting...[/dim]"
  | lines => String.concat newline lines
  end.

End Logs.

(** ** [CloneBot]: the other entries of the menu *)

Module Session.

Definition set_target_id (t : option Z) (s : state) : state :=
  mkState (client s) t (source_id s) (scraped_data s) (cloner s)
    (role_map s) (chan_map s) (cat_map s)
    (current_operation s) (completed s) (total s) (errors s) (stdin s) (trace s).
Definition set_source_id (i : option Z) (s : state) : state :=
  mkState (client s) (target_id s) i (scraped_data s) (cloner s)
    (role_map s) (chan_map s) (cat_map s)
    (current_operation s) (completed s) (total s) (errors s) (stdin s) (trace s).
Definition set_scraped_data (d : option snapshot) (s : state) : state :=
  mkState (client s) (target_id s) (source_id s) d (cloner s)
    (role_map s) (chan_map s) (cat_map s)
    (current_operation s) (completed s) (total s) (errors s) (stdin s) (trace s).

(** [CloneBot.get_target] *)
Definition get_target (s : state) : option guild :=
  match client s, target_id s with
  | Some guilds, Some id => if id =? 0 then None else get_guild guilds id
  | _, _ => None
  end.

Section WithServices.

Variable env : services.

(** [str(x)] as the f-strings of the log lines apply it to a value of the
    snapshot. *)
Variable py_str : pyval -> string.

(** [CloneBot.set_target].  Each of the two [try] blocks answers whether it
    ended with [return]; the bare [except] of each catches whatever the
    block raises, the end of the input on [get_input] included. *)
Definition set_target : M unit :=
  c <- read client ;;
  match c with
  | None => log "connect bot first" "err"
  | Some guilds =>
      sel <- get_input "enter number or server id: " ;;
      by_number <-
        try_except
          (num <- lift (match int_of_str sel with
                        | Some z => Ok z
                        | None => Raise ValueError
                        end) ;;
           if (1 <=? num) && (num <=? Z.of_nat (List.length guilds)) then
             match nth_error guilds (Z.to_nat (num - 1)) with
             | Some g =>
                 modify (set_target_id (Some (guild_id g))) ;;
                 log ("target: " ++ guild_name g) "ok" ;;
                 get_input "press enter..." ;;
                 ret true
             | None => ret false       (* not reached: the index is in range *)
             end
           else ret false)
          (except_Exception (fun _ => ret false)) ;;
      if by_number then ret tt
      else
        by_id <-
          try_except
            (sid <- lift (match int_of_str sel with
                          | Some z => Ok z
                          | None => Raise ValueError
                          end) ;;
             match find (fun g => guild_id g =? sid) guilds with
             | Some g =>
                 modify (set_target_id (Some sid)) ;;
                 log ("target: " ++ guild_name g) "ok" ;;
                 get_input "press enter..." ;;
                 ret true
             | None => ret false
             end)
            (except_Exception (fun _ => ret false)) ;;
        if by_id then ret tt
        else
          log "invalid selection" "err" ;;
          get_input "press enter..." ;;
          ret tt
  end.

(** [key in guild] and [guild[key]] for the guild document. *)
Definition item (d : list (string * pyval)) (k : string) : pyval :=
  match assoc k d with Some x => x | None => PNone end.

(** [CloneBot.scrape_source].  [scraper] is [self.scraper] when it is set:
    the source service and the number of requests its session has sent.
    [now] is the time of the capture.  The result is [None] when the depth
    [fuel] does not suffice for the reads of the capture. *)
Definition scrape_source (fuel : nat) (scraper : option (server * nat))
    (now : string) (s : state) : option (result unit * state) :=
  match scraper with
  | None => Some (log "no user token" "err" s)
  | Some (srv, n) =>
      match get_input "enter source server id: " s with
      | (Raise e, s1) => Some (Raise e, s1)
      | (Ok sid, s1) =>
          match int_of_str sid with
          | None => Some (log "invalid id" "err" s1)
          | Some id =>
              match scrape_server fuel srv now id n with
              | None => None
              | Some (data, _, _) =>
                  Some
                    ((modify (set_source_id (Some id)) ;;
                      log ("scraping " ++ str_of_Z id ++ "...") "info" ;;
                      modify (set_scraped_data (Some data)) ;;
                      match snap_guild data with
                      | PDict guild =>
                          if has_key "error" guild then
                            log ("error: " ++ py_str (item guild "error")) "err" ;;
                            (if has_key "status" guild
                             then log ("status code: "
                                       ++ py_str (item guild "status")) "err"
                             else ret tt) ;;
                            get_input "press enter..." ;;
                            ret tt
                          else if negb (has_key "name" guild) then
                            log "no guild data returned" "err" ;;
                            get_input "press enter..." ;;
                            ret tt
                          else
                            log ("success: " ++ py_str (item guild "name")) "ok" ;;
                            log ("data: "
                                 ++ str_of_Z (Z.of_nat (List.length (snap_channels data)))
                                 ++ " channels, "
                                 ++ str_of_Z (Z.of_nat (List.length (snap_roles data)))
                                 ++ " roles, "
                                 ++ str_of_Z (Z.of_nat (List.length (snap_emojis data)))
                                 ++ " emojis") "info" ;;
                            get_input "press enter..." ;;
                            ret tt
                      | _ =>
                          log "invalid response format" "err" ;;
                          get_input "press enter..." ;;
                          ret tt
                      end) s1)
              end
          end
      end
  end.

(** [CloneBot.do_clone_roles] *)
Definition do_clone_roles : M unit :=
  sd <- read scraped_data ;;
  match sd with
  | None => log "no data" "err"
  | Some data =>
      target <- check_target ;;
      match target with
      | None => ret tt
      | Some target =>
          let roles_data := snap_roles data in
          answer <- get_input "delete existing first? (y/n): " ;;
          (if String.eqb answer "y"
           then cloner_reset_stats ;; roles_delete env target
           else ret tt) ;;
          cloner_reset_stats ;;
          roles_create env target roles_data ;;
          input ;;
          ret tt
      end
  end.

(** [CloneBot.do_clone_structure] *)
Definition do_clone_structure : M unit :=
  sd <- read scraped_data ;;
  match sd with
  | None => log "no data" "err"
  | Some data =>
      target <- check_target ;;
      match target with
      | None => ret tt
      | Some target =>
          let channels_data := snap_channels data in
          answer <- get_input "delete existing channels first? (y/n): " ;;
          (if String.eqb answer "y"
           then cloner_reset_stats ;; channels_delete env target
           else ret tt) ;;
          cloner_reset_stats ;;
          categories_create env target channels_data ;;
          cloner_reset_stats ;;
          channels_create env target channels_data ;;
          input ;;
          ret tt
      end
  end.

(** [CloneBot.do_clone_emojis] *)
Definition do_clone_emojis : M unit :=
  sd <- read scraped_data ;;
  match sd with
  | None => log "no data" "err"
  | Some data =>
      target <- check_target ;;
      match target with
      | None => ret tt
      | Some target =>
          let emojis_data := snap_emojis data in
          answer <- get_input "delete existing first? (y/n): " ;;
          (if String.eqb answer "y"
           then cloner_reset_stats ;; emojis_delete env target
           else ret tt) ;;
          cloner_reset_stats ;;
          emojis_create env target emojis_data ;;
          input ;;
          ret tt
      end
  end.

End WithServices.

End Session.
Export Session.

(** ** Vocabulary of the further properties *)

Module Further.

(** *** Sorting *)

(** The key of [x] is read without error and is [k]. *)
Definition key_is {X} (key : X -> result Z) (k : Z) (x : X) : bool :=
  match key x with
  | Ok z => z =? k
  | Raise _ => false
  end.

(** *** Keys of the tables *)

(** What a key is compared by: nothing, a string, an integer (for a bool,
    an int and an integral float alike), or a float that is no integer. *)
Inductive key_class : Type :=
| KNone
| KStr (s : string)
| KInt (z : Z)
| KFloat (f : spec_float).

(** The class of a key; a list, a dict and a NaN have none (the first two
    cannot be keys, the last is equal to nothing). *)
Definition class_of (k : pyval) : option key_class :=
  match k with
  | PNone => Some KNone
  | PStr s => Some (KStr s)
  | _ =>
      match num_key k with
      | Some (inl z) => Some (KInt z)
      | Some (inr f) => if float_same f f then Some (KFloat f) else None
      | None => None
      end
  end.

(** *** Overwrites *)

(** The ids of the roles of a dict of overwrites. *)
Definition role_ids (o : overwrites) : list Z :=
  map (fun e => obj_id (fst e)) o.

(** Every key of the table is a string. *)
Definition string_keyed (m : remap) : Prop :=
  Forall (fun kv => exists s, fst kv = PStr s) m.

(** A document whose id is a string, as the ids of the API are. *)
Definition string_id (x : pyval) : Prop :=
  is_dict x /\ exists s, field x "id" PNone = PStr s.

(** *** Decimal strings *)

(** The value of the digits of [d] read after the value [acc]. *)
Fixpoint uint_value (d : Decimal.uint) (acc : Z) : Z :=
  match d with
  | Decimal.Nil => acc
  | Decimal.D0 l => uint_value l (10 * acc + 0)
  | Decimal.D1 l => uint_value l (10 * acc + 1)
  | Decimal.D2 l => uint_value l (10 * acc + 2)
  | Decimal.D3 l => uint_value l (10 * acc + 3)
  | Decimal.D4 l => uint_value l (10 * acc + 4)
  | Decimal.D5 l => uint_value l (10 * acc + 5)
  | Decimal.D6 l => uint_value l (10 * acc + 6)
  | Decimal.D7 l => uint_value l (10 * acc + 7)
  | Decimal.D8 l => uint_value l (10 * acc + 8)
  | Decimal.D9 l => uint_value l (10 * acc + 9)
  end.

(** Every character of the string is white space. *)
Fixpoint blank (s : string) : bool :=
  match s with
  | EmptyString => true
  | String c r => is_space c && blank r
  end.

(** No character of the string is white space. *)
Fixpoint spaceless (s : string) : bool :=
  match s with
  | EmptyString => true
  | String c r => negb (is_space c) && spaceless r
  end.

(** *** What a phase asks of the target *)

(** The calls of a trace, oldest first. *)
Definition calls (tr : list event) : list call :=
  flat_map (fun e => match e with Api c _ => [c] | _ => [] end) (rev tr).

(** From any state, the calls that [m] issues are the [expected] ones, in
    their order: all of them when [m] returns normally, and the first ones
    up to the call that raised when it does not. *)
Definition issues (m : M unit) (expected : list call) : Prop :=
  forall s, exists new n,
    trace (snd (m s)) = new ++ trace s
    /\ calls new = firstn n expected
    /\ (fst (m s) = Ok tt -> calls new = expected).

(** What a call, and a download, is about. *)
Inductive subject : Type := Roles | Channels | Emojis | Settings.

Definition subject_of (c : call) : subject :=
  match c with
  | GuildEditName _ | GuildEditIcon _ => Settings
  | EmojiDelete _ | CreateCustomEmoji _ _ => Emojis
  | RoleDelete _ | RoleEditPermissions _ _ | RoleEditPosition _ _
  | CreateRole _ _ _ _ _ => Roles
  | ChannelDelete _ | CreateCategory _ _ | ChannelEditPosition _ _
  | ChannelEditTypeNews _ | CreateTextChannel _ _ _ _ _ _ _
  | CreateVoiceChannel _ _ _ _ _ _ | CreateStageChannel _ _ _ _
  | CreateForum _ _ _ _ _ => Channels
  end.

(** The event is no call and no download about anything but [k]. *)
Definition concerns (k : subject) (e : event) : Prop :=
  match e with
  | Api c _ => subject_of c = k
  | Fetch (EmojiUrl _ _) _ => k = Emojis
  | Fetch (IconUrl _ _) _ => k = Settings
  | _ => True
  end.

(** The calls that the roles phase may issue: the creation of a role that
    is not named [@everyone], the edit of the permissions of the default
    role of the target, and the edit of the position of a role that is not
    named [@everyone]. *)
Definition role_phase_event (g : guild) (e : event) : Prop :=
  match e with
  | Api (CreateRole name _ _ _ _) _ => eq_str name "@everyone" = false
  | Api (RoleEditPermissions r _) _ => r = default_role g
  | Api (RoleEditPosition r _) _ => obj_name r <> "@everyone"
  | Api _ _ => False
  | Fetch _ _ => False
  | _ => True
  end.

(** *** The order of a full run *)

(** The step of [do_full_clone] to which a call belongs: the settings of
    the guild, the three wipes, then the roles, the categories, the channels
    and the emojis created. *)
Definition stage_of (c : call) : nat :=
  match c with
  | GuildEditName _ | GuildEditIcon _ => 0
  | EmojiDelete _ => 1
  | ChannelDelete _ => 2
  | RoleDelete _ => 3
  | RoleEditPermissions _ _ | CreateRole _ _ _ _ _ | RoleEditPosition _ _ => 4
  | CreateCategory _ _ | ChannelEditPosition _ _ => 5
  | ChannelEditTypeNews _ | CreateTextChannel _ _ _ _ _ _ _
  | CreateVoiceChannel _ _ _ _ _ _ | CreateStageChannel _ _ _ _
  | CreateForum _ _ _ _ _ => 6
  | CreateCustomEmoji _ _ => 7
  end%nat.

(** The event is no call of another step than [k]. *)
Definition at_stage (k : nat) (e : event) : Prop :=
  match e with
  | Api c _ => stage_of c = k
  | _ => True
  end.

(** The calls come step after step. *)
Definition in_order (cs : list call) : Prop :=
  StronglySorted (fun a b => (stage_of a <= stage_of b)%nat) cs.

(** Between the two states, calls of the steps [lo] to [hi] were issued,
    step after step. *)
Definition staged (lo hi : nat) (s s' : state) : Prop :=
  exists new,
    trace s' = new ++ trace s
    /\ Forall (fun c => (lo <= stage_of c <= hi)%nat) (calls new)
    /\ in_order (calls new).

(** *** What a loop reads outside its [try] block *)

(** A channel as [channels_create] needs it: a document whose type and
    position [safe_int] accepts, whose parent id is falsy or can be a key,
    and whose overwrites are read without error.  The other fields are read
    under [try]. *)
Definition leaf_ok (c : pyval) : Prop :=
  is_dict c
  /\ (exists z, int_field c "type" = Ok z)
  /\ (exists z, int_field c "position" = Ok z)
  /\ (truthy (field c "parent_id" PNone) = false
      \/ hashable (field c "parent_id" PNone) = true)
  /\ overwrites_ok (field c "permission_overwrites" (PList [])).

(** *** Emojis *)

(** The address from which the image of an emoji of the snapshot is
    downloaded: [.gif] when the emoji is animated, [.png] when it is not. *)
Definition emoji_url (x : pyval) : url :=
  EmojiUrl (field x "id" PNone)
    (if truthy (flag (field x "animated" (PBool false))) then "gif" else "png").

(** In a trace, most recent event first: every call that creates an emoji
    comes right after the download, answered with status 200, of the image
    of an emoji of [items], and it creates an emoji with the name of that
    item and with the image downloaded. *)
Fixpoint uploads_follow_downloads (items : list pyval) (tr : list event)
  : Prop :=
  match tr with
  | [] => True
  | Api (CreateCustomEmoji name image) _ :: older =>
      (exists x,
         In x items
         /\ name = field x "name" (PStr "unnamed")
         /\ hd_error older = Some (Fetch (emoji_url x) (Ok (200, image))))
      /\ uploads_follow_downloads items older
  | _ :: older => uploads_follow_downloads items older
  end.

(** The events between the two states satisfy [uploads_follow_downloads]. *)
Definition uploading (items : list pyval) (s s' : state) : Prop :=
  exists new,
    trace s' = new ++ trace s /\ uploads_follow_downloads items new.

(** *** The other entries of the menu *)

Definition is_deletion (c : call) : bool :=
  match c with
  | RoleDelete _ | ChannelDelete _ | EmojiDelete _ => true
  | _ => false
  end.

(** The event is not the deletion of an object of the target. *)
Definition no_deletion (e : event) : Prop :=
  match e with
  | Api c _ => is_deletion c = false
  | _ => True
  end.

(** Between the two states the target has stayed as it was or has become
    a guild of [guilds]; the bot, the target guild and the tables have not
    been touched. *)
Definition among (guilds : list guild) (s s' : state) : Prop :=
  untouched s s'
  /\ client s' = client s
  /\ (target_id s' = target_id s
      \/ exists g, In g guilds /\ target_id s' = Some (guild_id g)).

(** A source that refuses every request with status 403. *)
Definition refusing_source : server := fun _ _ => Reply 403 NoHeader (Ok PNone).

(** A bot in two guilds, the second of which has the id 1. *)
Definition two_guilds (lines : list string) : state :=
  mkState (Some [target_guild;
                 mkGuild 1 "other" [everyone] [] [] everyone true true])
    None None None true [] [] [] "idle" 0 0 0 lines [].

(** *** Who writes a table *)

(** Between the two states the table [tbl] has not changed. *)
Definition keeps (tbl : state -> remap) (s s' : state) : Prop :=
  tbl s' = tbl s.

(** Between the two states events were appended and the table [tbl] has
    not changed. *)
Definition aside (tbl : state -> remap) (s s' : state) : Prop :=
  (exists new, trace s' = new ++ trace s) /\ tbl s' = tbl s.

(** *** The rate limiter *)

(** In a trace, most recent event first: every call comes right after a
    call of [rate.wait()]. *)
Fixpoint calls_follow_waits (tr : list event) : Prop :=
  match tr with
  | [] => True
  | Api _ _ :: older => hd_error older = Some Wait /\ calls_follow_waits older
  | _ :: older => calls_follow_waits older
  end.

(** The events between the two states satisfy [calls_follow_waits]. *)
Definition pacing (s s' : state) : Prop :=
  exists new, trace s' = new ++ trace s /\ calls_follow_waits new.

(** The event is not a call of [rate.wait()]. *)
Definition no_wait (e : event) : Prop :=
  match e with
  | Wait => False
  | _ => True
  end.

End Further.
Export Further.


(** * Properties *)

(** ** [safe_int] *)

Lemma safe_int_none (d : Z) : safe_int PNone d = Ok d.
Proof. reflexivity. Qed.

Lemma safe_int_int (z d : Z) : safe_int (PInt z) d = Ok z.
Proof. reflexivity. Qed.

Lemma safe_int_str (s : string) (d : Z) :
  safe_int (PStr s) d = Ok (match int_of_str s with Some z => z | None => d end).
Proof. unfold safe_int. destruct (int_of_str s); reflexivity. Qed.

Lemma safe_int_other (v : pyval) (d : Z) :
  (exists l, v = PList l) \/ (exists m, v = PDict m) -> safe_int v d = Ok d.
Proof. intros [[l ->] | [m ->]]; reflexivity. Qed.

(** Apart from the two kinds of float that [int] rejects, every value is
    mapped to an integer. *)
Lemma safe_int_total_on_finite (v : pyval) (d : Z) :
  (forall s, v <> PFloat (S754_infinity s)) -> v <> PFloat S754_nan ->
  exists z, safe_int v d = Ok z.
Proof.
  intros Hinf Hnan.
  destruct v as [ | b | z | f | s | l | m ]; simpl; eauto.
  - destruct f as [ s | s | | s m e ]; simpl; eauto.
    + exfalso. apply (Hinf s). reflexivity.
    + exfalso. apply Hnan. reflexivity.
  - destruct (int_of_str s); eauto.
Qed.

(** C9: [safe_int] is not total.  A float infinity, which the JSON decoder
    gives for a number such as [1e999], passes the [isinstance(value, float)]
    test, and [int(value)] raises [OverflowError]; a NaN raises
    [ValueError].  The [str] branch has a [try]/[except] around [int], the
    [float] branch has none. *)
Theorem safe_int_raises_on_infinity :
  safe_int (PFloat (S754_infinity false)) 0 = Raise OverflowError
  /\ safe_int (PFloat S754_nan) 0 = Raise ValueError.
Proof. split; reflexivity. Qed.

(** The exception reaches the callers: a role whose position is infinite
    makes the sort of [roles_create] raise before any role is created. *)
Example roles_create_aborts_on_infinite_position :
  roles_create accepting target_guild
    [PDict [("id", PStr "100"); ("name", PStr "mods");
            ("position", PFloat (S754_infinity false))]] idle
  = (Raise OverflowError, set_stats "Creating Roles" 0 1 0 idle).
Proof. reflexivity. Qed.

Example safe_int_padded_str : safe_int (PStr " -1_000 ") 7 = Ok (-1000).
Proof. reflexivity. Qed.
Example safe_int_bad_str : safe_int (PStr "12a") 7 = Ok 7.
Proof. reflexivity. Qed.
Example safe_int_truncates : safe_int (PFloat (S754_finite true 7 (-1))) 0 = Ok (-3).
Proof. reflexivity. Qed.
Example safe_int_bool : safe_int (PBool true) 0 = Ok 1.
Proof. reflexivity. Qed.


(** ** [APIScraper.get] *)

Section Get.

Variable srv : server.
Variable endpoint : string.

(** One level of [get] on an answer that is retried. *)
Lemma get_retry (fuel n : nat) (d : spec_float) :
  retry_delay (srv n endpoint) = Some d ->
  get (S fuel) srv endpoint n =
    match get fuel srv endpoint (S n) with
    | Some r => Some (mkFetched (value r) (next r) (d :: slept r))
    | None => None
    end.
Proof.
  unfold retry_delay. simpl.
  destruct (srv n endpoint) as [status hdr body | e]; [ | discriminate ].
  destruct (status =? 200) eqn:E200.
  - apply Z.eqb_eq in E200. subst status. simpl. discriminate.
  - destruct (status =? 429); [ | discriminate ].
    destruct hdr; intros H; inversion H; subst; reflexivity.
Qed.

(** One level of [get] on an answer that is not retried: the call returns
    at once, without sleeping, having used one request. *)
Lemma get_final (fuel n : nat) :
  retry_delay (srv n endpoint) = None ->
  exists v, forall fuel, get (S fuel) srv endpoint n = Some (mkFetched v (S n) []).
Proof.
  unfold retry_delay. simpl.
  destruct (srv n endpoint) as [status hdr body | e]; [ | eauto ].
  destruct (status =? 200) eqn:E200.
  - destruct body; eauto.
  - destruct (status =? 429).
    + destruct hdr; try discriminate. eauto.
    + destruct (status =? 403); [ eauto | ].
      destruct (status =? 401); eauto.
Qed.

Lemma delays_S (n k : nat) :
  delays srv endpoint n (S k) =
  delay_or_five (srv n endpoint) :: delays srv endpoint (S n) k.
Proof.
  unfold delays. simpl. rewrite Nat.add_0_r. f_equal.
  rewrite <- seq_shift, map_map. apply map_ext. intros i.
  now rewrite Nat.add_succ_r.
Qed.

(** [k] retries need [k + 1] nested calls, and then give the value of the
    last answer after the [k] sleeps. *)
Lemma get_settles (k : nat) : forall n,
  settles srv endpoint n k ->
  exists v,
    (forall fuel, get (S fuel) srv endpoint (n + k) = Some (mkFetched v (S (n + k)) []))
    /\ forall fuel,
         get fuel srv endpoint n =
         if (k <? fuel)%nat
         then Some (mkFetched v (S (n + k)) (delays srv endpoint n k))
         else None.
Proof.
  induction k as [ | k IH]; intros n [Hretry Hlast].
  - destruct (get_final 0 _ Hlast) as [v Hv]. exists v. split; [ exact Hv | ].
    intros [ | fuel]; [ reflexivity | ].
    rewrite Nat.add_0_r in Hv. rewrite Hv. now rewrite Nat.add_0_r.
  - assert (Hn : retry_delay (srv n endpoint) <> None).
    { specialize (Hretry 0%nat). rewrite Nat.add_0_r in Hretry. apply Hretry. lia. }
    destruct (retry_delay (srv n endpoint)) as [d | ] eqn:Ed; [ | congruence ].
    destruct (IH (S n)) as [v [Hv Hget]].
    { split.
      - intros i Hi. replace (S n + i)%nat with (n + S i)%nat by lia.
        apply Hretry. lia.
      - replace (S n + k)%nat with (n + S k)%nat by lia. exact Hlast. }
    exists v. split.
    + intros fuel. replace (n + S k)%nat with (S n + k)%nat by lia. apply Hv.
    + intros [ | fuel]; [ reflexivity | ].
      rewrite (get_retry fuel n d Ed), Hget, delays_S.
      unfold delay_or_five. rewrite Ed.
      change (S k <? S fuel)%nat with (k <? fuel)%nat.
      replace (n + S k)%nat with (S n + k)%nat by lia.
      destruct (k <? fuel)%nat; reflexivity.
Qed.

End Get.

Lemma get_sustained_429 (endpoint : string) (fuel : nat) :
  forall n, get fuel sustained_429 endpoint n = None.
Proof.
  induction fuel as [ | fuel IH]; intros n; [ reflexivity | ].
  simpl. now rewrite IH.
Qed.




(** ** [APIScraper.scrape_server] *)

(** The value of a call that meets an answer which is not retried. *)
Lemma get_value_of_answer (srv : server) (endpoint : string) (n fuel : nat) (v : pyval) :
  retry_delay (srv n endpoint) = None ->
  get (S fuel) srv endpoint n = Some (mkFetched v (S n) []) ->
  (failed (srv n endpoint) = true ->
   exists msg rest, v = PDict (("error", PStr msg) :: rest))
  /\ (forall hdr doc, srv n endpoint = Reply 200 hdr (Ok doc) -> v = doc).
Proof.
  unfold retry_delay, failed. simpl.
  destruct (srv n endpoint) as [status hdr body | e].
  - destruct (status =? 200) eqn:E200.
    + destruct body as [doc | e]; intros _ H; inversion H; subst; split.
      * simpl. intros F. discriminate F.
      * intros hdr' doc' E. inversion E; subst; reflexivity.
      * intros _. unfold error_doc. eauto.
      * intros hdr' doc' E. inversion E.
    + assert (Hne : forall hdr' doc', Reply status hdr body <> Reply 200 hdr' (Ok doc')).
      { intros hdr' doc' E. inversion E. subst. discriminate. }
      destruct (status =? 429).
      * destruct hdr; try discriminate.
        intros _ H. inversion H. split; [ intros _; unfold error_doc; eauto | ].
        intros hdr' doc' E. now apply Hne in E.
      * intros _ H. split.
        -- intros _. destruct (status =? 403); [ | destruct (status =? 401) ];
             inversion H; unfold status_doc; eauto.
        -- intros hdr' doc' E. now apply Hne in E.
  - intros _ H. inversion H. split; [ intros _; unfold error_doc; eauto | ].
    intros ? ? E. inversion E.
Qed.

Lemma list_or_empty_error (msg : string) (rest : list (string * pyval)) :
  list_or_empty (PDict (("error", PStr msg) :: rest)) = [].
Proof. reflexivity. Qed.

(** A read that settles, as [scrape_server] uses it. *)
Lemma get_settled_read (srv : server) (endpoint : string) (n k fuel : nat) :
  settles srv endpoint n k -> (k < fuel)%nat ->
  exists v,
    get fuel srv endpoint n =
      Some (mkFetched v (S (n + k)) (delays srv endpoint n k))
    /\ kept_list (srv (n + k)%nat endpoint) (list_or_empty v)
    /\ kept_guild (srv (n + k)%nat endpoint) (guild_or_error v).
Proof.
  intros Hs Hk. destruct (get_settles srv endpoint k n Hs) as [v [Hv Hget]].
  exists v. split.
  - rewrite Hget. apply Nat.ltb_lt in Hk. now rewrite Hk.
  - destruct Hs as [_ Hlast].
    destruct (get_value_of_answer srv endpoint (n + k) 0 v Hlast (Hv 0%nat))
      as [Hfail Hdoc].
    split; [ split | split; [ | split ] ].
    + intros F. destruct (Hfail F) as [msg [rest ->]]. reflexivity.
    + intros hdr l E. now rewrite (Hdoc hdr _ E).
    + intros F. destruct (Hfail F) as [msg [rest ->]]. simpl. eauto.
    + intros hdr E. now rewrite (Hdoc hdr _ E).
    + intros hdr doc E Hnone. rewrite (Hdoc hdr _ E).
      destruct doc; try reflexivity. congruence.
Qed.




(** ** [Clone.parse_permission_overwrites] *)

Lemma obj_eqb_refl (r : obj) : obj_eqb r r = true.
Proof. apply Z.eqb_refl. Qed.

Lemma obj_eqb_sym (a b : obj) : obj_eqb a b = obj_eqb b a.
Proof. apply Z.eqb_sym. Qed.

Lemma obj_eqb_trans (a b c : obj) :
  obj_eqb a b = true -> obj_eqb b c = true -> obj_eqb a c = true.
Proof. unfold obj_eqb. rewrite !Z.eqb_eq. congruence. Qed.

Lemma obj_eqb_congr (a b c : obj) :
  obj_eqb a b = true -> obj_eqb c a = obj_eqb c b.
Proof.
  unfold obj_eqb. rewrite Z.eqb_eq. intros ->. reflexivity.
Qed.

Lemma ow_get_set (m : overwrites) (r r' : obj) (v : Z * Z) :
  ow_get (ow_set m r v) r' = if obj_eqb r' r then Some v else ow_get m r'.
Proof.
  induction m as [ | [k w] m IH]; simpl.
  - reflexivity.
  - destruct (obj_eqb r k) eqn:Erk; simpl.
    + rewrite (obj_eqb_congr r k r' Erk). destruct (obj_eqb r' k); reflexivity.
    + rewrite IH. destruct (obj_eqb r' k) eqn:E'; [ | reflexivity ].
      destruct (obj_eqb r' r) eqn:E''; [ | reflexivity ].
      rewrite obj_eqb_sym in E''.
      rewrite (obj_eqb_trans r r' k E'' E') in Erk. discriminate.
Qed.

Section Translate.

Variable roles : remap.
Variable bot_source_id : option Z.
Variable guild_to : guild.

(** What an overwrite emits is determined by the overwrite. *)
Lemma emits_functional (ow : pyval) (r r' : obj) (v v' : Z * Z) :
  emits roles bot_source_id guild_to ow r v -> emits roles bot_source_id guild_to ow r' v' -> r = r' /\ v = v'.
Proof.
  intros [_ [[s [Hs Hr]] [Ha Hd]]] [_ [[s' [Hs' Hr']] [Ha' Hd']]].
  rewrite Hs in Hs'. inversion Hs'; subst s'.
  split.
  - destruct Hr as [Hr | [Hn [_ ->]]], Hr' as [Hr' | [Hn' [_ ->]]]; congruence.
  - destruct v, v'. simpl in *. congruence.
Qed.

(** One turn of the loop either stores what the overwrite emits or leaves
    the dict as it is, and then the overwrite emits nothing. *)
Lemma parse_overwrite_step (acc acc' : overwrites) (ow : pyval) :
  parse_overwrite roles bot_source_id guild_to acc ow = Ok acc' ->
  (exists r v, emits roles bot_source_id guild_to ow r v /\ acc' = ow_set acc r v)
  \/ (acc' = acc /\ forall r v, ~ emits roles bot_source_id guild_to ow r v).
Proof.
  unfold parse_overwrite, emits, group_kind, resolves, int_field.
  destruct (py_get ow "type" (PInt 0)) as [t | ] eqn:Et; simpl; [ | discriminate ].
  destruct (py_get ow "id" PNone) as [id | ]; simpl; [ | discriminate ].
  destruct (safe_int id 0) as [source | ]; simpl; [ | discriminate ].
  destruct (py_get ow "allow" PNone) as [a | ]; simpl; [ | discriminate ].
  destruct (safe_int a 0) as [allow | ]; simpl; [ | discriminate ].
  destruct (py_get ow "deny" PNone) as [d | ]; simpl; [ | discriminate ].
  destruct (safe_int d 0) as [deny | ]; simpl; [ | discriminate ].
  destruct (eq_int t 0) eqn:Ekind.
  - destruct (lookup roles (PInt source)) as [r | ] eqn:El.
    + intros H. inversion H. left. exists r, (allow, deny).
      repeat split; eauto.
    + unfold is_source. destruct bot_source_id as [g | ] eqn:Eg.
      * destruct (source =? g) eqn:Esg.
        -- apply Z.eqb_eq in Esg. subst g.
           intros H. inversion H. left.
           exists (default_role guild_to), (allow, deny).
           repeat split; eauto 8.
        -- intros H. inversion H. right. split; [ reflexivity | ].
           intros r v [_ [[s [Hs Hr]] _]]. inversion Hs; subst s.
           destruct Hr as [Hr | [_ [Hr _]]]; [ congruence | ].
           inversion Hr; subst. rewrite Z.eqb_refl in Esg. discriminate.
      * intros H. inversion H. right. split; [ reflexivity | ].
        intros r v [_ [[s [Hs Hr]] _]]. inversion Hs; subst s.
        destruct Hr as [Hr | [_ [Hr _]]]; congruence.
  - intros H. inversion H. right. split; [ reflexivity | ].
    intros r v [[t' [Ht' Hk]] _]. inversion Ht'; subst t'. congruence.
Qed.

(** The dict after the loop, key by key. *)
Lemma parse_loop_entries (items : list pyval) : forall acc out,
  parse_loop roles bot_source_id guild_to acc items = Ok out ->
  forall r,
    (forall v, ow_get out r = Some v ->
       ow_get acc r = Some v
       \/ exists ow r', In ow items /\ obj_eqb r r' = true /\ emits roles bot_source_id guild_to ow r' v)
    /\ ((ow_get acc r <> None
         \/ exists ow r' v, In ow items /\ obj_eqb r r' = true /\ emits roles bot_source_id guild_to ow r' v) ->
        ow_get out r <> None).
Proof.
  induction items as [ | ow items IH]; simpl; intros acc out H r.
  - inversion H; subst. split; [ auto | ].
    intros [Hacc | [ow [r' [v [[] _]]]]]. exact Hacc.
  - destruct (parse_overwrite roles bot_source_id guild_to acc ow) as [acc' | ] eqn:Estep;
      simpl in H; [ | discriminate ].
    destruct (IH acc' out H r) as [IH1 IH2].
    destruct (parse_overwrite_step acc acc' ow Estep)
      as [[r0 [v0 [Hem ->]]] | [-> Hnone]].
    + split.
      * intros v Hv. destruct (IH1 v Hv) as [Hacc | [ow' [r' [Hin Hr']]]].
        -- rewrite ow_get_set in Hacc.
           destruct (obj_eqb r r0) eqn:Er; [ | auto ].
           inversion Hacc; subst v0. right. exists ow, r0. auto.
        -- right. exists ow', r'. tauto.
      * intros Hpre. apply IH2.
        rewrite ow_get_set.
        destruct (obj_eqb r r0) eqn:Er; [ left; discriminate | ].
        destruct Hpre as [Hacc | [ow' [r' [v' [[<- | Hin] [Hr' Hem']]]]]].
        -- auto.
        -- destruct (emits_functional _ _ _ _ _ Hem Hem') as [<- _]. congruence.
        -- right. exists ow', r', v'. auto.
    + split.
      * intros v Hv. destruct (IH1 v Hv) as [Hacc | [ow' [r' [Hin Hr']]]]; [ auto | ].
        right. exists ow', r'. tauto.
      * intros Hpre. apply IH2.
        destruct Hpre as [Hacc | [ow' [r' [v' [[<- | Hin] [Hr' Hem']]]]]].
        -- auto.
        -- exfalso. exact (Hnone _ _ Hem').
        -- right. exists ow', r', v'. auto.
Qed.

End Translate.

(** C5: the dict returned by [parse_permission_overwrites] has an entry
    for a target role exactly when some overwrite of the input is of group
    kind and its source id resolves to that role (through [role_map], or
    through the default role when the id is absent from [role_map] and is
    the recorded id of the source guild); the bitmasks of the entry are
    those of such an overwrite.  An overwrite of member kind, or one whose
    id resolves to nothing, accounts for no entry.  The method changes
    nothing in the state. *)
Theorem parse_permission_overwrites_emits_resolved_groups :
  forall (overwrites_data : pyval) (guild_to : guild) (s s' : state)
         (out : overwrites),
    parse_permission_overwrites overwrites_data guild_to s = (Ok out, s') ->
    s' = s
    /\ exists items,
         py_iter overwrites_data = Ok items
         /\ forall r,
              (forall v, ow_get out r = Some v ->
                 exists ow r', In ow items /\ obj_eqb r r' = true
                   /\ emits (role_map s) (source_id s) guild_to ow r' v)
              /\ ((exists ow r' v, In ow items /\ obj_eqb r r' = true
                     /\ emits (role_map s) (source_id s) guild_to ow r' v) ->
                  ow_get out r <> None).
Proof.
  intros data guild_to s s' out.
  unfold parse_permission_overwrites, translate, bind, read, lift. simpl.
  destruct (py_iter data) as [items | ] eqn:Ei; simpl; [ | discriminate ].
  intros H. inversion H; subst s'. split; [ reflexivity | ].
  exists items. split; [ reflexivity | ].
  intros r.
  destruct (parse_loop_entries (role_map s) (source_id s) guild_to items [] out H1 r)
    as [P1 P2].
  split.
  - intros v Hv. destruct (P1 v Hv) as [Hacc | Hex]; [ discriminate | exact Hex ].
  - intros Hex. apply P2. right. exact Hex.
Qed.

Lemma parse_permission_overwrites_emits_resolved_groups_witness :
  parse_permission_overwrites sample_overwrites target_guild
    (with_roles [(PStr "100", mods)])
  = (Ok [(everyone, (1024, 2048))], with_roles [(PStr "100", mods)])
  /\ (with_roles [(PStr "100", mods)] = with_roles [(PStr "100", mods)]
      /\ exists items,
           py_iter sample_overwrites = Ok items
           /\ forall r,
                (forall v, ow_get [(everyone, (1024, 2048))] r = Some v ->
                   exists ow r', In ow items /\ obj_eqb r r' = true
                     /\ emits [(PStr "100", mods)] (Some 1) target_guild ow r' v)
                /\ ((exists ow r' v, In ow items /\ obj_eqb r r' = true
                       /\ emits [(PStr "100", mods)] (Some 1) target_guild ow r' v) ->
                    ow_get [(everyone, (1024, 2048))] r <> None)).
Proof.
  split; [ reflexivity | ].
  apply (parse_permission_overwrites_emits_resolved_groups
           sample_overwrites target_guild
           (with_roles [(PStr "100", mods)]) (with_roles [(PStr "100", mods)])
           [(everyone, (1024, 2048))]).
  reflexivity.
Defined.

(** A table keyed by strings, as the ids of a JSON document are, has no
    entry for an integer: a string is never equal to a number. *)
Lemma lookup_int_among_strings (m : remap) (z : Z) :
  Forall (fun kv => exists s, fst kv = PStr s) m -> lookup m (PInt z) = None.
Proof.
  induction 1 as [ | [k v] m [s Hk] _ IH]; simpl in *; [ reflexivity | ].
  subst k. exact IH.
Qed.

(** ** How the methods compose *)

Section Preserves.

Variable R : state -> state -> Prop.
Hypothesis R_refl : forall s, R s s.
Hypothesis R_trans : forall a b c, R a b -> R b c -> R a c.

Lemma preserves_ret {A} (a : A) : preserves R (ret a).
Proof. intros s. apply R_refl. Qed.

Lemma preserves_lift {A} (r : result A) : preserves R (lift r).
Proof. intros s. apply R_refl. Qed.

Lemma preserves_read {A} (f : state -> A) : preserves R (read f).
Proof. intros s. apply R_refl. Qed.

Lemma preserves_bind {A B} (m : M A) (k : A -> M B) :
  preserves R m -> (forall a, preserves R (k a)) -> preserves R (bind m k).
Proof.
  intros Hm Hk s. unfold bind.
  specialize (Hm s). destruct (m s) as [[a | e] s1]; simpl in *.
  - eapply R_trans; [ exact Hm | apply Hk ].
  - exact Hm.
Qed.

Lemma preserves_try_except {A} (m : M A) (handler : exn -> option (M A)) :
  preserves R m ->
  (forall e h, handler e = Some h -> preserves R h) ->
  preserves R (try_except m handler).
Proof.
  intros Hm Hh s. unfold try_except.
  specialize (Hm s). destruct (m s) as [[a | e] s1]; simpl in *.
  - exact Hm.
  - destruct (handler e) as [h | ] eqn:Eh; simpl.
    + eapply R_trans; [ exact Hm | exact (Hh e h Eh s1) ].
    + exact Hm.
Qed.

Lemma preserves_for_each {X} (xs : list X) (body : X -> M unit) :
  (forall x, preserves R (body x)) -> preserves R (for_each xs body).
Proof.
  intros Hbody. induction xs as [ | x xs IH]; simpl.
  - apply preserves_ret.
  - apply preserves_bind; [ apply Hbody | intros _; exact IH ].
Qed.

Lemma preserves_modify (f : state -> state) :
  (forall s, R s (f s)) -> preserves R (modify f).
Proof. intros H s. apply H. Qed.

Lemma preserves_if {A} (b : bool) (m1 m2 : M A) :
  preserves R m1 -> preserves R m2 -> preserves R (if b then m1 else m2).
Proof. destruct b; auto. Qed.

End Preserves.

(** *** Appending events *)

Lemma appended_refl (P : event -> Prop) (s : state) : appended P s s.
Proof. exists []. split; [ reflexivity | constructor ]. Qed.

Lemma appended_trans (P : event -> Prop) (a b c : state) :
  appended P a b -> appended P b c -> appended P a c.
Proof.
  intros [n1 [E1 F1]] [n2 [E2 F2]]. exists (n2 ++ n1). split.
  - rewrite E2, E1. apply app_assoc.
  - apply Forall_app. split; assumption.
Qed.

Lemma appended_weaken (P Q : event -> Prop) (s s' : state) :
  (forall e, P e -> Q e) -> appended P s s' -> appended Q s s'.
Proof.
  intros H [new [E F]]. exists new. split; [ exact E | ].
  eapply Forall_impl; eauto.
Qed.

Lemma untouched_refl (s : state) : untouched s s.
Proof. repeat split. Qed.

Lemma untouched_trans (a b c : state) :
  untouched a b -> untouched b c -> untouched a c.
Proof.
  unfold untouched. intros [? [? [? ?]]] [? [? [? ?]]]. repeat split; congruence.
Qed.

(** *** One step of a method *)

Lemma bind_emit {B} (e : event) (k : unit -> M B) (s : state) :
  bind (emit e) k s = k tt (set_trace (e :: trace s) s).
Proof. reflexivity. Qed.

Lemma bind_lift_ok {A B} (a : A) (k : A -> M B) (s : state) :
  bind (lift (Ok a)) k s = k a s.
Proof. reflexivity. Qed.

Lemma bind_lift_raise {A B} (e : exn) (k : A -> M B) (s : state) :
  bind (lift (@Raise A e)) k s = (Raise e, s).
Proof. reflexivity. Qed.

Lemma bind_read {A B} (f : state -> A) (k : A -> M B) (s : state) :
  bind (read f) k s = k (f s) s.
Proof. reflexivity. Qed.

Lemma bind_modify {B} (f : state -> state) (k : unit -> M B) (s : state) :
  bind (modify f) k s = k tt (f s).
Proof. reflexivity. Qed.

Lemma bind_ret {A B} (a : A) (k : A -> M B) (s : state) :
  bind (ret a) k s = k a s.
Proof. reflexivity. Qed.

Lemma bind_bind {A B C} (m : M A) (k : A -> M B) (k' : B -> M C) (s : state) :
  bind (bind m k) k' s = bind m (fun a => bind (k a) k') s.
Proof. unfold bind. destruct (m s) as [[a | e] s1]; reflexivity. Qed.

Lemma bind_ok {A B} (m : M A) (k : A -> M B) (s s1 : state) (a : A) :
  m s = (Ok a, s1) -> bind m k s = k a s1.
Proof. intros H. unfold bind. now rewrite H. Qed.

Lemma bind_raise {A B} (m : M A) (k : A -> M B) (s s1 : state) (e : exn) :
  m s = (Raise e, s1) -> bind m k s = (Raise e, s1).
Proof. intros H. unfold bind. now rewrite H. Qed.

Lemma bind_request {B} (env : services) (c : call) (k : obj -> M B) (s : state) :
  bind (request env c) k s =
  match api env (trace s) c with
  | Ok r => k r (set_trace (Api c (Ok r) :: trace s) s)
  | Raise e => (Raise e, set_trace (Api c (Raise e) :: trace s) s)
  end.
Proof. unfold bind, request. destruct (api env (trace s) c); reflexivity. Qed.

(** *** Leaves for [appended] *)

Section Appended.

Variable P : event -> Prop.

Lemma appended_emit (e : event) : P e -> preserves (appended P) (emit e).
Proof.
  intros H s. exists [e]. split; [ reflexivity | ]. constructor; [ exact H | constructor ].
Qed.

Lemma appended_modify (f : state -> state) :
  (forall s, trace (f s) = trace s) -> preserves (appended P) (modify f).
Proof.
  intros H s. exists []. split; [ apply H | constructor ].
Qed.

Lemma appended_request (env : services) (c : call) :
  (forall r, P (Api c r)) -> preserves (appended P) (request env c).
Proof.
  intros H s. exists [Api c (api env (trace s) c)].
  split; [ reflexivity | ]. constructor; [ apply H | constructor ].
Qed.

Lemma appended_download (env : services) (u : url) :
  (forall r, P (Fetch u r)) -> preserves (appended P) (download env u).
Proof.
  intros H s. exists [Fetch u (cdn env (trace s) u)].
  split; [ reflexivity | ]. constructor; [ apply H | constructor ].
Qed.

Lemma appended_print_status :
  (forall op c t e, P (Status op c t e)) -> preserves (appended P) print_status.
Proof.
  intros H s. eexists [_]. split; [ reflexivity | ].
  constructor; [ apply H | constructor ].
Qed.

Lemma appended_input : preserves (appended P) input.
Proof.
  intros s. unfold input. destruct (stdin s); exists []; split; try reflexivity; constructor.
Qed.

End Appended.

(** Composition of methods, goal directed: [leaf] closes what is left. *)
Ltac frame_with Rr Rt leaf :=
  repeat first
    [ apply (preserves_ret _ Rr)
    | apply (preserves_lift _ Rr)
    | apply (preserves_read _ Rr)
    | apply (preserves_bind _ Rt); [ | intros ? ]
    | apply (preserves_try_except _ Rt); [ | intros ? ? ? ]
    | apply (preserves_for_each _ Rr Rt); intros ?
    | match goal with
      | |- preserves _ (if ?b then _ else _) => destruct b
      | |- preserves _ (match ?x with _ => _ end) => destruct x
      | H : match ?e with _ => _ end = Some _ |- _ =>
          destruct e; inversion H; subst; clear H
      | H : except_Exception _ _ = Some _ |- _ =>
          unfold except_Exception in H; inversion H; subst; clear H
      | H : Some _ = Some _ |- _ => inversion H; subst; clear H
      | H : None = Some _ |- _ => discriminate H
      end
    | leaf ].

(** What follows a first step [m] inside a [try] block, and after the
    block, relates the state left by [m] to the final state. *)
Lemma after_first_step (R : state -> state -> Prop)
    (R_refl : forall s, R s s) (R_trans : forall a b c, R a b -> R b c -> R a c)
    {A B} (m : M A) (k : A -> M B) (handler : exn -> option (M B))
    (fin : M unit) :
  (forall a, preserves R (k a)) ->
  (forall e h, handler e = Some h -> preserves R h) ->
  preserves R fin ->
  forall s, R (snd (m s)) (snd (bind (try_except (bind m k) handler) (fun _ => fin) s)).
Proof.
  intros Hk Hh Hfin s. unfold bind, try_except.
  destruct (m s) as [[a | e] s1]; simpl.
  - specialize (Hk a s1). destruct (k a s1) as [[b | e] s2]; simpl in *.
    + eapply R_trans; [ exact Hk | apply Hfin ].
    + destruct (handler e) as [h | ] eqn:Eh; simpl.
      * specialize (Hh e h Eh s2).
        destruct (h s2) as [[b | e'] s3]; simpl in *.
        -- eapply R_trans; [ exact Hk | ]. eapply R_trans; [ exact Hh | apply Hfin ].
        -- eapply R_trans; [ exact Hk | exact Hh ].
      * exact Hk.
  - destruct (handler e) as [h | ] eqn:Eh; simpl.
    + specialize (Hh e h Eh s1).
      destruct (h s1) as [[b | e'] s3]; simpl in *.
      * eapply R_trans; [ exact Hh | apply Hfin ].
      * exact Hh.
    + apply R_refl.
Qed.

(** ** [Clone.channels_create]: the parent of a channel *)

Lemma safe_int_default_irrelevant (v : pyval) (d d' : Z) :
  (exists z, safe_int v d = Ok z) -> exists z, safe_int v d' = Ok z.
Proof.
  destruct v as [ | b | z | f | s | l | m ]; simpl; eauto.
  destruct (int_of_str s); eauto.
Qed.

Lemma resolve_category_parent_of (cats : remap) (parent_id : pyval) :
  truthy parent_id = false \/ hashable parent_id = true ->
  resolve_category cats parent_id = Ok (parent_of cats parent_id).
Proof.
  unfold resolve_category, parent_of, remap_get.
  intros [H | H]; rewrite H; [ reflexivity | ].
  destruct (truthy parent_id); reflexivity.
Qed.

(** The helpers of [Clone], opened up. *)
Ltac unfold_clone :=
  unfold log_add, log_delete, log_error, set_operation, set_total,
    set_completed, incr_completed, rate_wait, register_role, register_cat,
    register_chan, reset_stats, parse_permission_overwrites.

(** Leaves when the events appended must be under one category. *)
Ltac leaf_under_category :=
  first
    [ apply appended_emit; intros ? ? E; discriminate E
    | apply appended_modify; intros ?; reflexivity
    | apply appended_request; intros ? ? ? E; inversion E; subst; simpl; eauto
    | apply appended_print_status; intros ? ? ? ? ? ? E; discriminate E ].

Section Channel.

Variable env : services.
Variable guild_to : guild.

(** Whatever its type code, a channel is created under the category that
    was resolved for it. *)
Lemma create_channel_under_category (ch_data name : pyval) (chan_type : Z)
    (category : option obj) (ows : overwrites) (pos : Z) :
  preserves (appended (under_category category))
    (create_channel env ch_data name chan_type category ows pos).
Proof.
  unfold create_channel. unfold_clone.
  frame_with (appended_refl (under_category category))
             (appended_trans (under_category category))
             leaf_under_category.
Qed.

(** The rest of the loop body, once the category is known. *)
Lemma channel_item_rest_under_category (ch_data name ows_data : pyval)
    (chan_type : Z) (category : option obj) :
  preserves (appended (under_category category))
    (overwrites_to <- parse_permission_overwrites ows_data guild_to ;;
     try_except
       (p <- lift (py_get ch_data "position" PNone) ;;
        pos <- lift (safe_int p 0) ;;
        made <- create_channel env ch_data name chan_type category overwrites_to pos ;;
        id <- lift (py_get ch_data "id" PNone) ;;
        register_chan id (fst made) ;;
        log_add (snd made) name)
       (fun e =>
          match e with
          | Forbidden => Some (log_error "forbidden: " name None)
          | HTTPException => Some (log_error "http error: " name (Some e))
          | _ => Some (log_error "error: " PNone (Some e))
          end) ;;
     incr_completed).
Proof.
  unfold_clone.
  frame_with (appended_refl (under_category category))
             (appended_trans (under_category category))
             ltac:(first [ apply create_channel_under_category
                         | leaf_under_category ]).
Qed.

End Channel.

Section ChannelItem.

Variable env : services.
Variable guild_to : guild.

(** With readable numeric fields, the first thing [create_channel] does to
    the target is the creation call, under the given category. *)
Lemma create_channel_calls_first (d : list (string * pyval)) (name : pyval)
    (chan_type : Z) (category : option obj) (ows : overwrites) (pos : Z)
    (s : state) :
  (forall field, exists z, int_field (PDict d) field = Ok z) ->
  exists c res later,
    trace (snd (create_channel env (PDict d) name chan_type category ows pos s))
      = later ++ Api c res :: trace s
    /\ category_of c = Some category.
Proof.
  intros Hint.
  assert (Hf : forall field dflt, exists z,
             safe_int (match assoc field d with Some x => x | None => PNone end) dflt = Ok z).
  { intros field dflt. apply safe_int_default_irrelevant with (d := 0).
    exact (Hint field). }
  unfold create_channel. cbn [py_get].
  destruct (chan_type =? 0).
  { rewrite bind_lift_ok, bind_lift_ok.
    destruct (Hf "rate_limit_per_user" 0) as [z ->].
    rewrite bind_lift_ok, bind_lift_ok, bind_request.
    destruct (api env (trace s) _) as [r | e]; do 2 eexists; exists []; simpl; eauto. }
  destruct (chan_type =? 2).
  { rewrite bind_lift_ok. destruct (Hf "bitrate" 64000) as [z ->].
    rewrite bind_lift_ok, bind_lift_ok. destruct (Hf "user_limit" 0) as [z' ->].
    rewrite bind_lift_ok, bind_request.
    destruct (api env (trace s) _) as [r | e]; do 2 eexists; exists []; simpl; eauto. }
  destruct (chan_type =? 5).
  { rewrite bind_lift_ok, bind_request.
    destruct (api env (trace s) _) as [r | e] eqn:Eapi.
    - unfold bind, try_except, request, except_Exception, ret. simpl.
      destruct (api env _ (ChannelEditTypeNews r)) as [r' | e'];
        do 2 eexists; eexists [_]; simpl; eauto.
    - do 2 eexists; exists []; simpl; eauto. }
  destruct (chan_type =? 13).
  { rewrite bind_request.
    destruct (api env (trace s) _) as [r | e]; do 2 eexists; exists []; simpl; eauto. }
  destruct (chan_type =? 15).
  { rewrite bind_lift_ok, bind_request.
    destruct (api env (trace s) _) as [r | e]; do 2 eexists; exists []; simpl; eauto. }
  rewrite bind_request.
  destruct (api env (trace s) _) as [r | e]; do 2 eexists; exists []; simpl; eauto.
Qed.

End ChannelItem.

(** Leaves when any event may be appended. *)
Ltac leaf_any :=
  first
    [ apply appended_emit; exact I
    | apply appended_modify; intros ?; reflexivity
    | apply appended_request; intros ?; exact I
    | apply appended_print_status; intros; exact I ].

(** C6, amended: for a channel whose [parent_id] is falsy or hashable, the
    category is resolved without error; it is the entry of [cat_map] for
    [parent_id] when [parent_id] is truthy and has one, and none when
    [parent_id] is falsy (null, empty, zero) or has no entry.  Every call
    that creates the channel carries exactly this category, and when the
    numeric fields and the overwrites of the channel are readable the
    creation call is issued, right after the wait. *)
Theorem channel_item_uses_resolved_category :
  forall (env : services) (guild_to : guild) (ch_data parent_id : pyval) (s : state),
    py_get ch_data "parent_id" PNone = Ok parent_id ->
    truthy parent_id = false \/ hashable parent_id = true ->
    resolve_category (cat_map s) parent_id = Ok (parent_of (cat_map s) parent_id)
    /\ exists new,
         trace (snd (channel_item env guild_to ch_data s)) = new ++ trace s
         /\ Forall (under_category (parent_of (cat_map s) parent_id)) new
         /\ (readable ch_data s guild_to ->
             exists c res later,
               new = later ++ [Api c res; Wait]
               /\ category_of c = Some (parent_of (cat_map s) parent_id)).
Proof.
  intros env guild_to ch_data parent_id s Hparent Hkey.
  pose proof (resolve_category_parent_of (cat_map s) parent_id Hkey) as Hres.
  split; [ exact Hres | ].
  destruct ch_data as [ | | | | | | d ]; try discriminate Hparent.
  simpl in Hparent. injection Hparent as Ep.
  set (cat := parent_of (cat_map s) parent_id) in *.
  assert (Hwait : under_category cat Wait) by (intros c res E; discriminate E).
  unfold channel_item, rate_wait. rewrite bind_emit.
  cbn [py_get]. rewrite bind_lift_ok, bind_lift_ok.
  set (s1 := set_trace (Wait :: trace s) s).
  destruct (safe_int match assoc "type" d with Some x => x | None => PNone end 0)
    as [chan_type | e] eqn:Etype.
  2:{ rewrite bind_lift_raise. exists [Wait]. simpl. split; [ reflexivity | ].
      split; [ constructor; [ exact Hwait | constructor ] | ].
      intros [Hint _]. destruct (Hint "type") as [z Hz].
      unfold int_field in Hz. simpl in Hz. congruence. }
  rewrite bind_lift_ok, bind_lift_ok, bind_read. rewrite Ep.
  change (cat_map s1) with (cat_map s). rewrite Hres, bind_lift_ok, bind_lift_ok.
  set (name := match assoc "name" d with Some x => x | None => PStr "unnamed" end).
  set (ows := match assoc "permission_overwrites" d with
              | Some x => x | None => PList [] end).
  destruct (channel_item_rest_under_category env guild_to (PDict d) name ows
              chan_type cat s1) as [new1 [E1 F1]].
  cbn [py_get] in E1. fold name in E1.
  exists (new1 ++ [Wait]). split.
  { rewrite E1. simpl. now rewrite <- app_assoc. }
  split.
  { apply Forall_app. split; [ exact F1 | ].
    constructor; [ exact Hwait | constructor ]. }
  intros [Hint [ows' [o [Eows Etr]]]].
  cbn [py_get] in Eows. injection Eows as <-. fold ows in Etr.
  assert (Hparse : parse_permission_overwrites ows guild_to s1 = (Ok o, s1)).
  { unfold parse_permission_overwrites. rewrite bind_read, bind_read.
    change (role_map s1) with (role_map s). change (source_id s1) with (source_id s).
    unfold lift. now rewrite Etr. }
  destruct (Hint "position") as [pos Hpos]. unfold int_field in Hpos. simpl in Hpos.
  destruct (create_channel_calls_first env d name chan_type cat o pos s1 Hint)
    as [c [res [later [Ecall Hcat]]]].
  pose proof (after_first_step (appended (fun _ => True))
                (appended_refl _) (appended_trans _)
                (create_channel env (PDict d) name chan_type cat o pos)
                (fun made =>
                   id <- lift (py_get (PDict d) "id" PNone) ;;
                   register_chan id (fst made) ;;
                   log_add (snd made) name)
                (fun e =>
                   match e with
                   | Forbidden => Some (log_error "forbidden: " name None)
                   | HTTPException => Some (log_error "http error: " name (Some e))
                   | _ => Some (log_error "error: " PNone (Some e))
                   end)
                incr_completed) as Hafter.
  destruct (Hafter
              ltac:(intros made; unfold_clone;
                    frame_with (appended_refl (fun _ : event => True))
                               (appended_trans (fun _ : event => True)) leaf_any)
              ltac:(intros e h Eh; destruct e; inversion Eh; subst; unfold_clone;
                    frame_with (appended_refl (fun _ : event => True))
                               (appended_trans (fun _ : event => True)) leaf_any)
              ltac:(unfold_clone;
                    frame_with (appended_refl (fun _ : event => True))
                               (appended_trans (fun _ : event => True)) leaf_any)
              s1) as [new2 [E2 _]].
  clear Hafter.
  assert (Efinal : trace (snd ((overwrites_to <- parse_permission_overwrites ows guild_to ;;
                     try_except
                       (p <- lift (py_get (PDict d) "position" PNone) ;;
                        pos <- lift (safe_int p 0) ;;
                        made <- create_channel env (PDict d) name chan_type cat overwrites_to pos ;;
                        id <- lift (py_get (PDict d) "id" PNone) ;;
                        register_chan id (fst made) ;;
                        log_add (snd made) name)
                       (fun e =>
                          match e with
                          | Forbidden => Some (log_error "forbidden: " name None)
                          | HTTPException => Some (log_error "http error: " name (Some e))
                          | _ => Some (log_error "error: " PNone (Some e))
                          end) ;;
                     incr_completed) s1))
                   = new2 ++ later ++ Api c res :: trace s1).
  { rewrite <- Ecall, <- E2.
    unfold bind at 1. rewrite Hparse. cbn [py_get].
    unfold bind at 2. unfold lift at 1. unfold bind at 2. unfold lift at 1.
    rewrite Hpos. reflexivity. }
  cbn [py_get] in Efinal. rewrite E1 in Efinal.
  exists c, res, (new2 ++ later). split; [ | exact Hcat ].
  apply (app_inv_tail (trace s)).
  rewrite <- !app_assoc. simpl. simpl in Efinal. exact Efinal.
Qed.

(** C6, as stated, fails where the parent id is falsy without being null.
    A category listed under the empty id is created and registered under
    it, so the [parent_id] of the channel has an entry in [cat_map]; the
    test [if parent_id] takes the empty id for no parent, and the channel is
    created under no category. *)
Lemma channel_with_empty_parent_id_gets_no_category :
  let data := category_and_channel (PStr "") in
  let s1 := snd (categories_create accepting target_guild data idle) in
  let s2 := snd (channels_create accepting target_guild data s1) in
  lookup (cat_map s1) (PStr "") = Some (mkObj 101 "new")
  /\ py_get (general_channel (PStr "")) "parent_id" PNone = Ok (PStr "")
  /\ mutations (trace s2) =
     [ Api (CreateTextChannel (PStr "general") None [] 0
              (Some PNone) (Some 0) (Some (PBool false)))
           (Ok (mkObj 106 "new"));
       Api (ChannelEditPosition (mkObj 101 "new") 0) (Ok (mkObj 101 "new"));
       Api (CreateCategory (PStr "Lounge") []) (Ok (mkObj 101 "new")) ].
Proof. vm_compute. repeat split. Qed.

(** A parent id that cannot be a key of a dict makes the lookup itself
    raise, outside the [try] block of the channel. *)
Lemma channel_with_unhashable_parent_id_raises :
  fst (channel_item accepting target_guild
         (PDict [("id", PStr "7"); ("type", PInt 0);
                 ("parent_id", PList [PInt 1])]) idle)
  = Raise TypeError.
Proof. reflexivity. Qed.

Lemma channel_item_uses_resolved_category_witness :
  let s := with_cats [(PStr "10", lobby)] in
  py_get (general_channel (PStr "10")) "parent_id" PNone = Ok (PStr "10")
  /\ (truthy (PStr "10") = false \/ hashable (PStr "10") = true)
  /\ (resolve_category (cat_map s) (PStr "10")
        = Ok (parent_of (cat_map s) (PStr "10"))
      /\ exists new,
           trace (snd (channel_item accepting target_guild
                         (general_channel (PStr "10")) s)) = new ++ trace s
           /\ Forall (under_category (parent_of (cat_map s) (PStr "10"))) new
           /\ (readable (general_channel (PStr "10")) s target_guild ->
               exists c res later,
                 new = later ++ [Api c res; Wait]
                 /\ category_of c = Some (parent_of (cat_map s) (PStr "10")))).
Proof.
  intros s. split; [ reflexivity | ]. split; [ right; reflexivity | ].
  apply (channel_item_uses_resolved_category accepting target_guild
           (general_channel (PStr "10")) (PStr "10") s).
  - reflexivity.
  - right. reflexivity.
Defined.

(** In the sample run the channel is indeed created under the registered
    category. *)
Example channel_created_under_registered_category :
  mutations (trace (snd (channel_item accepting target_guild
                           (general_channel (PStr "10"))
                           (with_cats [(PStr "10", lobby)]))))
  = [ Api (CreateTextChannel (PStr "general") (Some lobby) [] 0
             (Some PNone) (Some 0) (Some (PBool false)))
          (Ok (mkObj 101 "new")) ].
Proof. reflexivity. Qed.

(** ** [CloneBot]: what guards the destructive entry points *)

Section Guards.

Variable env : services.

(** [check_target] answers with the guild exactly when the precondition
    holds; otherwise it answers [None] and writes one line to the log.  It
    never raises and does nothing else. *)
Lemma check_target_ready (s : state) (g : guild) :
  target_ready s g -> check_target s = (Ok (Some g), s).
Proof.
  intros [guilds [id [Hc [Ht [Hid [Hg [Hmc Hmr]]]]]]].
  unfold check_target. rewrite bind_read, Hc, bind_read, Ht.
  apply Z.eqb_neq in Hid. rewrite Hid, Hg, Hmc, Hmr. reflexivity.
Qed.

Lemma check_target_cases (s : state) :
  (exists g, target_ready s g /\ check_target s = (Ok (Some g), s))
  \/ ((forall g, ~ target_ready s g)
      /\ exists msg, check_target s = (Ok None, noticed "err" msg s)).
Proof.
  unfold check_target, target_ready, noticed, log.
  rewrite bind_read.
  destruct (client s) as [guilds | ] eqn:Hc.
  2:{ right. split; [ intros g [? [? [H _]]]; discriminate H | ]. eexists. reflexivity. }
  rewrite bind_read.
  destruct (target_id s) as [id | ] eqn:Ht.
  2:{ right. split; [ intros g [? [? [_ [H _]]]]; discriminate H | ]. eexists. reflexivity. }
  destruct (id =? 0) eqn:Hid.
  { right. apply Z.eqb_eq in Hid. split.
    - intros g [? [? [_ [H [Hn _]]]]]. injection H as <-. contradiction.
    - eexists. reflexivity. }
  destruct (get_guild guilds id) as [g | ] eqn:Hg.
  2:{ right. split.
      - intros g [? [? [H1 [H2 [_ [H3 _]]]]]].
        injection H1 as <-. injection H2 as <-. congruence.
      - eexists. reflexivity. }
  destruct (manage_channels g) eqn:Hmc, (manage_roles g) eqn:Hmr; simpl.
  1:{ left. exists g. split; [ | reflexivity ].
      exists guilds, id. apply Z.eqb_neq in Hid. repeat split; assumption. }
  all: right; split; [ | eexists; reflexivity ].
  all: intros g' [? [? [H1 [H2 [_ [H3 [H4 H5]]]]]]].
  all: injection H1 as <-; injection H2 as <-.
  all: rewrite Hg in H3; injection H3 as <-; congruence.
Qed.

End Guards.

(** C7: when the precondition of a run does not hold (no connected bot,
    no target set, target guild not visible to the bot, or one of
    [manage_channels] and [manage_roles] missing), [do_full_clone] returns
    normally, and all it has done is to write one error line to the log:
    no mutating call was issued and no field of the bot or of the cloner
    has changed.  The check is the first thing done once a snapshot is
    present, before the confirmation and before phase 1. *)
Theorem do_full_clone_needs_ready_target :
  forall (env : services) (s : state),
    (forall g, ~ target_ready s g) ->
    exists msg,
      do_full_clone env s = (Ok tt, noticed "err" msg s)
      /\ mutations (trace (noticed "err" msg s)) = mutations (trace s).
Proof.
  intros env s Hnot.
  unfold do_full_clone. rewrite bind_read.
  destruct (scraped_data s) as [data | ].
  - destruct (check_target_cases s) as [[g [Hg _]] | [_ [msg Hcheck]]].
    + exfalso. exact (Hnot g Hg).
    + exists msg. unfold bind at 1. rewrite Hcheck. split; reflexivity.
  - eexists. split; reflexivity.
Qed.

Lemma do_full_clone_needs_ready_target_witness :
  (forall g, ~ target_ready (restricted ["clone"; ""]) g)
  /\ exists msg,
       do_full_clone accepting (restricted ["clone"; ""])
         = (Ok tt, noticed "err" msg (restricted ["clone"; ""]))
       /\ mutations (trace (noticed "err" msg (restricted ["clone"; ""])))
          = mutations (trace (restricted ["clone"; ""])).
Proof.
  assert (H : forall g, ~ target_ready (restricted ["clone"; ""]) g).
  { intros g [guilds [id [Hc [Ht [_ [Hg [_ Hmr]]]]]]].
    simpl in Hc, Ht. injection Hc as <-. injection Ht as <-.
    vm_compute in Hg. injection Hg as <-. discriminate Hmr. }
  split; [ exact H | ].
  exact (do_full_clone_needs_ready_target accepting (restricted ["clone"; ""]) H).
Defined.

(** With the precondition met and the word typed, the run does mutate. *)
Example do_full_clone_runs_when_ready :
  List.length (mutations (trace (snd (do_full_clone accepting (loaded ["clone"; ""])))))
  = 9%nat.
Proof. vm_compute. reflexivity. Qed.

(** *** The confirmation *)

Lemma untouched_noticed (lvl msg : string) (s : state) :
  untouched s (noticed lvl msg s).
Proof. repeat split. Qed.

(** [get_input] either finds no line and raises, or consumes the line and
    answers with it stripped; the target and the tables are not touched. *)
Lemma get_input_cases (prompt : string) (s : state) :
  (stdin s = [] /\ get_input prompt s = (Raise EOFError, s))
  \/ exists line rest,
       stdin s = line :: rest
       /\ get_input prompt s =
          (Ok (strip line),
           set_trace (Prompt prompt line :: trace s) (set_stdin rest s)).
Proof.
  unfold get_input, bind, input, emit, modify, ret.
  destruct (stdin s) as [ | line rest].
  - left. split; reflexivity.
  - right. exists line, rest. split; reflexivity.
Qed.

Section Confirmation.

Variable env : services.

(** What an entry point does when its word is not typed: a prompt that
    is answered otherwise, or not answered at all, leaves the target and
    the tables alone. *)
Lemma declined_prompt (prompt word : string) (s0 s : state) (go : M unit) :
  untouched s0 s -> stdin s = stdin s0 ->
  ~ confirms s0 word ->
  exists s',
    untouched s0 s'
    /\ ((answer <- get_input prompt ;;
         if negb (String.eqb answer word) then ret tt else go) s = (Ok tt, s')
        \/ (answer <- get_input prompt ;;
            if negb (String.eqb answer word) then ret tt else go) s
           = (Raise EOFError, s')).
Proof.
  intros Hu Hin Hno.
  destruct (get_input_cases prompt s) as [[_ Hg] | [line [rest [Hs Hg]]]].
  - rewrite (bind_raise _ _ _ _ _ Hg). exists s. auto.
  - rewrite (bind_ok _ _ _ _ _ Hg).
    destruct (String.eqb (strip line) word) eqn:E.
    + exfalso. apply Hno. exists line, rest. rewrite <- Hin.
      apply String.eqb_eq in E. auto.
    + eexists. split; [ | left; reflexivity ].
      eapply untouched_trans; [ exact Hu | ]. repeat split.
Qed.

Lemma do_full_clone_declined (s : state) :
  ~ confirms s "clone" ->
  exists s',
    untouched s s'
    /\ (do_full_clone env s = (Ok tt, s')
        \/ do_full_clone env s = (Raise EOFError, s')).
Proof.
  intros Hno. unfold do_full_clone. rewrite bind_read.
  destruct (scraped_data s) as [data | ].
  2:{ eexists. split; [ | left; reflexivity ]. repeat split. }
  destruct (check_target_cases s) as [[g [_ Hc]] | [_ [msg Hc]]];
    rewrite (bind_ok _ _ _ _ _ Hc).
  - destruct (has_name (snap_guild data)); cbn [negb].
    + apply declined_prompt; [ apply untouched_refl | reflexivity | exact Hno ].
    + eexists. split; [ | left; reflexivity ]. repeat split.
  - eexists. split; [ | left; reflexivity ]. repeat split.
Qed.

Lemma do_delete_roles_declined (s : state) :
  ~ confirms s "delete" ->
  exists s',
    untouched s s'
    /\ (do_delete_roles env s = (Ok tt, s')
        \/ do_delete_roles env s = (Raise EOFError, s')).
Proof.
  intros Hno. unfold do_delete_roles.
  destruct (check_target_cases s) as [[g [_ Hc]] | [_ [msg Hc]]];
    rewrite (bind_ok _ _ _ _ _ Hc).
  - apply declined_prompt; [ apply untouched_refl | reflexivity | exact Hno ].
  - eexists. split; [ | left; reflexivity ]. repeat split.
Qed.

Lemma do_delete_channels_declined (s : state) :
  ~ confirms s "delete" ->
  exists s',
    untouched s s'
    /\ (do_delete_channels env s = (Ok tt, s')
        \/ do_delete_channels env s = (Raise EOFError, s')).
Proof.
  intros Hno. unfold do_delete_channels.
  destruct (check_target_cases s) as [[g [_ Hc]] | [_ [msg Hc]]];
    rewrite (bind_ok _ _ _ _ _ Hc).
  - apply declined_prompt; [ apply untouched_refl | reflexivity | exact Hno ].
  - eexists. split; [ | left; reflexivity ]. repeat split.
Qed.

End Confirmation.

(** C10, as stated, fails: the word is compared after [get_input] has
    stripped the line.  Typed with a space after it, ["delete "] is not
    exactly ["delete"], and the role is deleted; [" clone"] is not exactly
    ["clone"], and the tables are reset and the target is changed. *)
Lemma padded_confirmation_is_accepted :
  "delete " <> "delete"
  /\ mutations (trace (snd (do_delete_roles accepting (loaded ["delete "; ""]))))
     = [Api (RoleDelete mods) (Ok mods)]
  /\ " clone" <> "clone"
  /\ cat_map (loaded [" clone"; ""]) = [(PStr "10", lobby)]
  /\ cat_map (snd (do_full_clone accepting (loaded [" clone"; ""])))
     = [(PStr "10", mkObj 120 "new")]
  /\ List.length
       (mutations (trace (snd (do_full_clone accepting (loaded [" clone"; ""])))))
     = 9%nat.
Proof. vm_compute. repeat split; discriminate. Qed.

(** C10, amended: each destructive entry point goes on only when the
    line typed at its prompt is the word once the white space around it is
    removed.  In every other case (another word, or no line at all)
    [do_full_clone] for ["clone"], and [do_delete_roles] and
    [do_delete_channels] for ["delete"], return without a mutating call
    and with the three tables as they were. *)
Theorem entry_points_need_the_word :
  forall (env : services) (s : state),
    (~ confirms s "clone" ->
     exists s',
       untouched s s'
       /\ (do_full_clone env s = (Ok tt, s')
           \/ do_full_clone env s = (Raise EOFError, s')))
    /\ (~ confirms s "delete" ->
        (exists s',
           untouched s s'
           /\ (do_delete_roles env s = (Ok tt, s')
               \/ do_delete_roles env s = (Raise EOFError, s')))
        /\ (exists s',
              untouched s s'
              /\ (do_delete_channels env s = (Ok tt, s')
                  \/ do_delete_channels env s = (Raise EOFError, s')))).
Proof.
  intros env s. split.
  - apply do_full_clone_declined.
  - intros H. split.
    + now apply do_delete_roles_declined.
    + now apply do_delete_channels_declined.
Qed.

Lemma not_confirmed (lines : list string) (word : string) :
  match lines with
  | [] => True
  | line :: _ => String.eqb (strip line) word = false
  end ->
  ~ confirms (loaded lines) word.
Proof.
  intros H [line [rest [Hs Hw]]]. simpl in Hs. subst lines.
  rewrite Hw, String.eqb_refl in H. discriminate H.
Qed.

Lemma entry_points_need_the_word_witness :
  ~ confirms (loaded ["Clone"; ""]) "clone"
  /\ ~ confirms (loaded ["Clone"; ""]) "delete"
  /\ (exists s',
        untouched (loaded ["Clone"; ""]) s'
        /\ (do_full_clone accepting (loaded ["Clone"; ""]) = (Ok tt, s')
            \/ do_full_clone accepting (loaded ["Clone"; ""]) = (Raise EOFError, s')))
  /\ (exists s',
        untouched (loaded ["Clone"; ""]) s'
        /\ (do_delete_roles accepting (loaded ["Clone"; ""]) = (Ok tt, s')
            \/ do_delete_roles accepting (loaded ["Clone"; ""])
               = (Raise EOFError, s'))).
Proof.
  assert (Hc : ~ confirms (loaded ["Clone"; ""]) "clone")
    by (apply not_confirmed; reflexivity).
  assert (Hd : ~ confirms (loaded ["Clone"; ""]) "delete")
    by (apply not_confirmed; reflexivity).
  destruct (entry_points_need_the_word accepting (loaded ["Clone"; ""]))
    as [Hclone Hdelete].
  split; [ exact Hc | ]. split; [ exact Hd | ].
  split; [ exact (Hclone Hc) | exact (proj1 (Hdelete Hd)) ].
Defined.

(** ** Failures of the target service inside the phases *)

Lemma cons_prefix (e : event) (l new t : list event) :
  l = new ++ t -> e :: l = (e :: new) ++ t.
Proof. intros ->. reflexivity. Qed.

Lemma nil_prefix (t : list event) : t = [] ++ t.
Proof. reflexivity. Qed.

Lemma logged_from_weaken (tr : list event) (b : bool) :
  logged_from false tr = true -> logged_from b tr = true.
Proof.
  destruct tr as [ | e older]; [ reflexivity | ]. simpl.
  rewrite !andb_true_iff. intros [H1 H2]. split; [ | exact H2 ].
  destruct e; try reflexivity. destruct r; [ reflexivity | ].
  rewrite orb_false_r in H1. now rewrite H1.
Qed.

Lemma logged_from_app (new2 new1 : list event) : forall b,
  logged_from b new2 = true -> logged new1 = true ->
  logged_from b (new2 ++ new1) = true.
Proof.
  induction new2 as [ | e new2 IH]; simpl; intros b H2 H1.
  - now apply logged_from_weaken.
  - apply andb_true_iff in H2. destruct H2 as [Ha Hb].
    rewrite Ha. simpl. now apply IH.
Qed.

Lemma logged_app (new2 new1 : list event) :
  logged new2 = true -> logged new1 = true -> logged (new2 ++ new1) = true.
Proof. apply logged_from_app. Qed.

Lemma count_errors_app (a b : list event) :
  count_errors (a ++ b) = (count_errors a + count_errors b)%nat.
Proof. unfold count_errors. now rewrite filter_app, length_app. Qed.

(** A loop whose every turn is accounted for goes through the whole list. *)
Lemma for_each_accounted {X} (body : X -> M unit) (xs : list X) :
  (forall x, In x xs -> forall s, accounted s (body x s)) ->
  forall s, exists s' new,
    for_each xs body s = (Ok tt, s')
    /\ trace s' = new ++ trace s
    /\ completed s' = (completed s + List.length xs)%nat
    /\ total s' = total s
    /\ errors s' = (errors s + count_errors new)%nat
    /\ logged new = true.
Proof.
  induction xs as [ | x xs IH]; intros Hbody s.
  - exists s, []. simpl. repeat split; auto with arith.
  - destruct (Hbody x (or_introl eq_refl) s)
      as [s1 [new1 [E1 [T1 [C1 [N1 [R1 L1]]]]]]].
    destruct (IH (fun y Hy => Hbody y (or_intror Hy)) s1)
      as [s2 [new2 [E2 [T2 [C2 [N2 [R2 L2]]]]]]].
    exists s2, (new2 ++ new1). simpl.
    rewrite (bind_ok _ _ _ _ _ E1), E2.
    split; [ reflexivity | ].
    split; [ rewrite T2, T1; apply app_assoc | ].
    split; [ rewrite C2, C1; lia | ].
    split; [ congruence | ].
    split; [ rewrite R2, R1, count_errors_app; lia | ].
    now apply logged_app.
Qed.

(** Closing a turn that has been run: the events appended are read off the
    final trace. *)
Ltac read_off :=
  do 2 eexists; split; [ reflexivity | ];
  split; [ cbn; repeat (eapply cons_prefix); apply nil_prefix | ];
  cbn; repeat split; lia.

(** *** Sorting and filtering keep the items *)

Lemma insert_by_perm {X} (k : Z) (x : X) (l : list (Z * X)) :
  Permutation (insert_by k x l) ((k, x) :: l).
Proof.
  induction l as [ | [k' y] l IH]; simpl; [ reflexivity | ].
  destruct (k <=? k'); [ reflexivity | ].
  rewrite IH. apply perm_swap.
Qed.

Lemma sort_keyed_perm {X} (l : list (Z * X)) : Permutation (sort_keyed l) l.
Proof.
  induction l as [ | [k x] l IH]; simpl; [ reflexivity | ].
  rewrite insert_by_perm. now constructor.
Qed.

Lemma map_result_all {X Y} (f : X -> result Y) (xs : list X) :
  Forall (fun x => exists y, f x = Ok y) xs ->
  exists ys, map_result f xs = Ok ys /\ List.length ys = List.length xs.
Proof.
  induction 1 as [ | x xs [y Hy] _ [ys [IH Hl]]]; simpl.
  - exists []. auto.
  - exists (y :: ys). rewrite Hy, IH. simpl. auto.
Qed.

Lemma map_snd_combine {X} (ks : list Z) (xs : list X) :
  List.length ks = List.length xs -> map snd (combine ks xs) = xs.
Proof.
  revert xs. induction ks as [ | k ks IH]; intros [ | x xs]; simpl;
    try discriminate; auto.
  intros H. f_equal. apply IH. lia.
Qed.

(** With readable keys, [sorted] returns the items in another order. *)
Lemma sorted_by_perm {X} (key : X -> result Z) (xs : list X) :
  Forall (fun x => exists z, key x = Ok z) xs ->
  exists ys, sorted_by key xs = Ok ys /\ Permutation ys xs.
Proof.
  intros H. destruct (map_result_all key xs H) as [ks [Hk Hl]].
  unfold sorted_by. rewrite Hk. simpl. eexists. split; [ reflexivity | ].
  rewrite (sort_keyed_perm (combine ks xs)).
  now rewrite map_snd_combine.
Qed.

Lemma filter_result_all {X} (f : X -> result bool) (fb : X -> bool) (xs : list X) :
  Forall (fun x => f x = Ok (fb x)) xs ->
  filter_result f xs = Ok (filter fb xs).
Proof.
  induction 1 as [ | x xs Hx _ IH]; simpl; [ reflexivity | ].
  rewrite Hx, IH. simpl. destruct (fb x); reflexivity.
Qed.

Lemma py_get_field (v : pyval) (k : string) (dflt : pyval) :
  is_dict v -> py_get v k dflt = Ok (field v k dflt).
Proof. intros [d ->]. reflexivity. Qed.

Lemma int_field_is_dict (v : pyval) (k : string) (z : Z) :
  int_field v k = Ok z -> is_dict v.
Proof.
  destruct v; try discriminate. intros _. eexists. reflexivity.
Qed.

(** Overwrites with readable numeric fields are translated without error,
    whatever the role table holds. *)
Lemma parse_overwrite_ok (roles : remap) (sid : option Z) (g : guild)
    (acc : overwrites) (ow : pyval) :
  (forall k, exists z, int_field ow k = Ok z) ->
  exists acc', parse_overwrite roles sid g acc ow = Ok acc'.
Proof.
  intros H.
  destruct (H "id") as [id Hid], (H "allow") as [al Hal], (H "deny") as [de Hde].
  destruct (int_field_is_dict _ _ _ Hid) as [d ->].
  unfold int_field in *. cbn [py_get rbind] in *.
  unfold parse_overwrite. cbn [py_get rbind].
  rewrite Hid, Hal, Hde. cbn [rbind].
  destruct (eq_int _ 0); [ | eauto ].
  cbn. destruct (lookup roles (PInt id)); [ eauto | ].
  destruct (is_source sid id); eauto.
Qed.

Lemma translate_ok (v : pyval) (roles : remap) (sid : option Z) (g : guild) :
  overwrites_ok v -> exists o, translate roles sid v g = Ok o.
Proof.
  intros [items [-> Hall]]. unfold translate. cbn [py_iter rbind].
  generalize (@nil (obj * (Z * Z))).
  induction Hall as [ | ow items How _ IH]; intros acc; simpl; [ eauto | ].
  destruct (parse_overwrite_ok roles sid g acc ow How) as [acc' ->].
  simpl. apply IH.
Qed.

Section Phases.

Variable env : services.
Hypothesis Henv : http_only env.

(** One request, under the hypothesis on the service. *)
Ltac call_service :=
  match goal with
  | |- context [api env ?h ?c] =>
      lazymatch h with
      | context [api] => fail
      | _ =>
          let E := fresh "E" in
          destruct (api env h c) as [? | ?] eqn:E;
          [ | let H := fresh "H" in
              destruct (Henv _ _ _ E) as [H | H]; rewrite H in * ]
      end
  end; cbn.

Ltac unfold_run :=
  unfold accounted, rate_wait, log_add, log_delete, log_error, incr_completed,
    set_operation, set_total, set_completed, print_status,
    register_role, register_cat, register_chan, parse_permission_overwrites,
    except_Exception,
    bind, try_except, request, download, emit, modify, read, lift, ret.

(** The loop of a phase and the status line after it. *)
Lemma loop_and_status {X} (body : X -> M unit) (xs : list X) (s s0 : state) :
  (forall x, In x xs -> forall s, accounted s (body x s)) ->
  trace s0 = trace s -> errors s0 = errors s ->
  completed s0 = 0%nat -> total s0 = List.length xs ->
  exists s' new,
    (for_each xs body ;; print_status) s0 = (Ok tt, s')
    /\ trace s' = new ++ trace s
    /\ completed s' = List.length xs
    /\ total s' = List.length xs
    /\ errors s' = (errors s + count_errors new)%nat
    /\ logged new = true.
Proof.
  intros Hbody Htr Her Hc Ht.
  destruct (for_each_accounted body xs Hbody s0)
    as [s1 [new [E1 [T1 [C1 [N1 [R1 L1]]]]]]].
  rewrite (bind_ok _ _ _ _ _ E1). unfold print_status, emit, modify.
  eexists. exists (Status (current_operation s1) (completed s1) (total s1) (errors s1) :: new).
  split; [ reflexivity | ]. cbn. rewrite T1, Htr.
  split; [ reflexivity | ].
  split; [ lia | ]. split; [ congruence | ].
  split; [ rewrite <- Her; exact R1 | exact L1 ].
Qed.

Lemma roles_delete_completes (g : guild) :
  completes_phase (roles_delete env g) (List.length (deletable_roles g)).
Proof.
  intros s. unfold roles_delete, set_operation, set_total, set_completed.
  rewrite !bind_modify. fold (deletable_roles g).
  apply loop_and_status; [ | reflexivity | reflexivity | reflexivity | reflexivity ].
  intros role _ s1. unfold_run. cbn.
  call_service; read_off.
Qed.

Lemma channels_delete_completes (g : guild) :
  completes_phase (channels_delete env g) (List.length (guild_channels g)).
Proof.
  intros s. unfold channels_delete, set_operation, set_total, set_completed.
  rewrite !bind_modify.
  apply loop_and_status; [ | reflexivity | reflexivity | reflexivity | reflexivity ].
  intros channel _ s1. unfold_run. cbn.
  call_service; read_off.
Qed.

Lemma emojis_delete_completes (g : guild) :
  completes_phase (emojis_delete env g) (List.length (guild_emojis g)).
Proof.
  intros s. unfold emojis_delete, set_operation, set_total, set_completed.
  rewrite !bind_modify.
  destruct (guild_emojis g) as [ | e es] eqn:Eg.
  - do 2 eexists. split; [ reflexivity | ].
    split; [ apply nil_prefix | ]. cbn. repeat split; lia.
  - apply loop_and_status; [ | reflexivity | reflexivity | reflexivity | reflexivity ].
    intros emoji _ s1. unfold_run. cbn.
    call_service; read_off.
Qed.

(** One read that may raise, inside a [try] block. *)
Ltac case_lift :=
  match goal with
  | |- context [match safe_int ?v ?d with _ => _ end] =>
      destruct (safe_int v d) as [? | []] eqn:?
  | |- context [match remap_set ?m ?k ?v with _ => _ end] =>
      destruct (remap_set m k v) as [? | []] eqn:?
  | |- context [match cdn env ?h ?u with _ => _ end] =>
      destruct (cdn env h u) as [[? ?] | []] eqn:?
  end; cbn.

Ltac run_turn := repeat first [ read_off | call_service | case_lift ].

(** The reposition pass goes through all the roles; its events are position
    edits only, and it leaves the counters alone. *)
Lemma reorder_roles_quiet (g : guild) (roles_data : list pyval) :
  Forall role_ok roles_data ->
  forall s, exists s' new,
    for_each roles_data (fun role_data =>
      source <- lift (py_get role_data "id" PNone) ;;
      m <- read role_map ;;
      target_role <- lift (remap_get m source) ;;
      match target_role with
      | None => ret tt
      | Some r =>
          if String.eqb (obj_name r) "@everyone" then ret tt
          else
            try_except
              (p <- lift (py_get role_data "position" PNone) ;;
               position <- lift (safe_int p 0) ;;
               request env (RoleEditPosition r position) ;;
               ret tt)
              (except_Exception (fun _ => ret tt))
      end) s = (Ok tt, s')
    /\ trace s' = new ++ trace s
    /\ completed s' = completed s /\ total s' = total s /\ errors s' = errors s
    /\ count_errors new = 0%nat
    /\ forall b, logged_from b new = true.
Proof.
  induction 1 as [ | x xs [[d ->] [_ Hid]] _ IH]; intros s.
  - exists s, []. simpl. repeat split.
  - cbn [for_each]. unfold field in Hid. cbn [py_get] in *.
    match goal with
    | |- exists s' new, bind ?m ?k s = _ /\ _ =>
        assert (Hturn : exists s1 new1,
                  m s = (Ok tt, s1) /\ trace s1 = new1 ++ trace s
                  /\ completed s1 = completed s /\ total s1 = total s
                  /\ errors s1 = errors s
                  /\ count_errors new1 = 0%nat
                  /\ forall b, logged_from b new1 = true)
    end.
    { unfold_run. unfold remap_get. rewrite Hid. cbn.
      destruct (lookup (role_map s) _) as [r | ]; cbn.
      2:{ exists s, []. repeat split. }
      destruct (String.eqb (obj_name r) "@everyone"); cbn.
      1:{ exists s, []. repeat split. }
      destruct (safe_int _ 0) as [position | e]; cbn.
      2:{ exists s, []. repeat split. }
      destruct (api env (trace s) (RoleEditPosition r position)) as [r' | e]; cbn.
      all: eexists; eexists [_]; repeat split; intros b; reflexivity. }
    destruct Hturn as [s1 [new1 [E1 [T1 [C1 [N1 [R1 [K1 L1]]]]]]]].
    destruct (IH s1) as [s2 [new2 [E2 [T2 [C2 [N2 [R2 [K2 L2]]]]]]]].
    exists s2, (new2 ++ new1).
    rewrite (bind_ok _ _ _ _ _ E1), E2.
    split; [ reflexivity | ].
    split; [ rewrite T2, T1; apply app_assoc | ].
    repeat split; try congruence.
    + rewrite count_errors_app. lia.
    + intros b. apply logged_from_app; [ apply L2 | apply L1 ].
Qed.

Lemma roles_create_completes (g : guild) (roles_data : list pyval) :
  Forall role_ok roles_data ->
  completes_phase (roles_create env g roles_data) (List.length roles_data).
Proof.
  intros Hok s. unfold roles_create, set_operation, set_total, set_completed.
  rewrite !bind_modify.
  destruct (sorted_by_perm role_position roles_data) as [sorted [Esort Hperm]].
  { eapply Forall_impl; [ | exact Hok ]. intros r [_ [H _]]. exact H. }
  rewrite Esort, bind_lift_ok.
  assert (Hsorted : Forall role_ok sorted).
  { rewrite Forall_forall in *. intros x Hx. apply Hok.
    now apply (Permutation_in _ Hperm). }
  rewrite <- (Permutation_length Hperm).
  match goal with
  | |- exists s' new, (for_each sorted ?body ;; print_status ;; ?after) ?s0 = _ /\ _ =>
      destruct (loop_and_status body sorted s s0) as [s1 [new1 [E1 [T1 [C1 [N1 [R1 L1]]]]]]];
        [ | reflexivity | reflexivity | reflexivity | reflexivity | ]
  end.
  { intros x Hx s1.
    rewrite Forall_forall in Hsorted. destruct (Hsorted x Hx) as [[d ->] _].
    unfold_run. unfold flag. cbn.
    destruct (eq_str _ "@everyone"); cbn; run_turn. }
  match goal with
  | |- exists s' new, (for_each sorted ?body ;; print_status ;; ?after) ?s0 = _ /\ _ =>
      rewrite <- (bind_bind (for_each sorted body) (fun _ => print_status)
                    (fun _ => after) s0)
  end.
  rewrite (bind_ok _ _ _ _ _ E1).
  unfold reorder_roles, set_operation. rewrite bind_modify.
  match goal with
  | |- exists s' new, for_each sorted _ ?s2 = _ /\ _ =>
      destruct (reorder_roles_quiet g sorted Hsorted s2)
        as [s3 [new3 [E3 [T3 [C3 [N3 [R3 [K3 L3]]]]]]]]
  end.
  exists s3, (new3 ++ new1). rewrite E3.
  split; [ reflexivity | ].
  split; [ rewrite T3; cbn; rewrite T1; apply app_assoc | ].
  cbn in C3, N3, R3.
  split; [ congruence | ]. split; [ congruence | ].
  split; [ rewrite count_errors_app, K3; simpl; congruence | ].
  apply logged_from_app; [ apply L3 | exact L1 ].
Qed.

Ltac known_reads :=
  repeat match goal with
  | H : safe_int ?v 0 = Ok _ |- context [safe_int ?v 0] => rewrite H
  | |- context [translate ?a ?b ?c ?d] =>
      match goal with
      | Hc : overwrites_ok c |- _ =>
          let o := fresh "o" in let Ho := fresh "Ho" in
          destruct (translate_ok c a b d Hc) as [o Ho]; rewrite Ho
      end
  end.

Lemma categories_create_completes (g : guild) (channels_data : list pyval) :
  Forall channel_ok channels_data ->
  completes_phase (categories_create env g channels_data)
    (List.length (categories_of channels_data)).
Proof.
  intros Hok s. unfold categories_create, set_operation.
  rewrite bind_modify.
  rewrite (filter_result_all is_category
             (fun c => eq_int (field c "type" PNone) 4) channels_data).
  2:{ eapply Forall_impl; [ | exact Hok ]. intros c [Hint _].
      destruct (Hint "type") as [z Hz].
      destruct (int_field_is_dict _ _ _ Hz) as [d ->]. reflexivity. }
  rewrite bind_lift_ok. fold (categories_of channels_data).
  assert (Hcats : Forall channel_ok (categories_of channels_data)).
  { rewrite Forall_forall in *. intros x Hx. apply Hok.
    unfold categories_of in Hx. now apply filter_In in Hx. }
  destruct (sorted_by_perm channel_position (categories_of channels_data))
    as [sorted [Esort Hperm]].
  { eapply Forall_impl; [ | exact Hcats ]. intros c [Hint _]. exact (Hint "position"). }
  rewrite Esort, bind_lift_ok.
  assert (Hsorted : Forall channel_ok sorted).
  { rewrite Forall_forall in *. intros x Hx. apply Hcats.
    now apply (Permutation_in _ Hperm). }
  rewrite <- (Permutation_length Hperm).
  unfold set_total, set_completed. rewrite !bind_modify.
  destruct sorted as [ | c0 rest] eqn:Es.
  { do 2 eexists. split; [ reflexivity | ].
    split; [ apply nil_prefix | ]. cbn. repeat split; lia. }
  rewrite <- Es in *. clear Es.
  apply loop_and_status; [ | reflexivity | reflexivity | reflexivity | reflexivity ].
  intros x Hx s1.
  rewrite Forall_forall in Hsorted.
  destruct (Hsorted x Hx) as [Hint [Hid [_ Hows]]].
  destruct (Hint "position") as [pos Hpos].
  destruct (int_field_is_dict _ _ _ Hpos) as [d ->].
  unfold int_field, field in *. cbn [py_get rbind] in *.
  unfold_run. unfold remap_set. cbn. rewrite ?Hid. known_reads. cbn.
  run_turn.
Qed.

Lemma channels_create_completes (g : guild) (channels_data : list pyval) :
  Forall channel_ok channels_data ->
  completes_phase (channels_create env g channels_data)
    (List.length (leaves_of channels_data)).
Proof.
  intros Hok s. unfold channels_create, set_operation.
  rewrite bind_modify.
  rewrite (filter_result_all is_not_category
             (fun c => negb (eq_int (field c "type" PNone) 4)) channels_data).
  2:{ eapply Forall_impl; [ | exact Hok ]. intros c [Hint _].
      destruct (Hint "type") as [z Hz].
      destruct (int_field_is_dict _ _ _ Hz) as [d ->]. reflexivity. }
  rewrite bind_lift_ok. fold (leaves_of channels_data).
  assert (Hleaves : Forall channel_ok (leaves_of channels_data)).
  { rewrite Forall_forall in *. intros x Hx. apply Hok.
    unfold leaves_of in Hx. now apply filter_In in Hx. }
  destruct (sorted_by_perm channel_position (leaves_of channels_data))
    as [sorted [Esort Hperm]].
  { eapply Forall_impl; [ | exact Hleaves ]. intros c [Hint _]. exact (Hint "position"). }
  rewrite Esort, bind_lift_ok.
  assert (Hsorted : Forall channel_ok sorted).
  { rewrite Forall_forall in *. intros x Hx. apply Hleaves.
    now apply (Permutation_in _ Hperm). }
  rewrite <- (Permutation_length Hperm).
  unfold set_total, set_completed. rewrite !bind_modify.
  destruct sorted as [ | c0 rest] eqn:Es.
  { do 2 eexists. split; [ reflexivity | ].
    split; [ apply nil_prefix | ]. cbn. repeat split; lia. }
  rewrite <- Es in *. clear Es.
  apply loop_and_status; [ | reflexivity | reflexivity | reflexivity | reflexivity ].
  intros x Hx s1.
  rewrite Forall_forall in Hsorted.
  destruct (Hsorted x Hx) as [Hint [Hid [Hparent Hows]]].
  destruct (Hint "position") as [pos Hpos].
  destruct (Hint "type") as [chan_type Htype].
  destruct (int_field_is_dict _ _ _ Hpos) as [d ->].
  unfold int_field, field in *. cbn [py_get rbind] in *.
  unfold channel_item, create_channel. unfold_run. unfold remap_set. cbn.
  rewrite (resolve_category_parent_of (cat_map s1) _ Hparent).
  rewrite ?Hid. known_reads. cbn.
  destruct (chan_type =? 0); [ cbn; run_turn | ].
  destruct (chan_type =? 2); [ cbn; run_turn | ].
  destruct (chan_type =? 5); [ cbn; run_turn | ].
  destruct (chan_type =? 13); [ cbn; run_turn | ].
  destruct (chan_type =? 15); cbn; run_turn.
Qed.

Lemma emojis_create_completes (g : guild) (emojis_data : list pyval) :
  Forall is_dict emojis_data ->
  completes_phase (emojis_create env g emojis_data) (List.length emojis_data).
Proof.
  intros Hok s. unfold emojis_create, set_operation, set_total, set_completed.
  rewrite !bind_modify.
  destruct emojis_data as [ | e0 rest] eqn:Es.
  { do 2 eexists. split; [ reflexivity | ].
    split; [ apply nil_prefix | ]. cbn. repeat split; lia. }
  rewrite <- Es in *. clear Es.
  apply loop_and_status; [ | reflexivity | reflexivity | reflexivity | reflexivity ].
  intros x Hx s1.
  rewrite Forall_forall in Hok. destruct (Hok x Hx) as [d ->].
  unfold_run. unfold flag. cbn.
  destruct (truthy match assoc "id" d with Some x => x | None => PNone end); cbn.
  2:{ read_off. }
  case_lift.
  - destruct (_ =? 200); cbn; run_turn.
  - read_off.
  - read_off.
  - read_off.
  - read_off.
  - read_off.
  - read_off.
  - read_off.
  - read_off.
Qed.

End Phases.



Lemma sample_roles_ok : Forall role_ok (snap_roles sample_snapshot).
Proof.
  repeat constructor; try (eexists; reflexivity).
Qed.

Lemma int_fields_of_dict (d : list (string * pyval)) :
  Forall (fun kv => exists z, safe_int (snd kv) 0 = Ok z) d ->
  forall k, exists z, int_field (PDict d) k = Ok z.
Proof.
  intros H k. unfold int_field. simpl.
  induction H as [ | [k' x] d Hx _ IH]; simpl.
  - eexists. reflexivity.
  - destruct (String.eqb k k'); [ exact Hx | exact IH ].
Qed.

Lemma sample_channels_ok : Forall channel_ok (snap_channels sample_snapshot).
Proof.
  assert (Hows : overwrites_ok (PList [])) by (exists []; split; constructor).
  assert (Hone : forall d,
             Forall (fun kv => exists z, safe_int (snd kv) 0 = Ok z) d ->
             hashable (field (PDict d) "id" PNone) = true ->
             hashable (field (PDict d) "parent_id" PNone) = true ->
             field (PDict d) "permission_overwrites" (PList []) = PList [] ->
             channel_ok (PDict d)).
  { intros d Hd Hid Hp Ho. split; [ now apply int_fields_of_dict | ].
    split; [ exact Hid | ]. split; [ right; exact Hp | ].
    rewrite Ho. exact Hows. }
  constructor; [ | constructor; [ | constructor ] ].
  all: apply Hone; try reflexivity.
  all: repeat constructor; eexists; reflexivity.
Qed.


(** What the refused run of the deletion looks like: both roles are tried,
    both refusals are logged and counted. *)
Example roles_delete_refused :
  let r := roles_delete refusing crowded_guild idle in
  fst r = Ok tt
  /\ rev (trace (snd r))
     = [ Wait; Api (RoleDelete mods) (Raise Forbidden);
         LogError "forbidden: " (PStr "mods") None;
         Wait; Api (RoleDelete guests) (Raise Forbidden);
         LogError "forbidden: " (PStr "guests") None;
         Status "Deleting Roles" 2 2 2 ].
Proof. vm_compute. split; reflexivity. Qed.

(** The change of the guild itself is guarded against [Forbidden] only: an
    HTTP error of the first call of a run leaves [do_full_clone]. *)
Remark guild_edit_lets_http_error_out :
  fst (do_full_clone rename_rejecting (loaded ["clone"; ""]))
  = Raise HTTPException.
Proof. reflexivity. Qed.

(** ** The tables after a run *)

(** C1: a category that was created but whose position could not be set
    is not registered.  The creation call returned the category; the edit
    that follows it in the same [try] block failed with an HTTP error, so the
    assignment to [cat_map] was skipped and the failure was logged as one of
    the category.  The channel below it, listed with this category as its
    parent, is then created under no category. *)
Theorem categories_create_loses_created_category :
  let data := category_and_channel (PStr "10") in
  let s1 := snd (categories_create position_rejecting target_guild data idle) in
  let s2 := snd (channels_create position_rejecting target_guild data s1) in
  rev (trace s1)
  = [ Wait;
      Api (CreateCategory (PStr "Lounge") []) (Ok (mkObj 101 "new"));
      Api (ChannelEditPosition (mkObj 101 "new") 0) (Raise HTTPException);
      LogError "http error: " (PStr "Lounge") (Some HTTPException);
      Status "Creating Categories" 1 1 1 ]
  /\ cat_map s1 = []
  /\ mutations (trace s2)
     = Api (CreateTextChannel (PStr "general") None [] 0
              (Some PNone) (Some 0) (Some (PBool false)))
           (Ok (mkObj 106 "new"))
       :: mutations (trace s1).
Proof. vm_compute. repeat split. Qed.

(** With a service that accepts the edit, the same category is registered
    and the channel is created below it. *)
Example categories_create_registers_category :
  let data := category_and_channel (PStr "10") in
  let s1 := snd (categories_create accepting target_guild data idle) in
  cat_map s1 = [(PStr "10", mkObj 101 "new")].
Proof. reflexivity. Qed.


(** ** The scenarios of the specification, run *)

(** Scenario A: three groups, one container, two leaves below it: the
    groups are created in the order of their positions, the leaves under the
    new container, the tables hold six entries and no error line is
    written. *)
Example scenario_a :
  let r := do_full_clone accepting scenario in
  fst r = Ok tt
  /\ created_roles (trace (snd r)) = [PStr "a"; PStr "b"; PStr "c"]
  /\ map fst (role_map (snd r)) = [PStr "100"; PStr "101"; PStr "102"]
  /\ cat_map (snd r) = [(PStr "10", mkObj 119 "new")]
  /\ map fst (chan_map (snd r)) = [PStr "70"; PStr "71"]
  /\ categories_used (trace (snd r))
     = [Some (mkObj 119 "new"); Some (mkObj 119 "new")]
  /\ count_errors (trace (snd r)) = 0%nat.
Proof. vm_compute. repeat split. Qed.

(** Scenario B: the creation of one of the three groups is forbidden: the
    table of groups has the two other entries, in order, and the phase
    counts one error. *)
Example scenario_b :
  let r := roles_create (forbidding_role "b") empty_guild
             (snap_roles scenario_snapshot) scenario in
  fst r = Ok tt
  /\ created_roles (trace (snd r)) = [PStr "a"; PStr "c"]
  /\ map fst (role_map (snd r)) = [PStr "100"; PStr "102"]
  /\ errors (snd r) = 1%nat.
Proof. vm_compute. repeat split. Qed.

(** ** What the tables hold after the creation phases *)

Lemma replay_app (m : remap) (l1 l2 : list (pyval * obj)) :
  replay (replay m l1) l2 = replay m (l1 ++ l2).
Proof. unfold replay. now rewrite fold_left_app. Qed.

Lemma handles_app (handle_of : event -> option obj) (new2 new1 : list event) :
  handles handle_of (new2 ++ new1)
  = handles handle_of new1 ++ handles handle_of new2.
Proof. unfold handles. now rewrite rev_app_distr, flat_map_app. Qed.

Section Registered.

Variable tbl : state -> remap.
Variable handle_of : event -> option obj.
Variable ids : list pyval.

Lemma registered_refl (s : state) : registered tbl handle_of ids s s.
Proof.
  exists [], []. repeat split. intros k [].
Qed.

Lemma registered_trans (a b c : state) :
  registered tbl handle_of ids a b -> registered tbl handle_of ids b c ->
  registered tbl handle_of ids a c.
Proof.
  intros [n1 [l1 [T1 [M1 [H1 I1]]]]] [n2 [l2 [T2 [M2 [H2 I2]]]]].
  exists (n2 ++ n1), (l1 ++ l2).
  split; [ rewrite T2, T1; apply app_assoc | ].
  split; [ rewrite M2, M1; apply replay_app | ].
  split; [ rewrite map_app, handles_app; congruence | ].
  rewrite map_app. now apply incl_app.
Qed.

(** A step that writes neither to the table nor an event that gives an
    object. *)
Lemma registered_silent (s s' : state) (new : list event) :
  trace s' = new ++ trace s -> tbl s' = tbl s ->
  handles handle_of new = [] ->
  registered tbl handle_of ids s s'.
Proof.
  intros T M H. exists new, []. rewrite H. repeat split; auto. intros k [].
Qed.

End Registered.

Lemma registered_weaken (tbl : state -> remap) (handle_of : event -> option obj)
    (ids ids' : list pyval) (s s' : state) :
  incl ids ids' -> registered tbl handle_of ids s s' ->
  registered tbl handle_of ids' s s'.
Proof.
  intros Hi [new [ledger [T [M [H I]]]]]. exists new, ledger.
  repeat split; auto. eapply incl_tran; eauto.
Qed.

Lemma registered_among_refl (tbl : state -> remap)
    (handle_of : event -> option obj) (ids : list pyval) (s : state) :
  registered_among tbl handle_of ids s s.
Proof.
  exists [], []. repeat split; intros k [].
Qed.

Lemma registered_among_trans (tbl : state -> remap)
    (handle_of : event -> option obj) (ids : list pyval) (a b c : state) :
  registered_among tbl handle_of ids a b ->
  registered_among tbl handle_of ids b c ->
  registered_among tbl handle_of ids a c.
Proof.
  intros [n1 [l1 [T1 [M1 [H1 I1]]]]] [n2 [l2 [T2 [M2 [H2 I2]]]]].
  exists (n2 ++ n1), (l1 ++ l2).
  split; [ rewrite T2, T1; apply app_assoc | ].
  split; [ rewrite M2, M1; apply replay_app | ].
  split.
  - rewrite map_app, handles_app.
    apply incl_app; [ now apply incl_appl | now apply incl_appr ].
  - rewrite map_app. now apply incl_app.
Qed.

Lemma registered_among_weaken (tbl : state -> remap)
    (handle_of : event -> option obj) (ids ids' : list pyval) (s s' : state) :
  incl ids ids' -> registered_among tbl handle_of ids s s' ->
  registered_among tbl handle_of ids' s s'.
Proof.
  intros Hi [new [ledger [T [M [H I]]]]]. exists new, ledger.
  repeat split; auto. eapply incl_tran; eauto.
Qed.

(** *** Composition with what is known of the value and of the item *)

Section Known.

Variable R : state -> state -> Prop.
Hypothesis R_refl : forall s, R s s.
Hypothesis R_trans : forall a b c, R a b -> R b c -> R a c.

Lemma preserves_bind_lift {A B} (r : result A) (k : A -> M B) :
  (forall a, r = Ok a -> preserves R (k a)) -> preserves R (bind (lift r) k).
Proof.
  intros H s. destruct r as [a | e]; cbn.
  - exact (H a eq_refl s).
  - apply R_refl.
Qed.

Lemma preserves_for_each_in {X} (xs : list X) (body : X -> M unit) :
  (forall x, In x xs -> preserves R (body x)) -> preserves R (for_each xs body).
Proof.
  induction xs as [ | x xs IH]; intros H; simpl.
  - now apply preserves_ret.
  - apply preserves_bind; [ exact R_trans | apply H; now left | ].
    intros _. apply IH. intros y Hy. apply H. now right.
Qed.

End Known.

(** *** What [sorted] and the comprehensions return, when they return *)

Lemma map_result_length {X Y} (f : X -> result Y) (xs : list X) :
  forall ys, map_result f xs = Ok ys -> List.length ys = List.length xs.
Proof.
  induction xs as [ | x xs IH]; simpl; intros ys H.
  - now inversion H.
  - destruct (f x) as [y | ]; [ | discriminate ].
    destruct (map_result f xs) as [ys' | ]; [ | discriminate ].
    inversion H; subst. simpl. f_equal. now apply IH.
Qed.

Lemma sorted_by_returns_perm {X} (key : X -> result Z) (xs ys : list X) :
  sorted_by key xs = Ok ys -> Permutation ys xs.
Proof.
  unfold sorted_by. destruct (map_result key xs) as [ks | ] eqn:E; [ | discriminate ].
  cbn. intros H. inversion H; subst.
  rewrite (sort_keyed_perm (combine ks xs)).
  rewrite map_snd_combine; [ reflexivity | ].
  eapply map_result_length; eauto.
Qed.

Lemma filter_result_returns_incl {X} (f : X -> result bool) (xs : list X) :
  forall ys, filter_result f xs = Ok ys -> incl ys xs.
Proof.
  induction xs as [ | x xs IH]; simpl; intros ys H.
  - inversion H. apply incl_refl.
  - destruct (f x) as [b | ]; [ | discriminate ].
    destruct (filter_result f xs) as [ys' | ]; [ | discriminate ].
    cbn in H. inversion H; subst.
    destruct b.
    + apply incl_cons; [ now left | ]. apply incl_tl. now apply IH.
    + apply incl_tl. now apply IH.
Qed.

Lemma id_among (x : pyval) (xs : list pyval) :
  In x xs -> incl [field x "id" PNone] (ids_of xs).
Proof.
  intros H k [<- | []]. unfold ids_of.
  now apply (in_map (fun x => field x "id" PNone)).
Qed.

(** *** The turns of the creation loops *)

Ltac trace_prefix := cbn; repeat (eapply cons_prefix); apply nil_prefix.

(** Closing a turn that has been run: no registration, or one. *)
Ltac settle :=
  first
    [ eexists; exists []; split; [ trace_prefix | ];
      split; [ reflexivity | ]; split; [ reflexivity | ]; intros ? []
    | eexists; eexists [(_, _)]; split; [ trace_prefix | ];
      split; [ reflexivity | ]; split; [ reflexivity | ];
      intros ? [<- | []]; left; reflexivity ].

Ltac settle_among :=
  first
    [ eexists; exists []; split; [ trace_prefix | ];
      split; [ reflexivity | ]; split; intros ? []
    | eexists; eexists [(_, _)]; split; [ trace_prefix | ];
      split; [ reflexivity | ];
      split; [ intros ? [<- | []]; cbn; auto
             | intros ? [<- | []]; left; reflexivity ] ].

Section Tables.

Variable env : services.

Ltac unfold_run :=
  unfold rate_wait, log_add, log_delete, log_error, incr_completed,
    set_operation, set_total, set_completed, print_status,
    register_role, register_cat, register_chan, parse_permission_overwrites,
    except_Exception,
    bind, try_except, request, download, emit, modify, read, lift, ret.

Ltac one_case :=
  match goal with
  | |- context [api env ?h ?c] =>
      lazymatch h with
      | context [api] => fail
      | _ => destruct (api env h c) as [? | []] eqn:?
      end
  | |- context [match safe_int ?v ?d with _ => _ end] =>
      destruct (safe_int v d) as [? | []] eqn:?
  | |- context [match translate ?a ?b ?c ?d with _ => _ end] =>
      destruct (translate a b c d) as [? | []] eqn:?
  | |- context [match resolve_category ?a ?b with _ => _ end] =>
      destruct (resolve_category a b) as [? | []] eqn:?
  end; cbn.

Ltac type_case :=
  match goal with
  | |- context [if ?a =? ?b then _ else _] => destruct (a =? b)
  end; cbn.

Ltac run_turn := repeat first [ one_case | type_case | settle ].

(** A step that writes nothing to the table and gives no object. *)
Ltac silent := intros ?; unfold_run; cbn; settle.

Lemma reorder_roles_registers_nothing (g : guild) (roles_data ids : list pyval) :
  preserves (registered role_map (role_handle g) ids)
    (reorder_roles env g roles_data).
Proof.
  unfold reorder_roles.
  frame_with (registered_refl role_map (role_handle g) ids)
             (registered_trans role_map (role_handle g) ids)
             silent.
Qed.

(** One turn of the loop of [roles_create]: the role is registered under
    its id when, and only when, the call succeeded. *)
Lemma roles_create_registers (g : guild) (roles_data : list pyval) :
  Forall keyed roles_data ->
  preserves (registered role_map (role_handle g) (ids_of roles_data))
    (roles_create env g roles_data).
Proof.
  intros Hok. unfold roles_create.
  pose proof (registered_refl role_map (role_handle g) (ids_of roles_data)) as Rr.
  pose proof (registered_trans role_map (role_handle g) (ids_of roles_data)) as Rt.
  apply (preserves_bind _ Rt); [ silent | intros _ ].
  apply (preserves_bind _ Rt); [ silent | intros _ ].
  apply (preserves_bind _ Rt); [ silent | intros _ ].
  apply (preserves_bind_lift _ Rr). intros sorted Es.
  apply sorted_by_returns_perm in Es.
  apply (preserves_bind _ Rt); [ | intros _ ].
  2:{ apply (preserves_bind _ Rt); [ silent | intros _ ].
      apply reorder_roles_registers_nothing. }
  apply (preserves_for_each_in _ Rr Rt). intros x Hx s.
  apply (Permutation_in _ Es) in Hx.
  apply (registered_weaken _ _ _ _ _ _ (id_among x roles_data Hx)).
  rewrite Forall_forall in Hok. destruct (Hok x Hx) as [[d ->] Hid].
  unfold field in *. cbn [py_get] in *.
  unfold_run. unfold flag, remap_set. cbn. rewrite ?Hid.
  destruct (eq_str _ "@everyone"); cbn; run_turn.
Qed.

(** One turn of the loop of [channels_create]. *)
Lemma channels_create_registers (g : guild) (channels_data : list pyval) :
  Forall keyed channels_data ->
  preserves (registered chan_map channel_handle (ids_of channels_data))
    (channels_create env g channels_data).
Proof.
  intros Hok. unfold channels_create.
  pose proof (registered_refl chan_map channel_handle (ids_of channels_data)) as Rr.
  pose proof (registered_trans chan_map channel_handle (ids_of channels_data)) as Rt.
  apply (preserves_bind _ Rt); [ silent | intros _ ].
  apply (preserves_bind_lift _ Rr). intros leaves El.
  apply filter_result_returns_incl in El.
  apply (preserves_bind_lift _ Rr). intros sorted Es.
  apply sorted_by_returns_perm in Es.
  apply (preserves_bind _ Rt); [ silent | intros _ ].
  apply (preserves_bind _ Rt); [ silent | intros _ ].
  assert (Hloop : preserves (registered chan_map channel_handle (ids_of channels_data))
                    (for_each sorted (channel_item env g))).
  { apply (preserves_for_each_in _ Rr Rt). intros x Hx s.
    apply (Permutation_in _ Es) in Hx. apply El in Hx.
    apply (registered_weaken _ _ _ _ _ _ (id_among x channels_data Hx)).
    rewrite Forall_forall in Hok. destruct (Hok x Hx) as [[d ->] Hid].
    unfold field in *. cbn [py_get] in *.
    unfold channel_item, create_channel. unfold_run. unfold remap_set. cbn.
    rewrite ?Hid.
    destruct (safe_int match assoc "type" d with Some x => x | None => PNone end 0)
      as [chan_type | []]; cbn; [ | settle .. ].
    destruct (resolve_category _ _) as [category | []]; cbn; [ | settle .. ].
    destruct (translate _ _ _ _) as [ows | []]; cbn; [ | settle .. ].
    destruct (safe_int match assoc "position" d with Some x => x | None => PNone end 0)
      as [pos | []]; cbn; [ | settle .. ].
    destruct (chan_type =? 0); [ cbn; run_turn | ].
    destruct (chan_type =? 2); [ cbn; run_turn | ].
    destruct (chan_type =? 5); [ cbn; run_turn | ].
    destruct (chan_type =? 13); [ cbn; run_turn | ].
    destruct (chan_type =? 15); cbn; run_turn. }
  destruct sorted; [ apply (preserves_ret _ Rr) | ].
  apply (preserves_bind _ Rt); [ exact Hloop | intros _; silent ].
Qed.

(** One turn of the loop of [categories_create]: a category is registered
    only when its creation call succeeded. *)
Lemma categories_create_registers_among (g : guild) (channels_data : list pyval) :
  Forall keyed channels_data ->
  preserves (registered_among cat_map category_handle (ids_of channels_data))
    (categories_create env g channels_data).
Proof.
  intros Hok. unfold categories_create.
  pose proof (registered_among_refl cat_map category_handle (ids_of channels_data)) as Rr.
  pose proof (registered_among_trans cat_map category_handle (ids_of channels_data)) as Rt.
  apply (preserves_bind _ Rt); [ intros ?; unfold_run; cbn; settle_among | intros _ ].
  apply (preserves_bind_lift _ Rr). intros cats El.
  apply filter_result_returns_incl in El.
  apply (preserves_bind_lift _ Rr). intros sorted Es.
  apply sorted_by_returns_perm in Es.
  apply (preserves_bind _ Rt); [ intros ?; unfold_run; cbn; settle_among | intros _ ].
  apply (preserves_bind _ Rt); [ intros ?; unfold_run; cbn; settle_among | intros _ ].
  assert (Hloop : forall body_list, incl body_list sorted ->
            preserves (registered_among cat_map category_handle (ids_of channels_data))
              (for_each body_list (fun cat_data =>
        rate_wait ;;
        name <- lift (py_get cat_data "name" (PStr "unnamed")) ;;
        try_except
          (ows <- lift (py_get cat_data "permission_overwrites" (PList [])) ;;
           overwrites_to <- parse_permission_overwrites ows g ;;
           new_cat <- request env (CreateCategory name overwrites_to) ;;
           p <- lift (py_get cat_data "position" PNone) ;;
           pos <- lift (safe_int p 0) ;;
           request env (ChannelEditPosition new_cat pos) ;;
           id <- lift (py_get cat_data "id" PNone) ;;
           register_cat id new_cat ;;
           log_add "created category: " name)
          (fun e =>
             match e with
             | Forbidden => Some (log_error "forbidden: " name None)
             | HTTPException => Some (log_error "http error: " name (Some e))
             | _ => None
             end) ;;
        incr_completed))).
  { intros l Hl. apply (preserves_for_each_in _ Rr Rt). intros x Hx s.
    apply Hl in Hx.
    apply (Permutation_in _ Es) in Hx. apply El in Hx.
    apply (registered_among_weaken _ _ _ _ _ _ (id_among x channels_data Hx)).
    rewrite Forall_forall in Hok. destruct (Hok x Hx) as [[d ->] Hid].
    unfold field in *. cbn [py_get] in *.
    unfold_run. unfold remap_set. cbn. rewrite ?Hid.
    repeat first [ one_case | settle_among ]. }
  destruct sorted; [ apply (preserves_ret _ Rr) | ].
  apply (preserves_bind _ Rt);
    [ apply Hloop, incl_refl | intros _; intros ?; unfold_run; cbn; settle_among ].
Qed.

End Tables.

(** *** No entry without a creation *)

Lemma update_values (m : remap) (k : pyval) (v : obj) (kv : pyval * obj) :
  In kv (update m k v) -> In kv m \/ snd kv = v.
Proof.
  induction m as [ | [k' v'] m IH]; simpl.
  - intros [<- | []]. now right.
  - destruct (key_eqb k k').
    + intros [<- | H]; [ now right | left; now right ].
    + intros [<- | H]; [ left; now left | ].
      destruct (IH H) as [H' | H']; [ left; now right | now right ].
Qed.

Lemma replay_values (ledger : list (pyval * obj)) : forall m kv,
  In kv (replay m ledger) -> In kv m \/ In (snd kv) (map snd ledger).
Proof.
  induction ledger as [ | [k v] ledger IH]; intros m kv; simpl.
  - now left.
  - intros H. destruct (IH _ _ H) as [H' | H']; [ | right; now right ].
    destruct (update_values _ _ _ _ H') as [H'' | H'']; [ now left | ].
    right. left. now rewrite H''.
Qed.

Lemma registered_among_values (tbl : state -> remap)
    (handle_of : event -> option obj) (ids : list pyval) (s s' : state) :
  registered_among tbl handle_of ids s s' ->
  forall kv, In kv (tbl s') ->
    In kv (tbl s)
    \/ exists new, trace s' = new ++ trace s
                   /\ In (snd kv) (handles handle_of new).
Proof.
  intros [new [ledger [T [M [H I]]]]] kv Hkv. rewrite M in Hkv.
  destruct (replay_values _ _ _ Hkv) as [H' | H']; [ now left | ].
  right. exists new. split; [ exact T | now apply H ].
Qed.

Lemma registered_is_among (tbl : state -> remap)
    (handle_of : event -> option obj) (ids : list pyval) (s s' : state) :
  registered tbl handle_of ids s s' -> registered_among tbl handle_of ids s s'.
Proof.
  intros [new [ledger [T [M [H I]]]]]. exists new, ledger.
  repeat split; auto. rewrite H. apply incl_refl.
Qed.

(** X23: the roles phase and the channels phase register what they
    create, whatever the services answer: the table after the phase is the
    table before it with one registration for each successful call (the
    creation of a role or of a channel, or the edit of the permissions of
    the default role), in the order of the calls, each under the id of an
    item of the source.  A channel whose change into a news channel failed
    is registered all the same. *)
Theorem creation_phases_register_what_they_create (env : services) (g : guild) :
  (forall roles_data, Forall keyed roles_data ->
     preserves (registered role_map (role_handle g) (ids_of roles_data))
       (roles_create env g roles_data))
  /\ (forall channels_data, Forall keyed channels_data ->
        preserves (registered chan_map channel_handle (ids_of channels_data))
          (channels_create env g channels_data)).
Proof.
  split; intros data H.
  - now apply roles_create_registers.
  - now apply channels_create_registers.
Qed.


(** The categories phase does not register all it creates: with a service
    that rejects the position edit, the category created is missing from the
    table. *)
Remark categories_create_does_not_register_all :
  let data := category_and_channel (PStr "10") in
  ~ registered cat_map category_handle (ids_of data) idle
      (snd (categories_create position_rejecting target_guild data idle)).
Proof.
  intros data [new [ledger [T [M [H I]]]]].
  change (trace idle) with (@nil event) in T. rewrite app_nil_r in T.
  subst new.
  vm_compute in H.
  destruct ledger as [ | [k v] [ | ? ?]]; try discriminate H.
  vm_compute in M. discriminate M.
Qed.

(** * Further properties of the code *)

(** ** [sorted(..., key=...)]: the order in which a phase takes the items *)

Lemma insert_by_sorted {X} (k : Z) (x : X) (l : list (Z * X)) :
  StronglySorted (fun p q => fst p <= fst q) l ->
  StronglySorted (fun p q => fst p <= fst q) (insert_by k x l).
Proof.
  induction 1 as [ | [k' y] l Hs IH Hall]; simpl.
  - constructor; constructor.
  - destruct (k <=? k') eqn:E.
    + apply Z.leb_le in E. constructor.
      * constructor; assumption.
      * constructor; [ exact E | ].
        eapply Forall_impl; [ | exact Hall ]. simpl. intros q Hq. lia.
    + apply Z.leb_gt in E. constructor; [ exact IH | ].
      assert (Hin : forall q, In q (insert_by k x l) -> q = (k, x) \/ In q l).
      { intros q Hq.
        apply (Permutation_in _ (insert_by_perm k x l)) in Hq.
        destruct Hq as [<- | Hq]; auto. }
      apply Forall_forall. intros q Hq. simpl.
      destruct (Hin q Hq) as [-> | Hq']; simpl; [ lia | ].
      rewrite Forall_forall in Hall. exact (Hall q Hq').
Qed.

Lemma sort_keyed_sorted {X} (l : list (Z * X)) :
  StronglySorted (fun p q => fst p <= fst q) (sort_keyed l).
Proof.
  induction l as [ | [k x] l IH]; simpl; [ constructor | ].
  now apply insert_by_sorted.
Qed.

(** An insertion goes before the entries with the same key. *)
Lemma insert_by_filter {X} (k k0 : Z) (x : X) (l : list (Z * X)) :
  filter (fun p => fst p =? k) (insert_by k0 x l)
  = if k0 =? k then (k0, x) :: filter (fun p => fst p =? k) l
    else filter (fun p => fst p =? k) l.
Proof.
  induction l as [ | [k' y] l IH]; simpl.
  - destruct (k0 =? k); reflexivity.
  - destruct (k0 <=? k') eqn:E; simpl.
    + destruct (k0 =? k); reflexivity.
    + rewrite IH. apply Z.leb_gt in E.
      destruct (k0 =? k) eqn:E0; [ | reflexivity ].
      apply Z.eqb_eq in E0. subst k0.
      destruct (k' =? k) eqn:E1; [ | reflexivity ].
      apply Z.eqb_eq in E1. lia.
Qed.

Lemma sort_keyed_filter {X} (k : Z) (l : list (Z * X)) :
  filter (fun p => fst p =? k) (sort_keyed l) = filter (fun p => fst p =? k) l.
Proof.
  induction l as [ | [k0 x] l IH]; simpl; [ reflexivity | ].
  rewrite insert_by_filter, IH. reflexivity.
Qed.

(** The pairs that [sorted_by] sorts: each item with its own key. *)
Lemma map_result_combine {X} (key : X -> result Z) (xs : list X) :
  forall ks, map_result key xs = Ok ks ->
  Forall (fun p => key (snd p) = Ok (fst p)) (combine ks xs).
Proof.
  induction xs as [ | x xs IH]; simpl; intros ks H.
  - inversion H. constructor.
  - destruct (key x) as [k | ] eqn:Ek; [ | discriminate ].
    destruct (map_result key xs) as [ks' | ]; [ | discriminate ].
    inversion H; subst. simpl. constructor; [ exact Ek | now apply IH ].
Qed.

Lemma map_result_of_pairs {X} (key : X -> result Z) (ps : list (Z * X)) :
  Forall (fun p => key (snd p) = Ok (fst p)) ps ->
  map_result key (map snd ps) = Ok (map fst ps).
Proof.
  induction 1 as [ | p ps Hp _ IH]; simpl; [ reflexivity | ].
  now rewrite Hp, IH.
Qed.

Lemma filter_of_pairs {X} (key : X -> result Z) (k : Z) (ps : list (Z * X)) :
  Forall (fun p => key (snd p) = Ok (fst p)) ps ->
  filter (key_is key k) (map snd ps)
  = map snd (filter (fun p => fst p =? k) ps).
Proof.
  induction 1 as [ | p ps Hp _ IH]; simpl; [ reflexivity | ].
  unfold key_is at 1. rewrite Hp.
  destruct (fst p =? k); simpl; now rewrite IH.
Qed.

Lemma sorted_fst {X} (ps : list (Z * X)) :
  StronglySorted (fun p q => fst p <= fst q) ps ->
  StronglySorted Z.le (map fst ps).
Proof.
  induction 1 as [ | p ps _ IH Hall]; simpl; constructor; [ exact IH | ].
  rewrite Forall_map. exact Hall.
Qed.

(** X1: when [sorted] returns, it returns the items in ascending order of
    their keys, and items with the same key in the order they had: the
    result is a permutation of the input, the keys of the result are
    nondecreasing, and for every key the items with that key are the same
    sublist before and after. *)
Theorem sorted_by_sorts_stably {X} (key : X -> result Z) (xs ys : list X) :
  sorted_by key xs = Ok ys ->
  Permutation ys xs
  /\ (exists ks, map_result key ys = Ok ks /\ StronglySorted Z.le ks)
  /\ forall k, filter (key_is key k) ys = filter (key_is key k) xs.
Proof.
  intros H. split; [ now apply sorted_by_returns_perm in H | ].
  unfold sorted_by in H.
  destruct (map_result key xs) as [ks | ] eqn:Ek; [ | discriminate ].
  cbn in H. inversion H; subst ys. clear H.
  pose proof (map_result_combine key xs ks Ek) as Hpairs.
  pose proof (map_result_length key xs ks Ek) as Hlen.
  assert (Hsorted : Forall (fun p => key (snd p) = Ok (fst p))
                      (sort_keyed (combine ks xs))).
  { rewrite Forall_forall in *. intros p Hp. apply Hpairs.
    now apply (Permutation_in _ (sort_keyed_perm (combine ks xs))). }
  split.
  - exists (map fst (sort_keyed (combine ks xs))). split.
    + now apply map_result_of_pairs.
    + apply sorted_fst, sort_keyed_sorted.
  - intros k.
    rewrite (filter_of_pairs key k _ Hsorted), sort_keyed_filter.
    rewrite <- (filter_of_pairs key k _ Hpairs).
    now rewrite map_snd_combine.
Qed.

Lemma sorted_by_sorts_stably_witness :
  sorted_by role_position (snap_roles scenario_snapshot)
  = Ok [role_doc "100" "a" 0; role_doc "101" "b" 1; role_doc "102" "c" 2]
  /\ Permutation
       [role_doc "100" "a" 0; role_doc "101" "b" 1; role_doc "102" "c" 2]
       (snap_roles scenario_snapshot).
Proof.
  split; [ reflexivity | ].
  apply (sorted_by_sorts_stably role_position (snap_roles scenario_snapshot)).
  reflexivity.
Defined.

(** ** The tables as dicts: a key registered is found again *)

Lemma float_same_eq (f g : spec_float) : float_same f g = true -> f = g.
Proof.
  destruct f as [ | s | | s m e], g as [ | t | | t n d]; simpl; try discriminate.
  - destruct s, t; simpl; intros H; try discriminate; reflexivity.
  - rewrite !andb_true_iff, Pos.eqb_eq, Z.eqb_eq.
    intros [[H1 H2] H3]. subst.
    destruct s, t; simpl in H1; try discriminate; reflexivity.
Qed.

Lemma float_same_refl (f g : spec_float) :
  float_same f g = true -> float_same f f = true.
Proof. intros H. now rewrite <- (float_same_eq f g H) in H. Qed.

(** Two keys are equal exactly when they have the same class. *)
Lemma key_eqb_class (a b : pyval) :
  key_eqb a b = true <->
  exists c, class_of a = Some c /\ class_of b = Some c.
Proof.
  assert (Hnum : forall x y : option (Z + spec_float),
    match x, y with
    | Some (inl p), Some (inl q) => p =? q
    | Some (inr f), Some (inr g) => float_same f g
    | _, _ => false
    end = true <->
    exists c,
      match x with
      | Some (inl z) => Some (KInt z)
      | Some (inr f) => if float_same f f then Some (KFloat f) else None
      | None => None
      end = Some c
      /\ match y with
         | Some (inl z) => Some (KInt z)
         | Some (inr f) => if float_same f f then Some (KFloat f) else None
         | None => None
         end = Some c).
  { intros [[p | f] | ] [[q | g] | ]; split;
      try (intros H; discriminate H).
    all: try (intros [c [H1 H2]];
              repeat match goal with
              | H : (if float_same ?a ?b then _ else _) = _ |- _ =>
                  destruct (float_same a b) eqn:?
              end;
              try discriminate;
              inversion H1; subst; inversion H2; subst;
              first [ apply Z.eqb_refl | assumption ]).
    - rewrite Z.eqb_eq. intros ->. eauto.
    - intros H. pose proof (float_same_eq f g H) as <-.
      rewrite H. eauto. }
  destruct a as [ | x | x | f | x | x | x], b as [ | y | y | g | y | y | y];
    unfold key_eqb, class_of; try apply Hnum;
    try (split;
         [ cbn [num_key];
           repeat match goal with
           | |- context [float_integral ?f] => destruct (float_integral f)
           end;
           intros H; discriminate H
         | intros [c [H1 H2]]; exfalso;
           repeat match goal with
           | H : context [num_key ?k] |- _ =>
               destruct (num_key k) as [[? | ?] | ]
           | H : context [float_same ?a ?b] |- _ => destruct (float_same a b)
           end; congruence ]).
  - split; eauto.
  - rewrite String.eqb_eq. split.
    + intros ->. eauto.
    + intros [c [H1 H2]]. congruence.
Qed.

Lemma key_eqb_refl (k : pyval) :
  hashable k = true -> k <> PFloat S754_nan -> key_eqb k k = true.
Proof.
  intros Hh Hn.
  destruct k as [ | x | x | f | x | x | x]; simpl in Hh; try discriminate;
    simpl.
  - reflexivity.
  - apply Z.eqb_refl.
  - apply Z.eqb_refl.
  - destruct (float_integral f) eqn:Ef; [ apply Z.eqb_refl | ].
    destruct f as [ | s | | s m e]; simpl.
    + discriminate Ef.
    + apply Bool.eqb_reflx.
    + now contradiction Hn.
    + now rewrite Bool.eqb_reflx, Pos.eqb_refl, Z.eqb_refl.
  - apply String.eqb_refl.
Qed.

Lemma key_eqb_trans_false (a b c : pyval) :
  key_eqb a b = true -> key_eqb c a = false -> key_eqb c b = false.
Proof.
  intros Hab Hca.
  destruct (key_eqb c b) eqn:Hcb; [ | reflexivity ].
  apply key_eqb_class in Hab, Hcb.
  destruct Hab as [x [Ha Hb]], Hcb as [y [Hc Hb']].
  assert (key_eqb c a = true) by (apply key_eqb_class; exists x; split; congruence).
  congruence.
Qed.

Lemma lookup_update_same (m : remap) (k : pyval) (v : obj) :
  key_eqb k k = true -> lookup (update m k v) k = Some v.
Proof.
  intros Hk. induction m as [ | [k' v'] m IH]; simpl.
  - now rewrite Hk.
  - destruct (key_eqb k k') eqn:E; simpl; rewrite E; [ reflexivity | exact IH ].
Qed.

Lemma lookup_update_other (m : remap) (k k' : pyval) (v : obj) :
  key_eqb k' k = false -> lookup (update m k v) k' = lookup m k'.
Proof.
  intros Hk. induction m as [ | [k1 v1] m IH]; simpl.
  - now rewrite Hk.
  - destruct (key_eqb k k1) eqn:E; simpl.
    + rewrite (key_eqb_trans_false k k1 k' E Hk). reflexivity.
    + rewrite IH. reflexivity.
Qed.

(** X2: the tables behave as dicts.  After [m[k] = v] the key [k] is found
    with the value [v], and every key that is not equal to [k] is found, or
    not found, as before.  (A NaN is equal to no key, itself included.) *)
Theorem remap_set_then_get (m m' : remap) (k : pyval) (v : obj) :
  remap_set m k v = Ok m' -> k <> PFloat S754_nan ->
  remap_get m' k = Ok (Some v)
  /\ forall k', key_eqb k' k = false -> remap_get m' k' = remap_get m k'.
Proof.
  unfold remap_set, remap_get.
  destruct (hashable k) eqn:Hh; [ | discriminate ].
  intros H Hn. inversion H; subst m'. split.
  - now rewrite lookup_update_same by now apply key_eqb_refl.
  - intros k' Hk'. destruct (hashable k'); [ | reflexivity ].
    now rewrite lookup_update_other.
Qed.

Lemma remap_set_then_get_witness :
  remap_get [(PStr "100", mods); (PInt 7, lobby)] (PFloat (S754_finite false 7 0))
  = Ok (Some lobby)
  /\ remap_get [(PStr "100", mods); (PInt 7, guests)] (PInt 7) = Ok (Some guests).
Proof.
  split; [ reflexivity | ].
  apply (remap_set_then_get [(PStr "100", mods); (PInt 7, lobby)]
           [(PStr "100", mods); (PInt 7, guests)]
           (PInt 7) guests).
  - reflexivity.
  - discriminate.
Defined.

(** ** [Clone.parse_permission_overwrites]: one entry per role *)

Lemma ow_set_ids (m : overwrites) (r : obj) (v : Z * Z) (x : Z) :
  In x (role_ids (ow_set m r v)) -> In x (role_ids m) \/ x = obj_id r.
Proof.
  induction m as [ | [r' v'] m IH]; simpl.
  - intros [<- | []]. now right.
  - destruct (obj_eqb r r'); simpl.
    + intros [<- | H]; left; auto.
    + intros [<- | H]; [ left; now left | ].
      destruct (IH H) as [H' | H']; [ left; now right | now right ].
Qed.

Lemma ow_set_nodup (m : overwrites) (r : obj) (v : Z * Z) :
  NoDup (role_ids m) -> NoDup (role_ids (ow_set m r v)).
Proof.
  induction m as [ | [r' v'] m IH]; simpl; intros H.
  - constructor; [ intros [] | constructor ].
  - inversion H as [ | x l Hx Hl]; subst.
    destruct (obj_eqb r r') eqn:E; simpl.
    + constructor; assumption.
    + constructor; [ | now apply IH ].
      intros Hin. destruct (ow_set_ids _ _ _ _ Hin) as [H' | H'].
      * contradiction.
      * unfold obj_eqb in E. apply Z.eqb_neq in E. congruence.
Qed.

Section OneEntry.

Variable roles : remap.
Variable bot_source_id : option Z.
Variable guild_to : guild.

Lemma parse_loop_nodup (items : list pyval) : forall acc out,
  parse_loop roles bot_source_id guild_to acc items = Ok out ->
  NoDup (role_ids acc) -> NoDup (role_ids out).
Proof.
  induction items as [ | ow items IH]; simpl; intros acc out H Hacc.
  - now inversion H; subst.
  - destruct (parse_overwrite roles bot_source_id guild_to acc ow)
      as [acc' | ] eqn:Estep; simpl in H; [ | discriminate ].
    apply (IH acc' out H).
    destruct (parse_overwrite_step roles bot_source_id guild_to acc acc' ow Estep)
      as [[r [v [_ ->]]] | [-> _]]; [ now apply ow_set_nodup | exact Hacc ].
Qed.

Lemma parse_loop_app (pre post : list pyval) : forall acc,
  parse_loop roles bot_source_id guild_to acc (pre ++ post)
  = rbind (parse_loop roles bot_source_id guild_to acc pre)
      (fun mid => parse_loop roles bot_source_id guild_to mid post).
Proof.
  induction pre as [ | ow pre IH]; simpl; intros acc; [ reflexivity | ].
  destruct (parse_overwrite roles bot_source_id guild_to acc ow); simpl;
    [ apply IH | reflexivity ].
Qed.

(** An entry stays as it is through the overwrites that resolve to other
    roles. *)
Lemma parse_loop_keeps (post : list pyval) (r : obj) (v : Z * Z) :
  (forall ow' r' v', In ow' post ->
     emits roles bot_source_id guild_to ow' r' v' -> obj_eqb r r' = false) ->
  forall acc out,
    parse_loop roles bot_source_id guild_to acc post = Ok out ->
    ow_get acc r = Some v -> ow_get out r = Some v.
Proof.
  induction post as [ | ow post IH]; simpl; intros Hlater acc out H Hacc.
  - now inversion H; subst.
  - destruct (parse_overwrite roles bot_source_id guild_to acc ow)
      as [acc' | ] eqn:Estep; simpl in H; [ | discriminate ].
    apply (IH (fun ow' r' v' Hin => Hlater ow' r' v' (or_intror Hin)) acc' out H).
    destruct (parse_overwrite_step roles bot_source_id guild_to acc acc' ow Estep)
      as [[r0 [v0 [Hem ->]]] | [-> _]]; [ | exact Hacc ].
    rewrite ow_get_set, (Hlater ow r0 v0 (or_introl eq_refl) Hem). exact Hacc.
Qed.

End OneEntry.

Lemma translate_has_distinct_roles
    (roles : remap) (bot_source_id : option Z) (guild_to : guild)
    (overwrites_data : pyval) (out : overwrites) :
  translate roles bot_source_id overwrites_data guild_to = Ok out ->
  NoDup (role_ids out).
Proof.
  unfold translate.
  destruct (py_iter overwrites_data) as [items | ]; simpl; [ | discriminate ].
  intros H.
  apply (parse_loop_nodup roles bot_source_id guild_to items [] out H).
  constructor.
Qed.



(** ** Ids of the snapshot against the ids of the overwrites *)

Lemma update_string_keyed (m : remap) (k : pyval) (v : obj) :
  string_keyed m -> (exists s, k = PStr s) -> string_keyed (update m k v).
Proof.
  unfold string_keyed. intros Hm Hk.
  induction Hm as [ | [k' v'] m Hk' Hm IH]; simpl.
  - constructor; [ exact Hk | constructor ].
  - destruct (key_eqb k k'); constructor; simpl in *; auto.
Qed.

Lemma replay_string_keyed (ledger : list (pyval * obj)) : forall m,
  string_keyed m ->
  Forall (fun k => exists s, k = PStr s) (map fst ledger) ->
  string_keyed (replay m ledger).
Proof.
  induction ledger as [ | [k v] ledger IH]; simpl; intros m Hm Hl; [ exact Hm | ].
  inversion Hl; subst. apply IH; [ | assumption ].
  now apply update_string_keyed.
Qed.

Lemma string_id_keyed (x : pyval) : string_id x -> keyed x.
Proof. intros [Hd [s Hs]]. split; [ exact Hd | ]. now rewrite Hs. Qed.

(** The roles phase keeps a table keyed by strings so when the ids of the
    roles of the snapshot are strings. *)
Lemma roles_create_string_keyed (env : services) (g : guild)
    (roles_data : list pyval) (s : state) :
  Forall string_id roles_data -> string_keyed (role_map s) ->
  string_keyed (role_map (snd (roles_create env g roles_data s))).
Proof.
  intros Hids Hm.
  destruct (roles_create_registers env g roles_data
              (Forall_impl _ string_id_keyed Hids) s)
    as [new [ledger [_ [-> [_ Hincl]]]]].
  apply replay_string_keyed; [ exact Hm | ].
  apply Forall_forall. intros k Hk. apply Hincl in Hk.
  unfold ids_of in Hk. apply in_map_iff in Hk. destruct Hk as [x [<- Hx]].
  rewrite Forall_forall in Hids. destruct (Hids x Hx) as [_ Hs]. exact Hs.
Qed.

Lemma ow_set_only (m : overwrites) (d : obj) (v : Z * Z) :
  Forall (fun e => fst e = d) m -> Forall (fun e => fst e = d) (ow_set m d v).
Proof.
  induction 1 as [ | [r' v'] m Hr Hm IH]; simpl.
  - constructor; [ reflexivity | constructor ].
  - destruct (obj_eqb d r'); constructor; simpl in *; auto.
Qed.

(** Against a table keyed by strings, the only role an overwrite resolves
    to is the default role of the target. *)
Lemma parse_loop_string_keyed (roles : remap) (sid : option Z) (g : guild)
    (items : list pyval) :
  string_keyed roles ->
  forall acc out,
    parse_loop roles sid g acc items = Ok out ->
    Forall (fun e => fst e = default_role g) acc ->
    Forall (fun e => fst e = default_role g) out.
Proof.
  intros Hm. induction items as [ | ow items IH]; simpl; intros acc out H Hacc.
  - now inversion H; subst.
  - destruct (parse_overwrite roles sid g acc ow) as [acc' | ] eqn:Estep;
      simpl in H; [ | discriminate ].
    apply (IH acc' out H).
    destruct (parse_overwrite_step roles sid g acc acc' ow Estep)
      as [[r [v [Hem ->]]] | [-> _]]; [ | exact Hacc ].
    destruct Hem as [_ [[source [_ Hr]] _]].
    rewrite (lookup_int_among_strings roles source Hm) in Hr.
    destruct Hr as [Hr | [_ [_ ->]]]; [ discriminate | ].
    now apply ow_set_only.
Qed.

(** X4: when the ids of the roles of the snapshot are strings, as the API
    gives them, no overwrite is translated for a role that the roles phase
    has created.  [roles_create] registers each role under the id as the
    document has it, a string, and [parse_permission_overwrites] looks the
    overwrite up under [safe_int] of its id, an integer, which is equal to
    no string.  After the roles phase the dict of overwrites of any channel
    holds at most the entry of the default role of the target. *)
Theorem string_ids_resolve_only_the_default_role
    (env : services) (g : guild) (roles_data : list pyval) (s : state)
    (overwrites_data : pyval) (out : overwrites) (s'' : state) :
  Forall string_id roles_data ->
  string_keyed (role_map s) ->
  parse_permission_overwrites overwrites_data g
    (snd (roles_create env g roles_data s)) = (Ok out, s'') ->
  Forall (fun e => fst e = default_role g) out
  /\ (List.length out <= 1)%nat.
Proof.
  intros Hids Hm.
  pose proof (roles_create_string_keyed env g roles_data s Hids Hm) as Hkeys.
  set (s' := snd (roles_create env g roles_data s)) in *.
  unfold parse_permission_overwrites, bind, read, lift. simpl.
  intros H. inversion H as [[Hout Hs]]. clear H.
  assert (Hall : Forall (fun e => fst e = default_role g) out).
  { unfold translate in Hout.
    destruct (py_iter overwrites_data) as [items | ]; simpl in Hout;
      [ | discriminate ].
    apply (parse_loop_string_keyed (role_map s') (source_id s') g items Hkeys
             [] out Hout).
    constructor. }
  split; [ exact Hall | ].
  pose proof (translate_has_distinct_roles
                (role_map s') (source_id s') g overwrites_data out Hout) as Hnd.
  destruct out as [ | [r1 v1] [ | [r2 v2] rest]]; simpl; try lia.
  exfalso. inversion Hall as [ | ? ? H1 Hrest]; subst.
  inversion Hrest as [ | ? ? H2 _]; subst. simpl in H1, H2. subst r1 r2.
  inversion Hnd as [ | ? ? Hnotin _]; subst. apply Hnotin. now left.
Qed.

Lemma string_ids_resolve_only_the_default_role_witness :
  Forall (fun e => fst e = default_role target_guild) [(everyone, (1024, 2048))]
  /\ (List.length [(everyone, (1024, 2048))] <= 1)%nat.
Proof.
  apply (string_ids_resolve_only_the_default_role accepting target_guild
           (snap_roles sample_snapshot) idle sample_overwrites
           [(everyone, (1024, 2048))]
           (snd (roles_create accepting target_guild
                   (snap_roles sample_snapshot) idle))).
  - repeat constructor; try (eexists; reflexivity).
  - constructor.
  - vm_compute. reflexivity.
Defined.

(** ** [safe_int] reads back what [str] writes *)

Lemma digits_of_uint (d : Decimal.uint) : forall acc,
  digits AfterDigit acc (NilEmpty.string_of_uint d) = Some (uint_value d acc).
Proof.
  induction d; intros acc; simpl; try apply IHd. reflexivity.
Qed.

Lemma digits_of_uint_start (d : Decimal.uint) :
  d <> Decimal.Nil ->
  digits AtStart 0 (NilEmpty.string_of_uint d) = Some (uint_value d 0).
Proof.
  destruct d; intros H; simpl; try apply digits_of_uint. now contradiction H.
Qed.

Lemma uint_value_pos (d : Decimal.uint) : forall acc : positive,
  uint_value d (Z.pos acc) = Z.pos (Pos.of_uint_acc d acc).
Proof.
  induction d; intros acc; cbn [uint_value Pos.of_uint_acc]; try reflexivity;
    match goal with
    | |- uint_value _ ?a = Z.pos (Pos.of_uint_acc _ ?b) =>
        replace a with (Z.pos b) by lia; apply IHd
    end.
Qed.

Lemma uint_value_of_uint (d : Decimal.uint) : uint_value d 0 = Z.of_uint d.
Proof.
  unfold Z.of_uint.
  induction d; cbn [uint_value Pos.of_uint Z.of_N];
    try reflexivity; try exact IHd;
    match goal with
    | |- uint_value _ ?a = Z.pos (Pos.of_uint_acc _ ?b) =>
        replace a with (Z.pos b) by lia; apply uint_value_pos
    end.
Qed.

Lemma lstrip_spaceless (s : string) : spaceless s = true -> lstrip s = s.
Proof.
  destruct s as [ | c r]; simpl; [ reflexivity | ].
  destruct (is_space c); [ discriminate | reflexivity ].
Qed.

Lemma rstrip_spaceless (s : string) : spaceless s = true -> rstrip s = s.
Proof.
  induction s as [ | c r IH]; simpl; [ reflexivity | ].
  destruct (is_space c); simpl; [ discriminate | ].
  intros H. rewrite (IH H). destruct r; reflexivity.
Qed.

Lemma strip_spaceless (s : string) : spaceless s = true -> strip s = s.
Proof.
  intros H. unfold strip. rewrite (lstrip_spaceless s H).
  now apply rstrip_spaceless.
Qed.

Lemma spaceless_of_uint (d : Decimal.uint) :
  spaceless (NilEmpty.string_of_uint d) = true.
Proof. induction d; simpl; auto. Qed.

Lemma to_uint_not_nil (p : positive) : Pos.to_uint p <> Decimal.Nil.
Proof.
  intros H. pose proof (DecimalZ.of_to (Z.pos p)) as E.
  simpl in E. rewrite H in E. discriminate E.
Qed.

Lemma int_of_str_of_uint (d : Decimal.uint) :
  d <> Decimal.Nil ->
  int_of_str (NilEmpty.string_of_uint d) = Some (Z.of_uint d)
  /\ int_of_str (String "-" (NilEmpty.string_of_uint d)) = Some (- Z.of_uint d).
Proof.
  intros Hd. unfold int_of_str. split.
  - rewrite strip_spaceless by apply spaceless_of_uint.
    rewrite <- uint_value_of_uint, <- (digits_of_uint_start d Hd).
    destruct d; reflexivity.
  - rewrite strip_spaceless by (simpl; apply spaceless_of_uint).
    rewrite (digits_of_uint_start d Hd), uint_value_of_uint. reflexivity.
Qed.

Lemma string_of_uint_not_nil (d : Decimal.uint) :
  d <> Decimal.Nil -> NilZero.string_of_uint d = NilEmpty.string_of_uint d.
Proof. destruct d; intros H; try reflexivity. now contradiction H. Qed.


(** ** The deletion phases: one call for each object *)

Lemma calls_app (new2 new1 : list event) :
  calls (new2 ++ new1) = calls new1 ++ calls new2.
Proof. unfold calls. now rewrite rev_app_distr, flat_map_app. Qed.

(** A loop whose every turn issues one call, that of its item. *)
Lemma for_each_issues {X} (body : X -> M unit) (f : X -> call) (xs : list X) :
  (forall x s, exists new,
     trace (snd (body x s)) = new ++ trace s /\ calls new = [f x]) ->
  issues (for_each xs body) (map f xs).
Proof.
  intros Hbody. induction xs as [ | x xs IH]; intros s.
  - exists [], 0%nat. simpl. auto.
  - destruct (Hbody x s) as [new1 [T1 C1]].
    cbn [for_each].
    destruct (body x s) as [[[] | e] s1] eqn:E1; simpl in T1.
    + rewrite (bind_ok _ _ _ _ _ E1).
      destruct (IH s1) as [new2 [n [T2 [C2 R2]]]].
      exists (new2 ++ new1), (S n). rewrite calls_app, C1.
      split; [ rewrite T2, T1; apply app_assoc | ].
      split; [ simpl; now rewrite C2 | ].
      intros Hok. simpl. now rewrite (R2 Hok).
    + rewrite (bind_raise _ _ _ _ _ E1).
      exists new1, 1%nat. rewrite C1.
      split; [ exact T1 | ]. split; [ reflexivity | discriminate ].
Qed.

(** Steps around the loop that issue no call. *)
Lemma issues_after_modify (f : state -> state) (m : M unit)
    (expected : list call) :
  (forall s, trace (f s) = trace s) ->
  issues m expected -> issues (modify f ;; m) expected.
Proof.
  intros Hf Hm s. rewrite bind_modify.
  destruct (Hm (f s)) as [new [n [T [C R]]]].
  exists new, n. rewrite T, Hf. auto.
Qed.

Lemma issues_then_status (m : M unit) (expected : list call) :
  issues m expected -> issues (m ;; print_status) expected.
Proof.
  intros Hm s. destruct (Hm s) as [new [n [T [C R]]]].
  destruct (m s) as [[[] | e] s1] eqn:E; simpl in *.
  - rewrite (bind_ok _ _ _ _ _ E). unfold print_status, emit, modify. simpl.
    exists (Status (current_operation s1) (completed s1) (total s1) (errors s1)
              :: new), n.
    rewrite T. split; [ reflexivity | ].
    change (Status (current_operation s1) (completed s1) (total s1) (errors s1)
              :: new)
      with ([Status (current_operation s1) (completed s1) (total s1) (errors s1)]
              ++ new).
    rewrite calls_app.
    change (calls [Status (current_operation s1) (completed s1) (total s1)
                     (errors s1)]) with (@nil call).
    rewrite app_nil_r.
    split; [ exact C | intros _; now apply R ].
  - rewrite (bind_raise _ _ _ _ _ E).
    exists new, n. split; [ exact T | ]. split; [ exact C | discriminate ].
Qed.

Section Deletions.

Variable env : services.
Variable g : guild.

Ltac one_call f :=
  apply (for_each_issues _ f); intros x s;
  unfold rate_wait, log_delete, log_error, incr_completed,
    bind, try_except, request, emit, modify; cbn;
  destruct (api env _ _) as [? | []]; cbn;
  eexists; (split; [ repeat (eapply cons_prefix); apply nil_prefix | reflexivity ]).

Lemma roles_delete_issues :
  issues (roles_delete env g) (map RoleDelete (deletable_roles g)).
Proof.
  unfold roles_delete, set_operation, set_total, set_completed.
  fold (deletable_roles g).
  do 3 (apply issues_after_modify; [ reflexivity | ]).
  apply issues_then_status. one_call RoleDelete.
Qed.

Lemma channels_delete_issues :
  issues (channels_delete env g) (map ChannelDelete (guild_channels g)).
Proof.
  unfold channels_delete, set_operation, set_total, set_completed.
  do 3 (apply issues_after_modify; [ reflexivity | ]).
  apply issues_then_status. one_call ChannelDelete.
Qed.

Lemma emojis_delete_issues :
  issues (emojis_delete env g) (map EmojiDelete (guild_emojis g)).
Proof.
  unfold emojis_delete, set_operation, set_total, set_completed.
  do 3 (apply issues_after_modify; [ reflexivity | ]).
  destruct (guild_emojis g) as [ | e es] eqn:Eg.
  - intros s. exists [], 0%nat. simpl. auto.
  - apply issues_then_status. one_call EmojiDelete.
Qed.

End Deletions.

(** X6: each deletion phase asks the target for one deletion per object,
    in the order the guild lists them, and for nothing else: [roles_delete]
    for every role that is not named [@everyone], [channels_delete] for
    every channel (the categories are channels), [emojis_delete] for every
    emoji.  A failed deletion does not change the calls that follow; when
    a phase is left by an exception, the calls made are the first ones of
    that list. *)
Theorem deletion_phases_issue_one_call_per_object (env : services) (g : guild) :
  issues (roles_delete env g) (map RoleDelete (deletable_roles g))
  /\ Forall (fun r => obj_name r <> "@everyone") (deletable_roles g)
  /\ issues (channels_delete env g) (map ChannelDelete (guild_channels g))
  /\ issues (emojis_delete env g) (map EmojiDelete (guild_emojis g)).
Proof.
  split; [ apply roles_delete_issues | ].
  split; [ | split; [ apply channels_delete_issues | apply emojis_delete_issues ] ].
  apply Forall_forall. intros r Hr. unfold deletable_roles in Hr.
  apply filter_In in Hr. destruct Hr as [_ Hr].
  apply negb_true_iff, String.eqb_neq in Hr. exact Hr.
Qed.

(** ** Each phase keeps to its own kind of object *)

Ltac unfold_all :=
  unfold do_clone_roles, do_clone_structure, do_clone_emojis,
    do_delete_roles, do_delete_channels,
    roles_delete, channels_delete, emojis_delete, roles_create, reorder_roles,
    categories_create, channels_create, channel_item, create_channel,
    emojis_create, guild_edit, check_target, get_input, log,
    cloner_reset_stats;
  unfold_clone.

Ltac leaf_concerns :=
  first
    [ apply appended_emit; exact I
    | apply appended_modify; intros ?; reflexivity
    | apply appended_request; intros ?; reflexivity
    | apply appended_download; intros ?; reflexivity
    | apply appended_print_status; intros ? ? ? ?; exact I
    | apply appended_input ].

Ltac keeps_to k :=
  unfold_all;
  frame_with (appended_refl (concerns k)) (appended_trans (concerns k))
             leaf_concerns.

Section Subjects.

Variable env : services.
Variable g : guild.

Lemma roles_delete_concerns_roles :
  preserves (appended (concerns Roles)) (roles_delete env g).
Proof. keeps_to Roles. Qed.

Lemma roles_create_concerns_roles (roles_data : list pyval) :
  preserves (appended (concerns Roles)) (roles_create env g roles_data).
Proof. keeps_to Roles. Qed.

Lemma channels_delete_concerns_channels :
  preserves (appended (concerns Channels)) (channels_delete env g).
Proof. keeps_to Channels. Qed.

Lemma categories_create_concerns_channels (channels_data : list pyval) :
  preserves (appended (concerns Channels)) (categories_create env g channels_data).
Proof. keeps_to Channels. Qed.

Lemma channels_create_concerns_channels (channels_data : list pyval) :
  preserves (appended (concerns Channels)) (channels_create env g channels_data).
Proof. keeps_to Channels. Qed.

Lemma emojis_delete_concerns_emojis :
  preserves (appended (concerns Emojis)) (emojis_delete env g).
Proof. keeps_to Emojis. Qed.

Lemma emojis_create_concerns_emojis (emojis_data : list pyval) :
  preserves (appended (concerns Emojis)) (emojis_create env g emojis_data).
Proof. keeps_to Emojis. Qed.

Lemma guild_edit_concerns_settings (guild_data : pyval) :
  preserves (appended (concerns Settings)) (guild_edit env g guild_data).
Proof. keeps_to Settings. Qed.

End Subjects.

(** X7: the entries of the menu that clone or wipe one kind of object ask
    the target for nothing about another kind, whatever the services answer
    and whatever is typed: [do_clone_roles] and [do_delete_roles] issue only
    calls about roles, [do_clone_structure] and [do_delete_channels] only
    calls about channels and categories, [do_clone_emojis] only calls about
    emojis and downloads of emoji images. *)
Theorem partial_clones_keep_to_their_subject (env : services) :
  preserves (appended (concerns Roles)) (do_clone_roles env)
  /\ preserves (appended (concerns Roles)) (do_delete_roles env)
  /\ preserves (appended (concerns Channels)) (do_clone_structure env)
  /\ preserves (appended (concerns Channels)) (do_delete_channels env)
  /\ preserves (appended (concerns Emojis)) (do_clone_emojis env).
Proof.
  repeat split.
  - keeps_to Roles.
  - keeps_to Roles.
  - keeps_to Channels.
  - keeps_to Channels.
  - keeps_to Emojis.
Qed.

(** ** [Clone.roles_create]: the default role is edited, never created *)

(** As [frame_with], keeping what a test has found. *)
Ltac frame_cases Rr Rt leaf :=
  repeat first
    [ apply (preserves_ret _ Rr)
    | apply (preserves_lift _ Rr)
    | apply (preserves_read _ Rr)
    | apply (preserves_bind _ Rt); [ | intros ? ]
    | apply (preserves_try_except _ Rt); [ | intros ? ? ? ]
    | apply (preserves_for_each _ Rr Rt); intros ?
    | match goal with
      | |- preserves _ (if ?b then _ else _) => destruct b eqn:?
      | |- preserves _ (match ?x with _ => _ end) => destruct x eqn:?
      | H : match ?e with _ => _ end = Some _ |- _ =>
          destruct e; inversion H; subst; clear H
      | H : except_Exception _ _ = Some _ |- _ =>
          unfold except_Exception in H; inversion H; subst; clear H
      | H : Some _ = Some _ |- _ => inversion H; subst; clear H
      | H : None = Some _ |- _ => discriminate H
      end
    | leaf ].

Ltac leaf_role_phase :=
  first
    [ apply appended_emit; exact I
    | apply appended_modify; intros ?; reflexivity
    | apply appended_request; intros ?; simpl;
      first [ assumption | reflexivity | apply String.eqb_neq; assumption ]
    | apply appended_print_status; intros ? ? ? ?; exact I ].

(** X8: the roles phase never creates a role named [@everyone] and never
    moves one: whatever the snapshot holds and whatever the target answers,
    the only calls of [roles_create] (its reposition pass included) are the
    creation of roles with another name, the edit of the permissions of the
    default role of the target, and the edit of the position of roles with
    another name.  It downloads nothing. *)
Theorem roles_create_edits_the_default_role_in_place
    (env : services) (g : guild) (roles_data : list pyval) :
  preserves (appended (role_phase_event g)) (roles_create env g roles_data).
Proof.
  unfold roles_create, reorder_roles. unfold_clone.
  frame_cases (appended_refl (role_phase_event g))
              (appended_trans (role_phase_event g))
              leaf_role_phase.
Qed.

(** ** [CloneBot.do_full_clone]: the order of the steps *)

Lemma staged_refl (lo hi : nat) (s : state) : staged lo hi s s.
Proof. exists []. repeat split; constructor. Qed.

Lemma staged_widen (lo hi lo' hi' : nat) (s s' : state) :
  (lo' <= lo)%nat -> (hi <= hi')%nat -> staged lo hi s s' -> staged lo' hi' s s'.
Proof.
  intros Hlo Hhi [new [T [B O]]]. exists new. repeat split; auto.
  eapply Forall_impl; [ | exact B ]. simpl. intros c Hc. lia.
Qed.

Lemma in_order_app (a b : list call) (k : nat) :
  in_order a -> in_order b ->
  Forall (fun c => (stage_of c <= k)%nat) a ->
  Forall (fun c => (k <= stage_of c)%nat) b ->
  in_order (a ++ b).
Proof.
  unfold in_order. intros Ha Hb Hak Hbk.
  induction Ha as [ | x a Ha IH Hx]; simpl; [ exact Hb | ].
  inversion Hak; subst. constructor; [ now apply IH | ].
  apply Forall_app. split; [ exact Hx | ].
  eapply Forall_impl; [ | exact Hbk ]. simpl. intros c Hc. lia.
Qed.

(** One step after another. *)
Lemma staged_seq (a b c d : nat) (s s1 s2 : state) :
  (b <= c)%nat -> staged a b s s1 -> staged c d s1 s2 ->
  staged (Nat.min a c) (Nat.max b d) s s2.
Proof.
  intros Hbc [n1 [T1 [B1 O1]]] [n2 [T2 [B2 O2]]].
  exists (n2 ++ n1). rewrite calls_app.
  split; [ rewrite T2, T1; apply app_assoc | ]. split.
  - apply Forall_app. split.
    + eapply Forall_impl; [ | exact B1 ]. simpl. intros x Hx. lia.
    + eapply Forall_impl; [ | exact B2 ]. simpl. intros x Hx. lia.
  - apply (in_order_app _ _ b); auto.
    + eapply Forall_impl; [ | exact B1 ]. simpl. intros x Hx. lia.
    + eapply Forall_impl; [ | exact B2 ]. simpl. intros x Hx. lia.
Qed.

(** The calls of one step are in order. *)
Lemma staged_of_appended (k : nat) (s s' : state) :
  appended (at_stage k) s s' -> staged k k s s'.
Proof.
  intros [new [T F]]. exists new. split; [ exact T | ].
  assert (H : Forall (fun c => stage_of c = k) (calls new)).
  { unfold calls. apply Forall_flat_map. apply Forall_rev.
    eapply Forall_impl; [ | exact F ].
    intros [ | c r | | | | | | | ] He; simpl; constructor; auto. }
  split.
  - eapply Forall_impl; [ | exact H ]. simpl. intros c Hc. lia.
  - unfold in_order. induction H as [ | c cs Hc Hcs IH]; constructor; auto.
    eapply Forall_impl; [ | exact Hcs ]. simpl. intros c' Hc'. lia.
Qed.

Lemma preserves_seq {A B} (a b c d : nat) (m : M A) (k : A -> M B) :
  (b <= c)%nat -> (c <= d)%nat ->
  preserves (staged a b) m -> (forall x, preserves (staged c d) (k x)) ->
  preserves (staged (Nat.min a c) (Nat.max b d)) (bind m k).
Proof.
  intros Hbc Hcd Hm Hk s. unfold bind.
  specialize (Hm s). destruct (m s) as [[x | e] s1]; simpl in *.
  - eapply staged_seq; eauto. apply Hk.
  - eapply staged_widen; [ | | exact Hm ]; lia.
Qed.

Ltac leaf_stage :=
  first
    [ apply appended_emit; exact I
    | apply appended_modify; intros ?; reflexivity
    | apply appended_request; intros ?; reflexivity
    | apply appended_download; intros ?; exact I
    | apply appended_print_status; intros ? ? ? ?; exact I
    | apply appended_input ].

Lemma staged_of_preserves {A} (k : nat) (m : M A) :
  preserves (appended (at_stage k)) m -> preserves (staged k k) m.
Proof. intros H s. apply staged_of_appended, H. Qed.

Lemma staged_below {A} (hi : nat) (m : M A) :
  preserves (appended (at_stage 0)) m -> preserves (staged 0 hi) m.
Proof.
  intros H s. eapply staged_widen; [ | | apply staged_of_appended, H ].
  - apply Nat.le_refl.
  - apply Nat.le_0_l.
Qed.

Ltac at_stage_only k :=
  apply staged_of_preserves;
  unfold_all;
  frame_with (appended_refl (at_stage k)) (appended_trans (at_stage k))
             leaf_stage.

Section Stages.

Variable env : services.
Variable g : guild.

Lemma quiet_stage (k : nat) : preserves (staged k k) (cloner_reset_stats).
Proof. at_stage_only k. Qed.

Lemma guild_edit_stage (d : pyval) : preserves (staged 0 0) (guild_edit env g d).
Proof. at_stage_only 0%nat. Qed.

Lemma emojis_delete_stage : preserves (staged 1 1) (emojis_delete env g).
Proof. at_stage_only 1%nat. Qed.

Lemma channels_delete_stage : preserves (staged 2 2) (channels_delete env g).
Proof. at_stage_only 2%nat. Qed.

Lemma roles_delete_stage : preserves (staged 3 3) (roles_delete env g).
Proof. at_stage_only 3%nat. Qed.

Lemma roles_create_stage (d : list pyval) :
  preserves (staged 4 4) (roles_create env g d).
Proof. at_stage_only 4%nat. Qed.

Lemma categories_create_stage (d : list pyval) :
  preserves (staged 5 5) (categories_create env g d).
Proof. at_stage_only 5%nat. Qed.

Lemma channels_create_stage (d : list pyval) :
  preserves (staged 6 6) (channels_create env g d).
Proof. at_stage_only 6%nat. Qed.

Lemma emojis_create_stage (d : list pyval) :
  preserves (staged 7 7) (emojis_create env g d).
Proof. at_stage_only 7%nat. Qed.

End Stages.

Ltac step a b c d tac :=
  apply (preserves_seq a b c d); [ lia | lia | tac | intros ? ].

Ltac quiet k := solve [ at_stage_only k ].

(** X9: a full run goes step after step.  Whatever the services answer
    and wherever the run stops, the calls that [do_full_clone] has issued
    come in this order: those on the settings of the guild, the deletions
    of emojis, of channels and of roles, then the calls that create the
    roles, those that create the categories, those that create the channels
    and those that create the emojis.  Nothing is created before the wipe
    is over, and no channel is created before the roles and the
    categories. *)
Theorem do_full_clone_goes_step_after_step (env : services) (s : state) :
  exists new,
    trace (snd (do_full_clone env s)) = new ++ trace s
    /\ in_order (calls new).
Proof.
  assert (H : preserves (staged 0 7) (do_full_clone env)).
  { unfold do_full_clone.
    step 0%nat 0%nat 0%nat 7%nat ltac:(quiet 0%nat).
    match goal with
    | |- preserves _ (match ?x with _ => _ end) => destruct x as [data | ]
    end.
    2:{ apply staged_below. unfold_all.
        frame_with (appended_refl (at_stage 0)) (appended_trans (at_stage 0))
                   leaf_stage. }
    step 0%nat 0%nat 0%nat 7%nat ltac:(quiet 0%nat).
    match goal with
    | |- preserves _ (match ?x with _ => _ end) => destruct x as [target | ]
    end.
    2:{ intros s0. apply staged_refl. }
    match goal with
    | |- preserves _ (if ?b then _ else _) => destruct b
    end.
    1:{ apply staged_below. unfold_all.
        frame_with (appended_refl (at_stage 0)) (appended_trans (at_stage 0))
                   leaf_stage. }
    step 0%nat 0%nat 0%nat 7%nat ltac:(quiet 0%nat).
    match goal with
    | |- preserves _ (if ?b then _ else _) => destruct b
    end.
    1:{ intros s0. apply staged_refl. }
    step 0%nat 0%nat 0%nat 7%nat ltac:(quiet 0%nat).
    step 0%nat 0%nat 0%nat 7%nat ltac:(quiet 0%nat).
    step 0%nat 0%nat 0%nat 7%nat ltac:(quiet 0%nat).
    step 0%nat 0%nat 0%nat 7%nat ltac:(apply quiet_stage).
    step 0%nat 0%nat 1%nat 7%nat ltac:(apply guild_edit_stage).
    step 1%nat 1%nat 1%nat 7%nat ltac:(apply quiet_stage).
    step 1%nat 1%nat 2%nat 7%nat ltac:(apply emojis_delete_stage).
    step 2%nat 2%nat 2%nat 7%nat ltac:(apply quiet_stage).
    step 2%nat 2%nat 3%nat 7%nat ltac:(apply channels_delete_stage).
    step 3%nat 3%nat 3%nat 7%nat ltac:(apply quiet_stage).
    step 3%nat 3%nat 4%nat 7%nat ltac:(apply roles_delete_stage).
    step 4%nat 4%nat 4%nat 7%nat ltac:(apply quiet_stage).
    step 4%nat 4%nat 5%nat 7%nat ltac:(apply roles_create_stage).
    step 5%nat 5%nat 5%nat 7%nat ltac:(apply quiet_stage).
    step 5%nat 5%nat 6%nat 7%nat ltac:(apply categories_create_stage).
    step 6%nat 6%nat 6%nat 7%nat ltac:(apply quiet_stage).
    step 6%nat 6%nat 7%nat 7%nat ltac:(apply channels_create_stage).
    step 7%nat 7%nat 7%nat 7%nat ltac:(apply quiet_stage).
    step 7%nat 7%nat 7%nat 7%nat ltac:(apply emojis_create_stage).
    quiet 7%nat. }
  destruct (H s) as [new [T [_ O]]]. exists new. auto.
Qed.

(** ** The creation loops with [except Exception] *)

Section AnyFailure.

Variable env : services.

(** One request, whatever it raises. *)
Ltac call_service :=
  match goal with
  | |- context [api env ?h ?c] =>
      lazymatch h with
      | context [api] => fail
      | _ => destruct (api env h c) as [? | []] eqn:?
      end
  end; cbn.

Ltac unfold_run :=
  unfold accounted, rate_wait, log_add, log_delete, log_error, incr_completed,
    set_operation, set_total, set_completed, print_status,
    register_role, register_cat, register_chan, parse_permission_overwrites,
    except_Exception,
    bind, try_except, request, download, emit, modify, read, lift, ret.

Ltac case_lift :=
  match goal with
  | |- context [match safe_int ?v ?d with _ => _ end] =>
      destruct (safe_int v d) as [? | []] eqn:?
  | |- context [match remap_set ?m ?k ?v with _ => _ end] =>
      destruct (remap_set m k v) as [? | []] eqn:?
  | |- context [match cdn env ?h ?u with _ => _ end] =>
      destruct (cdn env h u) as [[? ?] | []] eqn:?
  end; cbn.

Ltac run_turn := repeat first [ read_off | call_service | case_lift ].

Ltac known_reads :=
  repeat match goal with
  | H : safe_int ?v 0 = Ok _ |- context [safe_int ?v 0] => rewrite H
  | |- context [translate ?a ?b ?c ?d] =>
      match goal with
      | Hc : overwrites_ok c |- _ =>
          let o := fresh "o" in let Ho := fresh "Ho" in
          destruct (translate_ok c a b d Hc) as [o Ho]; rewrite Ho
      end
  end.

Lemma roles_create_absorbs (g : guild) (roles_data : list pyval) :
  Forall role_ok roles_data ->
  completes_phase (roles_create env g roles_data) (List.length roles_data).
Proof.
  intros Hok s. unfold roles_create, set_operation, set_total, set_completed.
  rewrite !bind_modify.
  destruct (sorted_by_perm role_position roles_data) as [sorted [Esort Hperm]].
  { eapply Forall_impl; [ | exact Hok ]. intros r [_ [H _]]. exact H. }
  rewrite Esort, bind_lift_ok.
  assert (Hsorted : Forall role_ok sorted).
  { rewrite Forall_forall in *. intros x Hx. apply Hok.
    now apply (Permutation_in _ Hperm). }
  rewrite <- (Permutation_length Hperm).
  match goal with
  | |- exists s' new, (for_each sorted ?body ;; print_status ;; ?after) ?s0 = _ /\ _ =>
      destruct (loop_and_status body sorted s s0) as [s1 [new1 [E1 [T1 [C1 [N1 [R1 L1]]]]]]];
        [ | reflexivity | reflexivity | reflexivity | reflexivity | ]
  end.
  { intros x Hx s1.
    rewrite Forall_forall in Hsorted. destruct (Hsorted x Hx) as [[d ->] _].
    unfold_run. unfold flag. cbn.
    destruct (eq_str _ "@everyone"); cbn; run_turn. }
  match goal with
  | |- exists s' new, (for_each sorted ?body ;; print_status ;; ?after) ?s0 = _ /\ _ =>
      rewrite <- (bind_bind (for_each sorted body) (fun _ => print_status)
                    (fun _ => after) s0)
  end.
  rewrite (bind_ok _ _ _ _ _ E1).
  unfold reorder_roles, set_operation. rewrite bind_modify.
  match goal with
  | |- exists s' new, for_each sorted _ ?s2 = _ /\ _ =>
      destruct (reorder_roles_quiet env g sorted Hsorted s2)
        as [s3 [new3 [E3 [T3 [C3 [N3 [R3 [K3 L3]]]]]]]]
  end.
  exists s3, (new3 ++ new1). rewrite E3.
  split; [ reflexivity | ].
  split; [ rewrite T3; cbn; rewrite T1; apply app_assoc | ].
  cbn in C3, N3, R3.
  split; [ congruence | ]. split; [ congruence | ].
  split; [ rewrite count_errors_app, K3; simpl; congruence | ].
  apply logged_from_app; [ apply L3 | exact L1 ].
Qed.

Lemma channels_create_absorbs (g : guild) (channels_data : list pyval) :
  Forall leaf_ok channels_data ->
  completes_phase (channels_create env g channels_data)
    (List.length (leaves_of channels_data)).
Proof.
  intros Hok s. unfold channels_create, set_operation.
  rewrite bind_modify.
  rewrite (filter_result_all is_not_category
             (fun c => negb (eq_int (field c "type" PNone) 4)) channels_data).
  2:{ eapply Forall_impl; [ | exact Hok ]. intros c [[d ->] _]. reflexivity. }
  rewrite bind_lift_ok. fold (leaves_of channels_data).
  assert (Hleaves : Forall leaf_ok (leaves_of channels_data)).
  { rewrite Forall_forall in *. intros x Hx. apply Hok.
    unfold leaves_of in Hx. now apply filter_In in Hx. }
  destruct (sorted_by_perm channel_position (leaves_of channels_data))
    as [sorted [Esort Hperm]].
  { eapply Forall_impl; [ | exact Hleaves ]. intros c [_ [_ [Hpos _]]]. exact Hpos. }
  rewrite Esort, bind_lift_ok.
  assert (Hsorted : Forall leaf_ok sorted).
  { rewrite Forall_forall in *. intros x Hx. apply Hleaves.
    now apply (Permutation_in _ Hperm). }
  rewrite <- (Permutation_length Hperm).
  unfold set_total, set_completed. rewrite !bind_modify.
  destruct sorted as [ | c0 rest] eqn:Es.
  { do 2 eexists. split; [ reflexivity | ].
    split; [ apply nil_prefix | ]. cbn. repeat split; lia. }
  rewrite <- Es in *. clear Es.
  apply loop_and_status; [ | reflexivity | reflexivity | reflexivity | reflexivity ].
  intros x Hx s1.
  rewrite Forall_forall in Hsorted.
  destruct (Hsorted x Hx) as [[d ->] [[chan_type Htype] [[pos Hpos] [Hparent Hows]]]].
  unfold int_field, field in *. cbn [py_get rbind] in *.
  unfold channel_item, create_channel. unfold_run. cbn.
  rewrite (resolve_category_parent_of (cat_map s1) _ Hparent).
  known_reads. cbn.
  destruct (chan_type =? 0); [ cbn; run_turn | ].
  destruct (chan_type =? 2); [ cbn; run_turn | ].
  destruct (chan_type =? 5); [ cbn; run_turn | ].
  destruct (chan_type =? 13); [ cbn; run_turn | ].
  destruct (chan_type =? 15); cbn; run_turn.
Qed.

Lemma emojis_create_absorbs (g : guild) (emojis_data : list pyval) :
  Forall is_dict emojis_data ->
  completes_phase (emojis_create env g emojis_data) (List.length emojis_data).
Proof.
  intros Hok s. unfold emojis_create, set_operation, set_total, set_completed.
  rewrite !bind_modify.
  destruct emojis_data as [ | e0 rest] eqn:Es.
  { do 2 eexists. split; [ reflexivity | ].
    split; [ apply nil_prefix | ]. cbn. repeat split; lia. }
  rewrite <- Es in *. clear Es.
  apply loop_and_status; [ | reflexivity | reflexivity | reflexivity | reflexivity ].
  intros x Hx s1.
  rewrite Forall_forall in Hok. destruct (Hok x Hx) as [d ->].
  unfold_run. unfold flag. cbn.
  destruct (truthy match assoc "id" d with Some x => x | None => PNone end); cbn.
  2:{ read_off. }
  case_lift; try read_off.
  destruct (_ =? 200); cbn; run_turn.
Qed.

End AnyFailure.



(** ** [Clone.emojis_create]: what is uploaded *)

Lemma uploads_follow_downloads_app (items : list pyval) (a b : list event) :
  uploads_follow_downloads items a -> uploads_follow_downloads items b ->
  uploads_follow_downloads items (a ++ b).
Proof.
  intros Ha Hb. induction a as [ | e a IH]; simpl; [ exact Hb | ].
  destruct e as [ | c r | | | | | | | ]; simpl in *; auto.
  destruct c; auto.
  destruct Ha as [[x [Hx [Hn Hh]]] Ha]. split; [ | now apply IH ].
  exists x. split; [ exact Hx | ]. split; [ exact Hn | ].
  destruct a; [ discriminate Hh | exact Hh ].
Qed.

Lemma uploading_refl (items : list pyval) (s : state) : uploading items s s.
Proof. exists []. split; [ reflexivity | exact I ]. Qed.

Lemma uploading_trans (items : list pyval) (a b c : state) :
  uploading items a b -> uploading items b c -> uploading items a c.
Proof.
  intros [n1 [T1 U1]] [n2 [T2 U2]]. exists (n2 ++ n1).
  split; [ rewrite T2, T1; apply app_assoc | ].
  now apply uploads_follow_downloads_app.
Qed.

Section Emojis.

Variable env : services.
Variable g : guild.

Ltac unfold_run :=
  unfold rate_wait, log_add, log_delete, log_error, incr_completed,
    set_operation, set_total, set_completed, print_status, except_Exception,
    bind, try_except, request, download, emit, modify, read, lift, ret.

Ltac done_uploading x :=
  eexists; split; [ cbn; repeat (eapply cons_prefix); apply nil_prefix | ];
  cbn; repeat split; try (exists x; repeat split; assumption).

Lemma emojis_create_uploading (emojis_data : list pyval) :
  preserves (uploading emojis_data) (emojis_create env g emojis_data).
Proof.
  pose proof (uploading_refl emojis_data) as Rr.
  pose proof (uploading_trans emojis_data) as Rt.
  unfold emojis_create.
  apply (preserves_bind _ Rt); [ intros s; unfold_run; done_uploading PNone | intros _ ].
  apply (preserves_bind _ Rt); [ intros s; unfold_run; done_uploading PNone | intros _ ].
  apply (preserves_bind _ Rt); [ intros s; unfold_run; done_uploading PNone | intros _ ].
  assert (Hloop : preserves (uploading emojis_data)
    (for_each emojis_data (fun emoji_data =>
        rate_wait ;;
        name <- lift (py_get emoji_data "name" (PStr "unnamed")) ;;
        a <- lift (py_get emoji_data "animated" (PBool false)) ;;
        let animated := flag a in
        emoji_id <- lift (py_get emoji_data "id" PNone) ;;
        if negb (truthy emoji_id) then
          log_error "no emoji id for: " name None ;;
          incr_completed
        else
          try_except
            (let ext := if truthy animated then "gif" else "png" in
             resp <- download env (EmojiUrl emoji_id ext) ;;
             if fst resp =? 200 then
               request env (CreateCustomEmoji name (snd resp)) ;;
               log_add "created emoji: " name
             else
               log_error "download failed: " name None)
            (fun e =>
               match e with
               | Forbidden => Some (log_error "forbidden: " name None)
               | HTTPException => Some (log_error "http error: " name (Some e))
               | _ => Some (log_error "error: " PNone (Some e))
               end) ;;
          incr_completed))).
  { apply (preserves_for_each_in _ Rr Rt). intros x Hx s.
    destruct x as [ | b | z | f | str | l | d];
      try (unfold_run; done_uploading PNone).
    unfold_run. cbn.
    destruct (truthy match assoc "id" d with Some x => x | None => PNone end);
      cbn; [ | done_uploading PNone ].
    destruct (cdn env _ _) as [[status image] | []] eqn:Ecdn; cbn;
      try done_uploading PNone.
    destruct (status =? 200) eqn:E200; cbn; [ | done_uploading PNone ].
    apply Z.eqb_eq in E200. subst status.
    destruct (api env _ _) as [? | []]; cbn.
    all: eexists; (split; [ cbn; repeat (eapply cons_prefix); apply nil_prefix | ]).
    all: cbn; repeat split.
    all: exists (PDict d); repeat split; assumption || reflexivity. }
  destruct emojis_data as [ | e0 rest] eqn:Es.
  - apply (preserves_ret _ Rr).
  - rewrite <- Es in *.
    apply (preserves_bind _ Rt); [ exact Hloop | intros _ ].
    intros s; unfold_run; done_uploading PNone.
Qed.

End Emojis.

(** X11: [emojis_create] uploads only what it has just downloaded.
    Whatever the snapshot holds and whatever the services answer, every call
    that creates an emoji comes right after a download answered with status
    200, from the address of an emoji of the snapshot ([.gif] for an
    animated one, [.png] otherwise), and it creates an emoji with the name of
    that item and with the bytes downloaded.  An emoji without an id, a
    download that fails or is answered with another status, lead to no
    call. *)
Theorem emojis_create_uploads_what_it_downloaded
    (env : services) (g : guild) (emojis_data : list pyval) (s : state) :
  exists new,
    trace (snd (emojis_create env g emojis_data s)) = new ++ trace s
    /\ uploads_follow_downloads emojis_data new.
Proof. apply emojis_create_uploading. Qed.

(** ** [Clone.guild_edit]: the rename decides, the icon is a best effort *)


(** ** The entries of the menu that clone one kind of object *)

(** X13: the five entries of the menu that clone or wipe one kind of
    object are guarded as the full run is.  When the precondition does not
    hold (no connected bot, no target set, target guild not visible to the
    bot, or one of [manage_channels] and [manage_roles] missing), each of
    them returns normally and all it has done is to write one error line to
    the log: nothing was read from the keyboard, no call was issued and no
    table has changed. *)
Theorem partial_entries_need_ready_target (env : services) (s : state) :
  (forall g, ~ target_ready s g) ->
  (exists msg, do_clone_roles env s = (Ok tt, noticed "err" msg s))
  /\ (exists msg, do_clone_structure env s = (Ok tt, noticed "err" msg s))
  /\ (exists msg, do_clone_emojis env s = (Ok tt, noticed "err" msg s))
  /\ (exists msg, do_delete_roles env s = (Ok tt, noticed "err" msg s))
  /\ (exists msg, do_delete_channels env s = (Ok tt, noticed "err" msg s)).
Proof.
  intros Hnot.
  destruct (check_target_cases s) as [[g [Hg _]] | [_ [msg Hcheck]]];
    [ exfalso; exact (Hnot g Hg) | ].
  unfold do_clone_roles, do_clone_structure, do_clone_emojis,
    do_delete_roles, do_delete_channels.
  rewrite !bind_read.
  repeat split;
    try (destruct (scraped_data s) as [data | ];
         [ | eexists; reflexivity ]);
    exists msg; unfold bind at 1; rewrite Hcheck; reflexivity.
Qed.

Lemma partial_entries_need_ready_target_witness :
  (forall g, ~ target_ready (restricted ["y"; ""]) g)
  /\ (exists msg,
        do_clone_roles accepting (restricted ["y"; ""])
        = (Ok tt, noticed "err" msg (restricted ["y"; ""]))).
Proof.
  assert (H : forall g, ~ target_ready (restricted ["y"; ""]) g).
  { intros g [guilds [id [Hc [Ht [_ [Hg [_ Hmr]]]]]]].
    simpl in Hc, Ht. injection Hc as <-. injection Ht as <-.
    vm_compute in Hg. injection Hg as <-. discriminate Hmr. }
  split; [ exact H | ].
  exact (proj1 (partial_entries_need_ready_target accepting
                  (restricted ["y"; ""]) H)).
Defined.

(** *** The question before a partial clone *)

Ltac leaf_no_deletion :=
  first
    [ apply appended_emit; exact I
    | apply appended_modify; intros ?; reflexivity
    | apply appended_request; intros ?; reflexivity
    | apply appended_download; intros ?; exact I
    | apply appended_print_status; intros ? ? ? ?; exact I
    | apply appended_input ].

Ltac deletes_nothing :=
  unfold_all;
  frame_with (appended_refl no_deletion) (appended_trans no_deletion)
             leaf_no_deletion.

(** What follows the question, when the answer is not [y]. *)
Lemma not_y_then (prompt : string) (s : state) (go_delete rest : M unit) :
  ~ confirms s "y" ->
  preserves (appended no_deletion) rest ->
  appended no_deletion s
    (snd ((answer <- get_input prompt ;;
           (if String.eqb answer "y" then go_delete else ret tt) ;;
           rest) s)).
Proof.
  intros Hno Hrest.
  destruct (get_input_cases prompt s)
    as [[_ Hg] | [line [tl [Hs Hg]]]].
  - rewrite (bind_raise _ _ _ _ _ Hg). apply appended_refl.
  - rewrite (bind_ok _ _ _ _ _ Hg).
    destruct (String.eqb (strip line) "y") eqn:E.
    + exfalso. apply Hno. exists line, tl. apply String.eqb_eq in E. auto.
    + rewrite bind_ret.
      eapply appended_trans; [ | apply Hrest ].
      exists [Prompt prompt line].
      split; [ reflexivity | repeat constructor ].
Qed.

(** X14: a partial clone wipes only on the answer [y].  When the line
    typed at the question of [do_clone_roles], [do_clone_structure] or
    [do_clone_emojis] is anything but [y] once the white space around it is
    removed (another letter, [Y], [yes], an empty line, or no line at all),
    the entry deletes nothing: no call of the run is the deletion of a role,
    of a channel or of an emoji. *)
Theorem partial_clones_wipe_only_on_y (env : services) (s : state) :
  ~ confirms s "y" ->
  appended no_deletion s (snd (do_clone_roles env s))
  /\ appended no_deletion s (snd (do_clone_structure env s))
  /\ appended no_deletion s (snd (do_clone_emojis env s)).
Proof.
  intros Hno.
  unfold do_clone_roles, do_clone_structure, do_clone_emojis.
  rewrite !bind_read.
  destruct (scraped_data s) as [data | ].
  2:{ repeat split; exists [Notice "err" "no data"];
        (split; [ reflexivity | repeat constructor ]). }
  destruct (check_target_cases s) as [[g [_ Hc]] | [_ [msg Hc]]];
    rewrite !(bind_ok _ _ _ _ _ Hc).
  2:{ repeat split; exists [Notice "err" msg];
        (split; [ reflexivity | repeat constructor ]). }
  repeat split; apply not_y_then; try exact Hno; deletes_nothing.
Qed.

Lemma partial_clones_wipe_only_on_y_witness :
  ~ confirms (loaded ["yes"; ""]) "y"
  /\ appended no_deletion (loaded ["yes"; ""])
       (snd (do_clone_roles accepting (loaded ["yes"; ""]))).
Proof.
  assert (H : ~ confirms (loaded ["yes"; ""]) "y").
  { intros [line [rest [Hs Hw]]]. simpl in Hs. injection Hs as <- _.
    vm_compute in Hw. discriminate Hw. }
  split; [ exact H | ].
  exact (proj1 (partial_clones_wipe_only_on_y accepting (loaded ["yes"; ""]) H)).
Defined.

(** ** [CloneBot.set_target] *)

Lemma among_refl (guilds : list guild) (s : state) : among guilds s s.
Proof. split; [ repeat split | split; [ reflexivity | now left ] ]. Qed.

Lemma among_trans (guilds : list guild) (a b c : state) :
  among guilds a b -> among guilds b c -> among guilds a c.
Proof.
  intros [U1 [C1 T1]] [U2 [C2 T2]].
  split; [ eapply untouched_trans; eauto | ].
  split; [ congruence | ].
  destruct T2 as [T2 | T2]; [ | right; exact T2 ].
  destruct T1 as [T1 | T1]; [ left; congruence | right ].
  destruct T1 as [g [Hg Ht]]. exists g. split; [ exact Hg | congruence ].
Qed.

Ltac leaf_among :=
  let s0 := fresh "s" in
  intros s0; unfold input, emit, modify, log;
  try (destruct (stdin s0)); cbn;
  first
    [ solve [ split; [ repeat split | split; [ reflexivity | now left ] ] ]
    | match goal with
      | H : nth_error _ _ = Some ?g |- _ =>
          split; [ repeat split | split; [ reflexivity | right; exists g ] ];
          split; [ exact (nth_error_In _ _ H) | reflexivity ]
      | H : find _ _ = Some ?g |- _ =>
          let Hin := fresh in let He := fresh in
          destruct (find_some _ _ H) as [Hin He];
          apply Z.eqb_eq in He;
          split; [ repeat split | split; [ reflexivity | right; exists g ] ];
          split; [ exact Hin | cbn; now rewrite He ]
      end ].

(** X15: [set_target] sets the target to a guild of the bot, or leaves
    it as it was.  Whatever is typed, and also when the input ends, after
    [set_target] the id of the target is the one it was before or the id of
    one of the guilds the bot is in; no call was issued and no table has
    changed. *)
Theorem set_target_chooses_a_guild_of_the_bot (s : state) :
  let s' := snd (set_target s) in
  untouched s s'
  /\ client s' = client s
  /\ (target_id s' = target_id s
      \/ exists guilds g,
           client s = Some guilds /\ In g guilds
           /\ target_id s' = Some (guild_id g)).
Proof.
  cbv zeta. unfold set_target. rewrite bind_read.
  destruct (client s) as [guilds | ] eqn:Hc.
  2:{ unfold log, emit, modify. cbn.
      split; [ repeat split | split; [ exact Hc | now left ] ]. }
  assert (H : preserves (among guilds)
    (sel <- get_input "enter number or server id: " ;;
      by_number <-
        try_except
          (num <- lift (match int_of_str sel with
                        | Some z => Ok z
                        | None => Raise ValueError
                        end) ;;
           if (1 <=? num) && (num <=? Z.of_nat (List.length guilds)) then
             match nth_error guilds (Z.to_nat (num - 1)) with
             | Some g =>
                 modify (set_target_id (Some (guild_id g))) ;;
                 log ("target: " ++ guild_name g) "ok" ;;
                 get_input "press enter..." ;;
                 ret true
             | None => ret false
             end
           else ret false)
          (except_Exception (fun _ => ret false)) ;;
      if by_number then ret tt
      else
        by_id <-
          try_except
            (sid <- lift (match int_of_str sel with
                          | Some z => Ok z
                          | None => Raise ValueError
                          end) ;;
             match find (fun g => guild_id g =? sid) guilds with
             | Some g =>
                 modify (set_target_id (Some sid)) ;;
                 log ("target: " ++ guild_name g) "ok" ;;
                 get_input "press enter..." ;;
                 ret true
             | None => ret false
             end)
            (except_Exception (fun _ => ret false)) ;;
        if by_id then ret tt
        else
          log "invalid selection" "err" ;;
          get_input "press enter..." ;;
          ret tt)).
  { unfold get_input.
    frame_cases (among_refl guilds) (among_trans guilds) leaf_among. }
  destruct (H s) as [Hu [Hcl Ht]].
  split; [ exact Hu | ]. split; [ now rewrite Hcl | ].
  destruct Ht as [Ht | [g [Hg Ht]]]; [ now left | right ].
  exists guilds, g. auto.
Qed.



(** ** [CloneBot.scrape_source], and the full run after it *)

(** What [get] returns for an answer that is a failure has no name. *)
Lemma failed_read_has_no_name (srv : server) (endpoint : string) (n : nat)
    (v : pyval) :
  retry_delay (srv n endpoint) = None ->
  failed (srv n endpoint) = true ->
  get 1 srv endpoint n = Some (mkFetched v (S n) []) ->
  exists d, guild_or_error v = PDict d
            /\ has_key "error" d = true /\ has_key "name" d = false.
Proof.
  unfold retry_delay, failed. simpl.
  destruct (srv n endpoint) as [status hdr body | e].
  - destruct (status =? 200) eqn:E200.
    + destruct body as [doc | e]; intros _ F H; [ discriminate F | ].
      inversion H. eexists. repeat split.
    + destruct (status =? 429).
      * destruct hdr; try discriminate. intros _ _ H. inversion H.
        eexists. repeat split.
      * intros _ _ H.
        destruct (status =? 403); [ | destruct (status =? 401) ];
          inversion H; eexists; repeat split.
  - intros _ _ H. inversion H. eexists. repeat split.
Qed.



(** ** The log of the session: [CloneBot.log] and [show_logs] *)

Lemma last_items_app {A} (n : nat) (pre l : list A) :
  (n <= List.length l)%nat ->
  Logs.last_items n (pre ++ l) = Logs.last_items n l.
Proof.
  intros H. unfold Logs.last_items. rewrite length_app.
  replace (List.length pre + List.length l - n)%nat
    with (List.length pre + (List.length l - n))%nat by lia.
  rewrite skipn_app.
  rewrite skipn_all2 by lia.
  replace (List.length pre + (List.length l - n) - List.length pre)%nat
    with (List.length l - n)%nat by lia.
  reflexivity.
Qed.

Lemma last_items_short {A} (n : nat) (l : list A) :
  (List.length l <= n)%nat -> Logs.last_items n l = l.
Proof.
  intros H. unfold Logs.last_items.
  replace (List.length l - n)%nat with 0%nat by lia. reflexivity.
Qed.

Lemma last_items_length {A} (n : nat) (l : list A) :
  List.length (Logs.last_items n l) = Nat.min n (List.length l).
Proof. unfold Logs.last_items. rewrite length_skipn. lia. Qed.

(** The last items of a list are the last items of any longer end of it. *)
Lemma last_items_of_last_items {A} (m n : nat) (a b : list A) :
  (n <= m)%nat ->
  Logs.last_items n (Logs.last_items m a ++ b) = Logs.last_items n (a ++ b).
Proof.
  intros Hnm.
  destruct (Nat.le_gt_cases (List.length a) m) as [Hs | Hl].
  - now rewrite (last_items_short m a Hs).
  - assert (Hsplit : a = firstn (List.length a - m) a ++ Logs.last_items m a).
    { unfold Logs.last_items. symmetry. apply firstn_skipn. }
    rewrite Hsplit at 2. rewrite <- app_assoc.
    symmetry. apply last_items_app.
    rewrite length_app, last_items_length. lia.
Qed.

Lemma logged_entries (entries : list Logs.entry) : forall logs,
  fold_left Logs.append entries logs
  = Logs.last_items Logs.maxlen (logs ++ entries)
    \/ (Logs.maxlen < List.length logs)%nat.
Proof.
  induction entries as [ | e entries IH]; intros logs; simpl.
  - destruct (Nat.le_gt_cases (List.length logs) Logs.maxlen) as [H | H];
      [ left | right; exact H ].
    rewrite app_nil_r. symmetry. now apply last_items_short.
  - destruct (IH (Logs.append logs e)) as [H | H].
    + left. rewrite H. unfold Logs.append.
      rewrite last_items_of_last_items by apply Nat.le_refl.
      now rewrite <- app_assoc.
    + exfalso. unfold Logs.append in H. rewrite last_items_length in H.
      unfold Logs.maxlen in H. lia.
Qed.

(** X18: the log of the session keeps the last thirty messages, and the
    panel shows the last five of all.  After any number of calls of [log]
    on a new bot, [self.logs] holds the thirty most recent entries, oldest
    first (all of them when there are fewer), and the text that [show_logs]
    prints is made of the lines of the five most recent entries, or is the
    waiting line when nothing was logged. *)
Theorem logs_keep_the_most_recent (entries : list Logs.entry) :
  let logs := fold_left Logs.append entries [] in
  logs = Logs.last_items 30 entries
  /\ (List.length logs <= 30)%nat
  /\ Logs.show_logs logs
     = match map Logs.log_line (Logs.last_items 5 entries) with
       | [] => "[dim]waiting...[/dim]"
       | lines => String.concat Logs.newline lines
       end.
Proof.
  cbv zeta.
  destruct (logged_entries entries []) as [H | H]; [ | simpl in H; lia ].
  simpl in H. fold Logs.maxlen. rewrite H.
  split; [ reflexivity | ].
  split; [ rewrite last_items_length; unfold Logs.maxlen; lia | ].
  unfold Logs.show_logs.
  rewrite <- (app_nil_r (Logs.last_items Logs.maxlen entries)).
  rewrite last_items_of_last_items by (unfold Logs.maxlen; lia).
  now rewrite app_nil_r.
Qed.

(** ** Each table is written by one phase *)

Lemma keeps_refl (tbl : state -> remap) (s : state) : keeps tbl s s.
Proof. reflexivity. Qed.

Lemma keeps_trans (tbl : state -> remap) (a b c : state) :
  keeps tbl a b -> keeps tbl b c -> keeps tbl a c.
Proof. unfold keeps. congruence. Qed.

Ltac leaf_keeps :=
  let s0 := fresh "s" in
  intros s0; unfold keeps, input, emit, modify, request, download, print_status;
  try (destruct (stdin s0)); reflexivity.

Ltac keeps_table tbl :=
  unfold_all;
  frame_with (keeps_refl tbl) (keeps_trans tbl) leaf_keeps.

(** X19: each of the three tables is written by one phase only.
    [roles_create] writes [role_map] and neither [cat_map] nor [chan_map];
    [categories_create] writes [cat_map] only, [channels_create] writes
    [chan_map] only; the three deletion phases, [emojis_create] and
    [guild_edit] write none of them.  In particular a deletion does not
    remove the entry of the object deleted. *)
Theorem each_table_has_one_writer (env : services) (g : guild) :
  (forall d, preserves (keeps cat_map) (roles_create env g d)
             /\ preserves (keeps chan_map) (roles_create env g d))
  /\ (forall d, preserves (keeps role_map) (categories_create env g d)
                /\ preserves (keeps chan_map) (categories_create env g d))
  /\ (forall d, preserves (keeps role_map) (channels_create env g d)
                /\ preserves (keeps cat_map) (channels_create env g d))
  /\ (forall tbl, tbl = role_map \/ tbl = cat_map \/ tbl = chan_map ->
        preserves (keeps tbl) (roles_delete env g)
        /\ preserves (keeps tbl) (channels_delete env g)
        /\ preserves (keeps tbl) (emojis_delete env g)
        /\ (forall d, preserves (keeps tbl) (emojis_create env g d))
        /\ (forall d, preserves (keeps tbl) (guild_edit env g d))).
Proof.
  split; [ intros d; split; [ keeps_table cat_map | keeps_table chan_map ] | ].
  split; [ intros d; split; [ keeps_table role_map | keeps_table chan_map ] | ].
  split; [ intros d; split; [ keeps_table role_map | keeps_table cat_map ] | ].
  intros tbl [-> | [-> | ->]].
  all: split; [ | split; [ | split; [ | split; [ intros d | intros d ] ] ] ].
  all: first [ solve [ keeps_table role_map ]
             | solve [ keeps_table cat_map ]
             | solve [ keeps_table chan_map ] ].
Qed.

(** ** The tables after a full run *)

Ltac leaf_other_table :=
  let s0 := fresh "s" in
  intros s0; unfold input, emit, modify, request, download, print_status;
  try (destruct (stdin s0)); cbn; settle_among.

Ltac other_phase Rr Rt :=
  solve [ unfold_all; frame_with Rr Rt leaf_other_table ].

Ltac chain Rr Rt owner :=
  repeat (apply (preserves_bind _ Rt);
          [ first [ owner | other_phase Rr Rt ] | intros ? ]);
  first [ owner | other_phase Rr Rt ].

Lemma among_values_from_empty (tbl : state -> remap)
    (handle_of : event -> option obj) (ids : list pyval)
    (s s2 s' : state) (before : list event) :
  trace s2 = before ++ trace s -> handles handle_of before = [] ->
  tbl s2 = [] ->
  registered_among tbl handle_of ids s2 s' ->
  exists new,
    trace s' = new ++ trace s
    /\ forall kv, In kv (tbl s') -> In (snd kv) (handles handle_of new).
Proof.
  intros T2 Hb He [new [ledger [T [M [H I]]]]].
  exists (new ++ before). split; [ rewrite T, T2; apply app_assoc | ].
  intros kv Hkv. rewrite M, He in Hkv.
  destruct (replay_values _ _ _ Hkv) as [[] | Hin].
  rewrite handles_app, Hb. simpl. now apply H.
Qed.



(** ** [CloneBot.get_input]: white space around the line *)

Lemma lstrip_blank_app (a s : string) :
  blank a = true -> lstrip (a ++ s) = lstrip s.
Proof.
  induction a as [ | c a IH]; simpl; [ reflexivity | ].
  destruct (is_space c); [ exact IH | discriminate ].
Qed.

Lemma rstrip_blank (b : string) : blank b = true -> rstrip b = EmptyString.
Proof.
  induction b as [ | c b IH]; simpl; [ reflexivity | ].
  destruct (is_space c); simpl; [ | discriminate ].
  intros H. now rewrite (IH H).
Qed.

Lemma rstrip_app_blank (s b : string) :
  blank b = true -> rstrip (s ++ b) = rstrip s.
Proof.
  intros Hb. induction s as [ | c s IH]; simpl.
  - now apply rstrip_blank.
  - now rewrite IH.
Qed.

(** What is left of a string without its leading white space is empty or
    starts with another character. *)
Lemma lstrip_app (s b : string) :
  lstrip (s ++ b) = match lstrip s with
                    | EmptyString => lstrip b
                    | t => (t ++ b)%string
                    end.
Proof.
  induction s as [ | c s IH]; simpl.
  - destruct (lstrip b); reflexivity.
  - destruct (is_space c); [ exact IH | reflexivity ].
Qed.

Lemma lstrip_blank (b : string) : blank b = true -> lstrip b = EmptyString.
Proof.
  induction b as [ | c b IH]; simpl; [ reflexivity | ].
  destruct (is_space c); [ exact IH | discriminate ].
Qed.

Lemma strip_padded (a s b : string) :
  blank a = true -> blank b = true -> strip (a ++ s ++ b) = strip s.
Proof.
  intros Ha Hb. unfold strip.
  rewrite (lstrip_blank_app a _ Ha), lstrip_app.
  destruct (lstrip s) as [ | c t] eqn:E.
  - now rewrite (lstrip_blank b Hb).
  - rewrite <- E. now apply rstrip_app_blank.
Qed.

(** X21: [get_input] answers with the line typed, whatever white space
    is typed before and after it: a line made of blanks, a text and blanks
    gives the same answer as the text alone.  The words [clone], [delete]
    and [y], the numbers and the ids are read so. *)
Theorem get_input_ignores_padding
    (prompt : string) (s : state) (a text b : string) (rest : list string) :
  stdin s = (a ++ text ++ b)%string :: rest ->
  blank a = true -> blank b = true ->
  fst (get_input prompt s) = Ok (strip text)
  /\ stdin (snd (get_input prompt s)) = rest.
Proof.
  intros Hs Ha Hb.
  destruct (get_input_cases prompt s) as [[He _] | [line [rest' [Hs' Hg]]]];
    [ congruence | ].
  rewrite Hs in Hs'. inversion Hs'; subst line rest'.
  rewrite Hg. cbn. now rewrite (strip_padded a text b Ha Hb).
Qed.

Lemma get_input_ignores_padding_witness :
  fst (get_input "type 'clone' to proceed: " (loaded ["  clone "; ""]))
  = Ok "clone"
  /\ stdin (snd (get_input "type 'clone' to proceed: " (loaded ["  clone "; ""])))
     = [""].
Proof.
  exact (get_input_ignores_padding "type 'clone' to proceed: "
           (loaded ["  clone "; ""]) "  " "clone" " " [""]
           eq_refl eq_refl eq_refl).
Defined.

(** ** Categories and channels: one phase for each document *)

Lemma filter_partition {A} (f : A -> bool) (l : list A) :
  Permutation (filter f l ++ filter (fun x => negb (f x)) l) l.
Proof.
  induction l as [ | x l IH]; simpl; [ constructor | ].
  destruct (f x); simpl.
  - now constructor.
  - rewrite <- Permutation_middle. now constructor.
Qed.

(** X22: every channel document of the snapshot is taken by exactly one
    of the two structure phases.  On a list of documents the two
    comprehensions return without error; the documents that
    [categories_create] takes (those whose type is equal to 4) and those
    that [channels_create] takes (all the others, a missing type and the
    string ["4"] included) are, together, the documents of the list, each
    once. *)
Theorem structure_phases_share_the_channels (channels_data : list pyval) :
  Forall is_dict channels_data ->
  filter_result is_category channels_data = Ok (categories_of channels_data)
  /\ filter_result is_not_category channels_data = Ok (leaves_of channels_data)
  /\ Permutation (categories_of channels_data ++ leaves_of channels_data)
       channels_data
  /\ Forall (fun c => eq_int (field c "type" PNone) 4 = true)
       (categories_of channels_data)
  /\ Forall (fun c => eq_int (field c "type" PNone) 4 = false)
       (leaves_of channels_data).
Proof.
  intros Hd. split; [ | split; [ | split; [ | split ] ] ].
  - apply filter_result_all.
    eapply Forall_impl; [ | exact Hd ]. intros c [d ->]. reflexivity.
  - apply filter_result_all.
    eapply Forall_impl; [ | exact Hd ]. intros c [d ->]. reflexivity.
  - apply filter_partition.
  - apply Forall_forall. intros c Hc. unfold categories_of in Hc.
    now apply filter_In in Hc.
  - apply Forall_forall. intros c Hc. unfold leaves_of in Hc.
    apply filter_In in Hc. now apply negb_true_iff.
Qed.

Lemma structure_phases_share_the_channels_witness :
  leaves_of [PDict [("id", PStr "9"); ("type", PStr "4")];
             PDict [("id", PStr "10"); ("type", PFloat (S754_finite false 4 0))]]
  = [PDict [("id", PStr "9"); ("type", PStr "4")]]
  /\ Permutation
       (categories_of [PDict [("id", PStr "9"); ("type", PStr "4")];
                       PDict [("id", PStr "10");
                              ("type", PFloat (S754_finite false 4 0))]]
        ++ leaves_of [PDict [("id", PStr "9"); ("type", PStr "4")];
                      PDict [("id", PStr "10");
                             ("type", PFloat (S754_finite false 4 0))]])
       [PDict [("id", PStr "9"); ("type", PStr "4")];
        PDict [("id", PStr "10"); ("type", PFloat (S754_finite false 4 0))]].
Proof.
  split; [ reflexivity | ].
  apply (structure_phases_share_the_channels
           [PDict [("id", PStr "9"); ("type", PStr "4")];
            PDict [("id", PStr "10"); ("type", PFloat (S754_finite false 4 0))]]).
  repeat constructor; eexists; reflexivity.
Defined.

(** ** The statements above, on the sample data *)


Lemma creation_phases_register_what_they_create_witness :
  role_map (snd (roles_create accepting target_guild
                   (snap_roles sample_snapshot) idle))
  = [(PStr "1", everyone); (PStr "100", mkObj 104 "new")]
  /\ registered role_map (role_handle target_guild)
       (ids_of (snap_roles sample_snapshot)) idle
       (snd (roles_create accepting target_guild
               (snap_roles sample_snapshot) idle)).
Proof.
  split; [ vm_compute; reflexivity | ].
  apply (proj1 (creation_phases_register_what_they_create accepting target_guild)).
  repeat constructor; eexists; reflexivity.
Defined.

(** ** [CloneBot.do_full_clone]: a rename that fails *)

Lemma guild_edit_rename_raises (env : services) (g : guild)
    (d : list (string * pyval)) (s : state) (e : exn) :
  api env (trace s) (GuildEditName (field (PDict d) "name" (PStr "unnamed")))
  = Raise e ->
  e <> Forbidden ->
  guild_edit env g (PDict d) s
  = (Raise e,
     set_trace
       (Api (GuildEditName (field (PDict d) "name" (PStr "unnamed"))) (Raise e)
        :: trace s)
       (set_stats "Updating Guild" (completed s) (total s) (errors s) s)).
Proof.
  intros Hapi Hne. unfold field in *. cbn [py_get] in *.
  unfold guild_edit, set_operation, try_except, bind, request, lift, modify.
  cbn. rewrite Hapi.
  destruct e; try reflexivity. exfalso. apply Hne. reflexivity.
Qed.



(** ** [RateLimiter.wait]: which calls it paces *)

Lemma calls_follow_waits_app (a b : list event) :
  calls_follow_waits a -> calls_follow_waits b -> calls_follow_waits (a ++ b).
Proof.
  intros Ha Hb. induction a as [ | e a IH]; simpl; [ exact Hb | ].
  destruct e as [ | c r | | | | | | | ]; simpl in *; auto.
  destruct Ha as [Hh Ha]. split; [ | now apply IH ].
  destruct a; [ discriminate Hh | exact Hh ].
Qed.

Lemma pacing_refl (s : state) : pacing s s.
Proof. exists []. split; [ reflexivity | exact I ]. Qed.

Lemma pacing_trans (a b c : state) : pacing a b -> pacing b c -> pacing a c.
Proof.
  intros [n1 [T1 P1]] [n2 [T2 P2]]. exists (n2 ++ n1).
  split; [ rewrite T2, T1; apply app_assoc | ].
  now apply calls_follow_waits_app.
Qed.

Section Pacing.

Variable env : services.
Variable g : guild.

Ltac paced :=
  eexists; split; [ cbn; repeat (eapply cons_prefix); apply nil_prefix | ];
  cbn; repeat split.

(** A turn of a deletion loop: a wait, the call, a line of the log. *)
Ltac deletion_turn :=
  apply (preserves_for_each _ pacing_refl pacing_trans); intros x s;
  unfold rate_wait, log_delete, log_error, incr_completed,
    bind, try_except, request, emit, modify; cbn;
  destruct (api env _ _) as [? | []]; cbn; paced.

Ltac quiet_step :=
  let s := fresh "s" in
  intros s; unfold set_operation, set_total, set_completed, print_status,
    emit, modify, ret; paced.

Lemma roles_delete_paced : preserves pacing (roles_delete env g).
Proof.
  unfold roles_delete.
  do 3 (apply (preserves_bind _ pacing_trans); [ quiet_step | intros _ ]).
  apply (preserves_bind _ pacing_trans); [ deletion_turn | intros _; quiet_step ].
Qed.

Lemma channels_delete_paced : preserves pacing (channels_delete env g).
Proof.
  unfold channels_delete.
  do 3 (apply (preserves_bind _ pacing_trans); [ quiet_step | intros _ ]).
  apply (preserves_bind _ pacing_trans); [ deletion_turn | intros _; quiet_step ].
Qed.

Lemma emojis_delete_paced : preserves pacing (emojis_delete env g).
Proof.
  unfold emojis_delete.
  do 3 (apply (preserves_bind _ pacing_trans); [ quiet_step | intros _ ]).
  destruct (guild_emojis g); [ quiet_step | ].
  apply (preserves_bind _ pacing_trans); [ deletion_turn | intros _; quiet_step ].
Qed.

Ltac leaf_no_wait :=
  first
    [ apply appended_emit; exact I
    | apply appended_modify; intros ?; reflexivity
    | apply appended_request; intros ?; exact I
    | apply appended_download; intros ?; exact I
    | apply appended_print_status; intros ? ? ? ?; exact I ].

Lemma reorder_roles_no_wait (roles_data : list pyval) :
  preserves (appended no_wait) (reorder_roles env g roles_data).
Proof.
  unfold reorder_roles. unfold_clone.
  frame_with (appended_refl no_wait) (appended_trans no_wait) leaf_no_wait.
Qed.

End Pacing.

(** X26: the rate limiter paces the deletions one by one, and not the
    reposition pass.  In [roles_delete], [channels_delete] and
    [emojis_delete] every call to the target comes right after a call of
    [rate.wait()], whatever the target answers.  [reorder_roles] never calls
    [rate.wait()]: its position edits, one for each role created, are sent
    without a pause of the limiter. *)
Theorem rate_wait_paces_the_deletions (env : services) (g : guild) :
  preserves pacing (roles_delete env g)
  /\ preserves pacing (channels_delete env g)
  /\ preserves pacing (emojis_delete env g)
  /\ (forall roles_data,
        preserves (appended no_wait) (reorder_roles env g roles_data)).
Proof.
  split; [ apply roles_delete_paced | ].
  split; [ apply channels_delete_paced | ].
  split; [ apply emojis_delete_paced | ].
  apply reorder_roles_no_wait.
Qed.
